(** * Deep-yt: a chat-driven video uploader

    Shallow embedding of the session state machine of [src/bot.js], of the
    upload gateway and the acquisition layer of [src/uploader.js] (which
    holds both the [YouTubeUploader] and the [FileDownloader] classes) and
    of the file limits of [src/config.js].

    Conventions of the embedding.
    - A JavaScript string is a Rocq [string], one character per UTF-16 code
      unit, for code units below 256.  Message literals that contain emoji
      are kept as the bytes of the source file: only their identity is used.
    - [undefined]/[null] fields are [option]s; the truthiness tests of the
      source ([x ? a : b], [x || d]) are written out with [truthy].
    - An [async] method is a state transformer on a [World] (sessions,
      scratch files, credential store, outbound messages, remote calls) that
      ends in a value or in a thrown exception, identified with its
      [message].  [try]/[catch]/[finally] are combinators of that monad.
    - Remote collaborators (chat transport reads, OAuth, video API, HTTP)
      answer through an [Env] record; the Node.js runtime functions the code
      calls but does not define are either transcribed ([path.extname]) or
      taken from a [Platform] record ([path.join], [new URL], ...).
    - Local file operations and the delivery of outbound chat messages are
      reliable; downloads can fail before or during the transfer.
    - The clock is the field [now] of the environment, the same at every
      reading within one run of a handler; where a result holds two
      readings, the statement takes one environment for each.
    - Handlers run one at a time.  The fields [downloadProgress] and
      [uploadProgress], written by the progress callbacks and read by the
      status command only, are left out, and so is the keyboard attached to
      a reply. *)

From Stdlib Require Import ZArith Ascii String List Lia Bool.
From stdpp Require Import base option gmap strings.

Import ListNotations.
Local Open Scope string_scope.
Local Open Scope Z_scope.

(** ** JavaScript string primitives *)

Module JS.

Definition chars (s : string) : list ascii := list_ascii_of_string s.
Definition str (l : list ascii) : string := string_of_list_ascii l.

(** [Boolean(s)] for a string: only the empty string is falsy. *)
Definition truthy (s : string) : bool :=
  match s with EmptyString => false | String _ _ => true end.

(** [o || d] for an optional string. *)
Definition or_default (o : option string) (d : string) : string :=
  match o with
  | Some s => if truthy s then s else d
  | None => d
  end.

(** [s.substring(0, n)]. *)
Definition substring0 (n : nat) (s : string) : string := str (firstn n (chars s)).

(** [s.startsWith(p)]. *)
Fixpoint startsWith (p s : string) : bool :=
  match p, s with
  | EmptyString, _ => true
  | String a p', String b s' => if Ascii.eqb a b then startsWith p' s' else false
  | String _ _, EmptyString => false
  end.

(** [s.includes(p)]. *)
Fixpoint includes (p s : string) : bool :=
  startsWith p s ||
  match s with
  | EmptyString => false
  | String _ s' => includes p s'
  end.

(** White space in the sense of [String.prototype.trim], below code unit
    256: TAB, LF, VT, FF, CR, SPACE and NBSP. *)
Definition is_space (c : ascii) : bool :=
  let n := nat_of_ascii c in
  ((9 <=? n)%nat && (n <=? 13)%nat) || (n =? 32)%nat || (n =? 160)%nat.

Fixpoint trim_start (l : list ascii) : list ascii :=
  match l with
  | c :: l' => if is_space c then trim_start l' else l
  | [] => []
  end.

Definition trim_list (l : list ascii) : list ascii :=
  rev (trim_start (rev (trim_start l))).

(** [s.trim()]. *)
Definition trim (s : string) : string := str (trim_list (chars s)).

(** [s.split(sep)] for a one-character separator: never the empty list. *)
Fixpoint split_list (sep : ascii) (l : list ascii) : list (list ascii) :=
  match l with
  | [] => [[]]
  | c :: l' =>
      if Ascii.eqb c sep then [] :: split_list sep l'
      else match split_list sep l' with
           | piece :: rest => (c :: piece) :: rest
           | [] => [[c]]
           end
  end.

Definition split (sep : ascii) (s : string) : list string :=
  map str (split_list sep (chars s)).

(** [s.toLowerCase()] below code unit 256: A-Z and the Latin-1 capitals
    U+00C0..U+00DE except the multiplication sign U+00D7. *)
Definition lower_char (c : ascii) : ascii :=
  let n := nat_of_ascii c in
  if ((65 <=? n)%nat && (n <=? 90)%nat)
     || ((192 <=? n)%nat && (n <=? 222)%nat && negb (n =? 215)%nat)
  then ascii_of_nat (n + 32) else c.

Definition toLowerCase (s : string) : string := str (map lower_char (chars s)).

(** Decimal rendering of an integer, as in a template literal. *)
Definition digit_char (d : Z) : ascii := ascii_of_nat (48 + Z.to_nat d).

Fixpoint digits_fuel (fuel : nat) (n : Z) (acc : list ascii) : list ascii :=
  match fuel with
  | O => acc
  | S f =>
      let acc' := digit_char (n mod 10) :: acc in
      if n <? 10 then acc' else digits_fuel f (n / 10) acc'
  end.

Definition string_of_Z (n : Z) : string :=
  if n <? 0 then String "-" (str (digits_fuel (S (Z.to_nat (Z.log2 (- n)))) (- n) []))
  else str (digits_fuel (S (Z.to_nat (Z.log2 n))) n []).

(** [(bytes / 1024 / 1024).toFixed(2)] for a non-negative byte count.
    Dividing by a power of two is exact on doubles in this range, and
    [toFixed] rounds the exact value to the nearest hundredth, ties up. *)
Definition toFixed2_MiB (bytes : Z) : string :=
  let hundredths := (200 * bytes + 1048576) / 2097152 in
  let frac := hundredths mod 100 in
  string_of_Z (hundredths / 100) +:+ "." +:+
  str [digit_char (frac / 10); digit_char (frac mod 10)].

End JS.

(** ** The [path] functions of the runtime *)

Module Path.

(** Loop state of [path.extname] (POSIX flavour of the Node.js runtime). *)
Record ExtScan := mkExtScan {
  startDot : Z;
  startPart : Z;
  end_ : Z;
  matchedSlash : bool;
  preDotState : Z
}.

Definition ext_init : ExtScan :=
  {| startDot := -1; startPart := 0; end_ := -1; matchedSlash := true; preDotState := 0 |}.

Definition slash : ascii := "/"%char.
Definition dot : ascii := "."%char.

(** The first non-separator seen from the right marks the end of the
    extension. *)
Definition mark_end (i : Z) (st : ExtScan) : ExtScan :=
  if end_ st =? -1
  then mkExtScan (startDot st) (startPart st) (i + 1) false (preDotState st)
  else st.

Definition see_char (code : ascii) (i : Z) (st : ExtScan) : ExtScan :=
  if Ascii.eqb code dot then
    if startDot st =? -1
    then mkExtScan i (startPart st) (end_ st) (matchedSlash st) (preDotState st)
    else if negb (preDotState st =? 1)
         then mkExtScan (startDot st) (startPart st) (end_ st) (matchedSlash st) 1
         else st
  else if negb (startDot st =? -1)
       then mkExtScan (startDot st) (startPart st) (end_ st) (matchedSlash st) (-1)
       else st.

(** [for (let i = path.length - 1; i >= 0; --i)]: [rpath] holds the code
    units at indices [i], [i - 1], ..., [0]. *)
Fixpoint extname_loop (rpath : list ascii) (i : Z) (st : ExtScan) : ExtScan :=
  match rpath with
  | [] => st
  | code :: rest =>
      if Ascii.eqb code slash then
        if negb (matchedSlash st)
        then mkExtScan (startDot st) (i + 1) (end_ st) (matchedSlash st) (preDotState st)
        else extname_loop rest (i - 1) st
      else extname_loop rest (i - 1) (see_char code i (mark_end i st))
  end.

(** [path.slice(a, b)] for [0 <= a <= b]. *)
Definition slice (l : list ascii) (a b : Z) : list ascii :=
  firstn (Z.to_nat (b - a)) (skipn (Z.to_nat a) l).

Definition extname (path : string) : string :=
  let l := JS.chars path in
  let st := extname_loop (rev l) (Z.of_nat (List.length l) - 1) ext_init in
  if (startDot st =? -1) || (end_ st =? -1) || (preDotState st =? 0)
     || ((preDotState st =? 1) && (startDot st =? end_ st - 1)
         && (startDot st =? startPart st + 1))
  then ""
  else JS.str (slice l (startDot st) (end_ st)).

End Path.

(** ** Configuration ([src/config.js]) *)

Record Config := mkConfig {
  (** [parseInt(process.env.MAX_FILE_SIZE)]; [None] is [NaN]. *)
  env_MAX_FILE_SIZE : option Z;
  (** [config.telegram.adminIds]. *)
  adminIds : list Z
}.

(** [parseInt(...) || 50 * 1024 * 1024]: zero and [NaN] are falsy. *)
Definition maxSize (cfg : Config) : Z :=
  match env_MAX_FILE_SIZE cfg with
  | Some n => if n =? 0 then 50 * 1024 * 1024 else n
  | None => 50 * 1024 * 1024
  end.

Definition tempDir : string := "./temp".

Definition allowedExtensions : list string :=
  [".mp4"; ".mkv"; ".avi"; ".mov"; ".wmv"; ".flv"; ".webm"].

(** [allowedExtensions.includes(ext)]. *)
Definition array_includes (l : list string) (x : string) : bool :=
  existsb (String.eqb x) l.

(** [allowedExtensions.join(', ')]. *)
Fixpoint join (sep : string) (l : list string) : string :=
  match l with
  | [] => ""
  | [x] => x
  | x :: rest => x +:+ sep +:+ join sep rest
  end.

(** ** Data model *)

Inductive Step :=
| idle | awaiting_video | downloading | awaiting_title
| awaiting_description | awaiting_privacy | awaiting_tags | uploading.

Inductive AuthStep := awaiting_code.

Record VideoInfo := mkVideoInfo {
  title : option string;
  description : option string;
  tags : option string;
  privacyStatus : option string;
  categoryId : option string;
  mimeType : option string;
  vi_size : option Z;
  vi_filePath : option string
}.

(** The object literal [{}]. *)
Definition emptyVideoInfo : VideoInfo :=
  mkVideoInfo None None None None None None None None.

Record Session := mkSession {
  step : Step;
  videoInfo : VideoInfo;
  filePath : option string;
  authStep : option AuthStep;
  lastActivity : Z;
  isAdmin : bool
}.

Record TokenSet := mkTokenSet {
  access_token : string;
  refresh_token : option string;
  scope : string;
  token_type : string;
  expiry_date : Z
}.

(** An entry of [auth/tokens.json]: the token set with its bookkeeping. *)
Record StoredTokens := mkStoredTokens {
  st_tokens : TokenSet;
  savedAt : Z;
  st_userId : string
}.

Record Snippet := mkSnippet {
  sn_title : string;
  sn_description : string;
  sn_tags : list string;
  sn_categoryId : string
}.

Record Status := mkStatus {
  st_privacyStatus : string;
  selfDeclaredMadeForKids : bool
}.

Record VideoMetadata := mkVideoMetadata {
  snippet : Snippet;
  status : Status
}.

(** A value or a thrown exception, identified with its [message]. *)
Inductive Res (A : Type) :=
| Val (a : A)
| Exn (message : string).
Arguments Val {A} a.
Arguments Exn {A} message.

Inductive UploadResult :=
| UploadSuccess (videoId videoUrl up_title up_privacyStatus : string) (thumbnail : option string)
| UploadFailure (error : string).

Inductive DownloadResult :=
| DownloadSuccess (dl_filePath dl_fileName : string) (dl_size : Z) (dl_mimeType : string)
| DownloadFailure (error : string).

Record InsertResponse := mkInsertResponse {
  ir_id : string;
  ir_title : string;
  ir_privacyStatus : string;
  ir_thumbnail : option string
}.

Record UserInfo := mkUserInfo {
  ui_email : string;
  ui_name : string;
  ui_picture : string
}.

Inductive AuthResult :=
| AuthSuccess (au_userId : Z) (email name picture : string)
| AuthFailure (error : string).

(** What a streaming GET does: the request is rejected, or a response
    arrives and [received] bytes reach the write stream before the body ends
    ([failure = None]) or breaks ([failure = Some message]). *)
Inductive GetOutcome :=
| GetRejected (message : string)
| GetResponse (content_type : option string) (received : Z) (failure : option string).

(** A chat attachment. *)
Record TelegramFile := mkTelegramFile {
  file_id : string;
  file_size : option Z;
  file_name : option string;
  mime_type : option string
}.

Inductive FileKind := video | document.

(** Things the handlers do that an observer outside the process can see. *)
Inductive Action :=
| ChannelsList (creds : StoredTokens)
| VideosInsert (creds : StoredTokens) (requestBody : VideoMetadata)
               (body : string) (media_mimeType : string)
| OAuthGetToken (code : string)
| OAuthUserinfo (creds : TokenSet)
| GetFileLink (fileId : string)
| HttpHead (url : string)
| HttpGet (url : string)
| Cleanup (path : option string).

Inductive Out :=
| Reply (text : string)
| EditMessageText (text : string)
| AnswerCbQuery.

Record World := mkWorld {
  sessions : gmap Z Session;
  files : gmap string Z;
  tokenStore : gmap Z StoredTokens;
  outbox : list Out;
  trace : list Action
}.

(** The collaborators and the runtime, as seen during one event. *)
Record Env := mkEnv {
  config : Config;
  (** [Date.now()]. *)
  now : Z;
  (** [path.join], [path.basename]. *)
  path_join : string -> string -> string;
  path_basename : string -> string;
  (** Whether [new URL(s)] returns. *)
  url_parses : string -> bool;
  (** [String(bytes / 1024 / 1024)]. *)
  show_MiB : Z -> string;
  (** [youtube.channels.list] with [maxResults: 1]: [Some message] when it throws. *)
  channels_probe : StoredTokens -> option string;
  (** [youtube.videos.insert]; the last argument is the size of the body
      file, if it exists. *)
  videos_insert : StoredTokens -> VideoMetadata -> string -> option Z -> Res InsertResponse;
  oauth_getToken : string -> Res TokenSet;
  oauth_userinfo : TokenSet -> Res UserInfo;
  telegram_getFileLink : string -> Res string;
  http_get : string -> GetOutcome
}.

(** ** Asynchronous computations *)

Definition M (A : Type) : Type := World -> Res A * World.

Definition ret {A} (a : A) : M A := fun w => (Val a, w).

Definition throw {A} (message : string) : M A := fun w => (Exn message, w).

Definition bind {A B} (m : M A) (k : A -> M B) : M B :=
  fun w =>
    match m w with
    | (Val a, w') => k a w'
    | (Exn e, w') => (Exn e, w')
    end.

Notation "'let*' x := m 'in' k" := (bind m (fun x => k))
  (at level 10, x name, m at level 99, k at level 200).
Notation "m ;; k" := (bind m (fun _ => k))
  (at level 100, k at level 200, right associativity).

(** [try { m } catch (error) { h(error.message) }]. *)
Definition try_catch {A} (m : M A) (h : string -> M A) : M A :=
  fun w =>
    match m w with
    | (Val a, w') => (Val a, w')
    | (Exn e, w') => h e w'
    end.

(** [try { m } finally { f }]: [f] runs however [m] ends, and the outcome
    of [m] stands unless [f] throws. *)
Definition try_finally {A} (m : M A) (f : M unit) : M A :=
  fun w =>
    match m w with
    | (r, w') =>
        match f w' with
        | (Val _, w'') => (r, w'')
        | (Exn e, w'') => (Exn e, w'')
        end
    end.

Definition lift {A} (r : Res A) : M A := fun w => (r, w).

Definition get_world : M World := fun w => (Val w, w).

(** Whether an optional value is there. *)
Definition defined {A} (o : option A) : bool :=
  match o with
  | Some _ => true
  | None => false
  end.

Definition when (b : bool) (m : M unit) : M unit := if b then m else ret tt.

(** The state a computation ends in. *)
Definition final {A} (m : M A) (w : World) : World := snd (m w).

(** How a computation ends. *)
Definition outcome {A} (m : M A) (w : World) : Res A := fst (m w).

(** *** Primitive effects *)

Definition emit (a : Action) : M unit :=
  fun w => (Val tt, mkWorld (sessions w) (files w) (tokenStore w) (outbox w) (trace w ++ [a])).

(** [ctx.reply(text)]. *)
Definition reply (text : string) : M unit :=
  fun w => (Val tt, mkWorld (sessions w) (files w) (tokenStore w)
                            (outbox w ++ [Reply text]) (trace w)).

(** [ctx.editMessageText(text)]. *)
Definition editMessageText (text : string) : M unit :=
  fun w => (Val tt, mkWorld (sessions w) (files w) (tokenStore w)
                            (outbox w ++ [EditMessageText text]) (trace w)).

(** [ctx.answerCbQuery()]. *)
Definition answerCbQuery : M unit :=
  fun w => (Val tt, mkWorld (sessions w) (files w) (tokenStore w)
                            (outbox w ++ [AnswerCbQuery]) (trace w)).

Definition set_sessions (f : gmap Z Session -> gmap Z Session) : M unit :=
  fun w => (Val tt, mkWorld (f (sessions w)) (files w) (tokenStore w) (outbox w) (trace w)).

Definition set_files (f : gmap string Z -> gmap string Z) : M unit :=
  fun w => (Val tt, mkWorld (sessions w) (f (files w)) (tokenStore w) (outbox w) (trace w)).

Definition set_tokenStore (f : gmap Z StoredTokens -> gmap Z StoredTokens) : M unit :=
  fun w => (Val tt, mkWorld (sessions w) (files w) (f (tokenStore w)) (outbox w) (trace w)).

(** [this.userSessions.get(userId)]. *)
Definition userSessions_get (userId : Z) : M (option Session) :=
  fun w => (Val (sessions w !! userId), w).

Definition TypeError_undefined : string := "Cannot read properties of undefined".

(** A property access on [this.userSessions.get(userId)]: a [TypeError]
    when there is no such session. *)
Definition the_session (userId : Z) : M Session :=
  let* s := userSessions_get userId in
  match s with
  | Some s => ret s
  | None => throw TypeError_undefined
  end.

(** An assignment to a property of the session object of [userId]. *)
Definition assign (userId : Z) (f : Session -> Session) : M unit :=
  let* s := the_session userId in
  set_sessions (fun m => <[userId := f s]> m).

Definition with_step (v : Step) (s : Session) : Session :=
  mkSession v (videoInfo s) (filePath s) (authStep s) (lastActivity s) (isAdmin s).

Definition with_videoInfo (v : VideoInfo) (s : Session) : Session :=
  mkSession (step s) v (filePath s) (authStep s) (lastActivity s) (isAdmin s).

Definition with_filePath (v : option string) (s : Session) : Session :=
  mkSession (step s) (videoInfo s) v (authStep s) (lastActivity s) (isAdmin s).

Definition with_authStep (v : option AuthStep) (s : Session) : Session :=
  mkSession (step s) (videoInfo s) (filePath s) v (lastActivity s) (isAdmin s).

Definition with_lastActivity (v : Z) (s : Session) : Session :=
  mkSession (step s) (videoInfo s) (filePath s) (authStep s) v (isAdmin s).

Definition with_title (v : string) (i : VideoInfo) : VideoInfo :=
  mkVideoInfo (Some v) (description i) (tags i) (privacyStatus i) (categoryId i)
              (mimeType i) (vi_size i) (vi_filePath i).

Definition with_description (v : string) (i : VideoInfo) : VideoInfo :=
  mkVideoInfo (title i) (Some v) (tags i) (privacyStatus i) (categoryId i)
              (mimeType i) (vi_size i) (vi_filePath i).

Definition with_tags (v : string) (i : VideoInfo) : VideoInfo :=
  mkVideoInfo (title i) (description i) (Some v) (privacyStatus i) (categoryId i)
              (mimeType i) (vi_size i) (vi_filePath i).

Definition with_privacyStatus (v : string) (i : VideoInfo) : VideoInfo :=
  mkVideoInfo (title i) (description i) (tags i) (Some v) (categoryId i)
              (mimeType i) (vi_size i) (vi_filePath i).

(** [Boolean(p)] for an optional path. *)
Definition truthy_path (p : option string) : bool :=
  match p with
  | Some s => JS.truthy s
  | None => false
  end.

(** [fs.pathExists], [fs.remove], [fs.stat(...).size]. *)
Definition pathExists (p : string) : M bool :=
  fun w => (Val (defined (files w !! p)), w).

Definition fs_remove (p : string) : M unit := set_files (delete p).

Definition stat_size (p : string) : M Z :=
  fun w =>
    match files w !! p with
    | Some n => (Val n, w)
    | None => (Exn ("ENOENT: no such file or directory, stat '" +:+ p +:+ "'"), w)
    end.

Definition nl : string := String (ascii_of_nat 10) EmptyString.
Definition dq : string := String (ascii_of_nat 34) EmptyString.

Section Services.

Context (E : Env).

(** ** Upload gateway ([class YouTubeUploader]) *)

(** The credential store is the one document [auth/tokens.json]. *)
Definition getTokens (userId : Z) : M (option StoredTokens) :=
  fun w => (Val (tokenStore w !! userId), w).

Definition saveTokens (userId : Z) (tokens : TokenSet) : M bool :=
  set_tokenStore (fun allTokens =>
    <[userId := mkStoredTokens tokens (now E) (JS.string_of_Z userId)]> allTokens);;
  ret true.

Definition deleteTokens (userId : Z) : M bool :=
  set_tokenStore (fun allTokens => delete userId allTokens);;
  ret true.

Definition handleAuthCallback (code : string) (userId : Z) : M AuthResult :=
  try_catch
    (emit (OAuthGetToken code);;
     let* tokens := lift (oauth_getToken E code) in
     emit (OAuthUserinfo tokens);;
     let* userInfo := lift (oauth_userinfo E tokens) in
     saveTokens userId tokens;;
     ret (AuthSuccess userId (ui_email userInfo) (ui_name userInfo) (ui_picture userInfo)))
    (fun message => ret (AuthFailure message)).

Definition checkAuth (userId : Z) : M bool :=
  try_catch
    (let* tokens := getTokens userId in
     match tokens with
     | None => ret false
     | Some creds =>
         emit (ChannelsList creds);;
         match channels_probe E creds with
         | Some message => throw message
         | None => ret true
         end
     end)
    (fun _ => ret false).

(** [tags.split(',').map(tag => tag.trim()).filter(tag => tag.length > 0).slice(0, 30)]. *)
Definition parse_tags (raw : string) : list string :=
  firstn 30 (List.filter JS.truthy (map JS.trim (JS.split "," raw))).

(** The object literal [videoMetadata]; reading [substring] of an unset
    title throws. *)
Definition build_metadata (videoData : VideoInfo) : Res VideoMetadata :=
  match title videoData with
  | None => Exn (TypeError_undefined +:+ " (reading 'substring')")
  | Some t =>
      Val (mkVideoMetadata
             (mkSnippet
                (JS.substring0 100 t)
                (match description videoData with
                 | Some d => if JS.truthy d then JS.substring0 5000 d else ""
                 | None => ""
                 end)
                (match tags videoData with
                 | Some raw => if JS.truthy raw then parse_tags raw else []
                 | None => []
                 end)
                (JS.or_default (categoryId videoData) "22"))
             (mkStatus (JS.or_default (privacyStatus videoData) "private") false))
  end.

(** [fs.createReadStream(p)] validates its argument at once. *)
Definition createReadStream (p : option string) : M string :=
  match p with
  | Some p => ret p
  | None =>
      throw ("The " +:+ dq +:+ "path" +:+ dq +:+
             " argument must be of type string or an instance of Buffer or URL. Received undefined")
  end.

Definition youtube_videos_insert (creds : StoredTokens) (requestBody : VideoMetadata)
    (body media_mimeType : string) : M InsertResponse :=
  emit (VideosInsert creds requestBody body media_mimeType);;
  let* w := get_world in
  lift (videos_insert E creds requestBody media_mimeType (files w !! body)).

Definition uploadVideo (userId : Z) (videoData : VideoInfo) : M UploadResult :=
  try_catch
    (let* tokens := getTokens userId in
     match tokens with
     | None => throw "User not authenticated. Please use /auth first."
     | Some creds =>
         let* videoMetadata := lift (build_metadata videoData) in
         let* body := createReadStream (vi_filePath videoData) in
         let* response :=
           youtube_videos_insert creds videoMetadata body
             (JS.or_default (mimeType videoData) "video/mp4") in
         ret (UploadSuccess (ir_id response)
                ("https://www.youtube.com/watch?v=" +:+ ir_id response)
                (ir_title response) (ir_privacyStatus response) (ir_thumbnail response))
     end)
    (fun message => ret (UploadFailure message)).

(** ** Acquisition layer ([class FileDownloader]) *)

(** [axios({method: 'GET', responseType: 'stream', ...})]. *)
Definition axios_get (url : string) : M (option string * Z * option string) :=
  emit (HttpGet url);;
  match http_get E url with
  | GetRejected message => throw message
  | GetResponse content_type received failure => ret (content_type, received, failure)
  end.

(** [pipeline(response.data, fs.createWriteStream(filePath))]: the file is
    created and holds what was received, also when the body breaks. *)
Definition pipeline (response : option string * Z * option string) (filePath : string) : M unit :=
  let '(_, received, failure) := response in
  set_files (fun fs => <[filePath := received]> fs);;
  match failure with
  | Some message => throw message
  | None => ret tt
  end.

Definition downloadTelegramFile (fileUrl fileName : string) : M DownloadResult :=
  try_catch
    (let filePath := path_join E tempDir fileName in
     let* response := axios_get fileUrl in
     pipeline response filePath;;
     let* size := stat_size filePath in
     if size =? 0 then
       fs_remove filePath;;
       throw "Downloaded file is empty"
     else if size >? maxSize (config E) then
       fs_remove filePath;;
       throw ("File too large: " +:+ JS.toFixed2_MiB size +:+ "MB (max: " +:+
              show_MiB E (maxSize (config E)) +:+ "MB)")
     else
       ret (DownloadSuccess filePath (path_basename E filePath) size
              (JS.or_default (fst (fst response)) "video/mp4")))
    (fun message => ret (DownloadFailure ("Download failed: " +:+ message))).

Definition downloadDirectUrl (url : string) (fileName : option string) : M DownloadResult :=
  try_catch
    (if negb (JS.startsWith "http" url) then ret (DownloadFailure "Invalid URL")
     else
       let filePath :=
         path_join E tempDir
           (JS.or_default fileName ("direct_" +:+ JS.string_of_Z (now E) +:+ ".mp4")) in
       emit (HttpHead url);;
       let* response := axios_get url in
       pipeline response filePath;;
       let* size := stat_size filePath in
       if size >? maxSize (config E) then
         fs_remove filePath;;
         throw ("File too large: " +:+ JS.toFixed2_MiB size +:+ "MB")
       else
         ret (DownloadSuccess filePath (path_basename E filePath) size
                (JS.or_default (fst (fst response)) "video/mp4")))
    (fun message => ret (DownloadFailure ("URL download failed: " +:+ message))).

(** A regular expression of the shape [/prefix([^stop]+)/]. *)
Record Pattern := mkPattern {
  pat_prefix : string;
  pat_stop : ascii
}.

(** The longest run of characters other than [stop] at the head. *)
Fixpoint run_of (stop : ascii) (s : string) : string :=
  match s with
  | EmptyString => EmptyString
  | String c s' => if Ascii.eqb c stop then EmptyString else String c (run_of stop s')
  end.

Fixpoint drop_prefix (p s : string) : string :=
  match p, s with
  | String _ p', String _ s' => drop_prefix p' s'
  | _, _ => s
  end.

(** The pattern anchored at the head of [s]: the capture group, if it matches. *)
Definition match_here (pat : Pattern) (s : string) : option string :=
  if JS.startsWith (pat_prefix pat) s then
    let group := run_of (pat_stop pat) (drop_prefix (pat_prefix pat) s) in
    if JS.truthy group then Some group else None
  else None.

(** [s.match(pattern)[1]]: the capture group of the leftmost match. *)
Fixpoint regex_match (pat : Pattern) (s : string) : option string :=
  match match_here pat s with
  | Some group => Some group
  | None =>
      match s with
      | EmptyString => None
      | String _ s' => regex_match pat s'
      end
  end.

Definition urlPatterns : list Pattern :=
  [ mkPattern "/d/" "/";
    mkPattern "id=" "&";
    mkPattern "/file/d/" "/";
    mkPattern "drive.google.com/open?id=" "&" ].

(** The [for (const pattern of urlPatterns)] loop with its [break]. *)
Fixpoint first_match (patterns : list Pattern) (url : string) : option string :=
  match patterns with
  | [] => None
  | pattern :: rest =>
      match regex_match pattern url with
      | Some group => if JS.truthy group then Some group else first_match rest url
      | None => first_match rest url
      end
  end.

Definition extractFileId (url : string) : option string := first_match urlPatterns url.

Definition driveDownloadUrl (fileId : string) : string :=
  "https://drive.google.com/uc?export=download&id=" +:+ fileId.

Definition downloadGoogleDrive (url : string) (fileName : option string) : M DownloadResult :=
  try_catch
    (match extractFileId url with
     | None => ret (DownloadFailure "Invalid Google Drive URL format")
     | Some fileId =>
         downloadDirectUrl (driveDownloadUrl fileId)
           (Some (JS.or_default fileName ("gdrive_" +:+ JS.string_of_Z (now E) +:+ ".mp4")))
     end)
    (fun message => ret (DownloadFailure ("Google Drive download failed: " +:+ message))).

Definition getFileExtension (filename : string) : string :=
  JS.toLowerCase (Path.extname filename).

Definition isValidExtension (filename : string) : bool :=
  array_includes allowedExtensions (JS.toLowerCase (Path.extname filename)).

Definition cleanup (filePath : option string) : M unit :=
  emit (Cleanup filePath);;
  try_catch
    (match filePath with
     | Some p =>
         if JS.truthy p then
           let* present := pathExists p in
           when present (fs_remove p)
         else ret tt
     | None => ret tt
     end)
    (fun _ => ret tt).

End Services.

(** ** Session state machine ([class YouTubeUploaderBot]) *)

Section Bot.

Context (E : Env).

(** Handlers run to completion without interleaving, so the session object
    a handler holds is the entry of [userSessions] for its user. *)

(** The second middleware of [setupMiddleware]. *)
Definition middleware (userId : Z) (next : M unit) : M unit :=
  let isAdmin := existsb (Z.eqb userId) (adminIds (config E)) in
  let* present := userSessions_get userId in
  when (negb (defined present))
       (set_sessions (fun m =>
          <[userId := mkSession idle emptyVideoInfo None None (now E) isAdmin]> m));;
  assign userId (with_lastActivity (now E));;
  next.

Definition authRequiredMsg : string :=
  "❌ *Authentication Required*" +:+ nl +:+ nl +:+
  "Please authenticate first using /auth command.".

Definition uploadMsg : string :=
  nl +:+
  "📤 *Upload Video to YouTube*" +:+ nl +:+
  nl +:+
  "You can send me:" +:+ nl +:+
  "• A video file (up to 50MB)" +:+ nl +:+
  "• A Google Drive link" +:+ nl +:+
  "• A direct video URL" +:+ nl +:+
  nl +:+
  "*Supported formats:* MP4, MKV, AVI, MOV, WMV" +:+ nl +:+
  "*Max size:* 50MB" +:+ nl +:+
  nl +:+
  "📝 *Or use the button below for step-by-step upload*" +:+ nl +:+
  "      ".

(** [bot.command('upload')]. *)
Definition command_upload (userId : Z) : M unit :=
  let* isAuth := checkAuth E userId in
  if negb isAuth then reply authRequiredMsg
  else
    reply uploadMsg;;
    assign userId (with_step awaiting_video).

(** [bot.command('logout')]. *)
Definition command_logout (userId : Z) : M unit :=
  let* deleted := deleteTokens userId in
  set_sessions (fun m => delete userId m);;
  if deleted
  then reply "✅ Successfully logged out. Use /auth to authenticate again."
  else reply "✅ Session cleared. Use /auth to authenticate.".

(** [bot.command('cancel')]. *)
Definition command_cancel (userId : Z) : M unit :=
  let* session := userSessions_get userId in
  when (match session with Some s => truthy_path (filePath s) | None => false end)
       (cleanup (session ≫= filePath));;
  set_sessions (fun m =>
    <[userId := mkSession idle emptyVideoInfo None None (now E)
                  (match session with Some s => isAdmin s || false | None => false end)]> m);;
  reply "✅ Operation cancelled.".

(** [bot.action('cancel')], the button of the upload menu. *)
Definition action_cancel (userId : Z) : M unit :=
  answerCbQuery;;
  let* session := userSessions_get userId in
  when (defined session) (assign userId (with_step idle));;
  editMessageText "Operation cancelled.".

(** [bot.action('cancel_auth')]. *)
Definition action_cancel_auth (userId : Z) : M unit :=
  answerCbQuery;;
  let* session := userSessions_get userId in
  when (defined session) (assign userId (with_authStep None));;
  editMessageText "Authentication cancelled.".

(** [bot.action('manual_upload')]. *)
Definition action_manual_upload (userId : Z) : M unit :=
  answerCbQuery;;
  let* isAuth := checkAuth E userId in
  if negb isAuth then reply "❌ Please authenticate first using /auth command."
  else
    assign userId (with_step awaiting_video);;
    editMessageText "Please send me a video file or link to upload:".

Definition downloadedMsg (size : Z) : string :=
  "✅ Video downloaded successfully!" +:+ nl +:+ nl +:+
  "Size: " +:+ JS.toFixed2_MiB size +:+ "MB" +:+ nl +:+ nl +:+
  "Now, please send me the *video title*:".

(** What both acquisition handlers do with the result of the download. *)
Definition record_download (userId : Z) (result : DownloadResult) : M unit :=
  match result with
  | DownloadFailure error =>
      assign userId (with_step idle);;
      reply ("❌ Download failed: " +:+ error)
  | DownloadSuccess dl_filePath _ dl_size dl_mimeType =>
      assign userId (with_filePath (Some dl_filePath));;
      assign userId (with_videoInfo
        (mkVideoInfo None None None None None (Some dl_mimeType) (Some dl_size) None));;
      assign userId (with_step awaiting_title);;
      reply (downloadedMsg dl_size)
  end.

Definition videoFileName (file : TelegramFile) (type : FileKind) : string :=
  match type with
  | video => "video_" +:+ file_id file +:+ ".mp4"
  | document => JS.or_default (file_name file) ("file_" +:+ file_id file)
  end.

(** [file.file_size > config.files.maxSize]: the size when the test holds. *)
Definition oversize (file : TelegramFile) : option Z :=
  match file_size file with
  | Some n => if n >? maxSize (config E) then Some n else None
  | None => None
  end.

Definition unsupportedMsg (extension : string) : string :=
  "❌ Unsupported file format: " +:+ extension +:+ nl +:+ nl +:+
  "Supported formats: " +:+ join ", " allowedExtensions.

Definition handleVideoFile (file : TelegramFile) (type : FileKind) (userId : Z) : M unit :=
  let* session := userSessions_get userId in
  if negb (match session with Some s => match step s with awaiting_video => true | _ => false end
                            | None => false end)
  then reply "Please use /upload first to start the upload process."
  else
    let* isAuth := checkAuth E userId in
    if negb isAuth then reply "❌ Please authenticate first using /auth command."
    else
      match oversize file with
      | Some n =>
          reply ("❌ File too large!" +:+ nl +:+ nl +:+
                 "Size: " +:+ JS.toFixed2_MiB n +:+ "MB" +:+ nl +:+
                 "Max allowed: " +:+ show_MiB E (maxSize (config E)) +:+ "MB")
      | None =>
          let fileName := videoFileName file type in
          let extension := getFileExtension fileName in
          if negb (isValidExtension extension)
          then reply (unsupportedMsg extension)
          else
            reply "📥 Downloading video from Telegram...";;
            try_catch
              (emit (GetFileLink (file_id file));;
               let* href := lift (telegram_getFileLink E (file_id file)) in
               assign userId (with_step downloading);;
               let* result := downloadTelegramFile E href fileName in
               record_download userId result)
              (fun message =>
                 assign userId (with_step idle);;
                 reply ("❌ Error: " +:+ message))
      end.

(** [bot.on('video')] and [bot.on('document')]. *)
Definition on_video (file : TelegramFile) (userId : Z) : M unit :=
  handleVideoFile file video userId.

Definition on_document (doc : TelegramFile) (userId : Z) : M unit :=
  if match mime_type doc with
     | Some m => JS.truthy m && JS.startsWith "video/" m
     | None => false
     end
  then handleVideoFile doc document userId
  else reply "❌ Please send a video file. Supported formats: MP4, MKV, AVI, MOV, WMV".

Definition handleUrl (url : string) (userId : Z) : M unit :=
  let* session := userSessions_get userId in
  if negb (match session with Some s => match step s with awaiting_video => true | _ => false end
                            | None => false end)
  then reply "Please use /upload first to start the upload process."
  else
    let* isAuth := checkAuth E userId in
    if negb isAuth then reply "❌ Please authenticate first using /auth command."
    else
      reply "🔗 Processing link...";;
      assign userId (with_step downloading);;
      let* result :=
        if JS.includes "drive.google.com" url then
          reply "📥 Downloading from Google Drive...";;
          downloadGoogleDrive E url (Some ("gdrive_" +:+ JS.string_of_Z (now E) +:+ ".mp4"))
        else
          reply "📥 Downloading from URL...";;
          downloadDirectUrl E url (Some ("url_" +:+ JS.string_of_Z (now E) +:+ ".mp4")) in
      record_download userId result.

Definition authSuccessMsg (name email : string) : string :=
  nl +:+
  "✅ *Authentication Successful!*" +:+ nl +:+
  nl +:+
  "Welcome, *" +:+ name +:+ "*!" +:+ nl +:+
  nl +:+
  "You can now upload videos to your YouTube account." +:+ nl +:+
  nl +:+
  "📤 *To upload:*" +:+ nl +:+
  "• Send me a video file" +:+ nl +:+
  "• Send a Google Drive link" +:+ nl +:+
  "• Use /upload command" +:+ nl +:+
  nl +:+
  "Your videos will be uploaded to:" +:+ nl +:+
  email +:+ nl +:+
  "      ".

Definition handleAuthCode (code : string) (userId : Z) : M unit :=
  reply "🔐 Processing authorization code...";;
  let* result := handleAuthCallback E code userId in
  let* session := userSessions_get userId in
  when (defined session) (assign userId (with_authStep None));;
  match result with
  | AuthSuccess _ email name _ => reply (authSuccessMsg name email)
  | AuthFailure error =>
      reply ("❌ Authentication failed: " +:+ error +:+ nl +:+ nl +:+ "Try /auth again.")
  end.

Definition handleTitle (text : string) (userId : Z) : M unit :=
  let* session := the_session userId in
  assign userId (with_videoInfo (with_title text (videoInfo session)));;
  assign userId (with_step awaiting_description);;
  reply ("Great! Now send me the *video description* (or type " +:+ dq +:+ "skip" +:+ dq +:+ "):").

Definition handleDescription (text : string) (userId : Z) : M unit :=
  let* session := the_session userId in
  when (negb (String.eqb (JS.toLowerCase text) "skip"))
       (assign userId (with_videoInfo (with_description text (videoInfo session))));;
  assign userId (with_step awaiting_privacy);;
  reply "Choose privacy setting:".

Definition setPrivacy (privacy : string) (userId : Z) : M unit :=
  let* session := the_session userId in
  assign userId (with_videoInfo (with_privacyStatus privacy (videoInfo session)));;
  assign userId (with_step awaiting_tags);;
  editMessageText ("Privacy set to: *" +:+ privacy +:+ "*" +:+ nl +:+ nl +:+
                   "Now, send me tags (comma-separated, or type " +:+ dq +:+ "skip" +:+ dq +:+ "):").

(** The success message reads [result.url], a property the upload result
    does not have. *)
Definition uploadSuccessMsg (up_title up_privacyStatus : string) : string :=
  nl +:+
  "✅ *Upload Successful!*" +:+ nl +:+
  nl +:+
  "📹 *Title:* " +:+ up_title +:+ nl +:+
  "🔗 *URL:* " +:+ "undefined" +:+ nl +:+
  "🔒 *Privacy:* " +:+ up_privacyStatus +:+ nl +:+
  nl +:+
  "The video is now processing on YouTube. It may take a few minutes to be available in full quality." +:+ nl +:+
  "        ".

(** The [try]/[catch] of [handleTags], over the upload call it awaits. *)
Definition handleTags_try (upload : Z -> VideoInfo -> M UploadResult) (userId : Z) : M unit :=
  try_catch
    (let* session := the_session userId in
     let* result := upload userId (videoInfo session) in
     match result with
     | UploadSuccess _ _ up_title up_privacyStatus _ =>
         reply (uploadSuccessMsg up_title up_privacyStatus)
     | UploadFailure error => reply ("❌ Upload failed: " +:+ error)
     end)
    (fun message => reply ("❌ Upload error: " +:+ message)).

(** The [finally] of [handleTags]. *)
Definition handleTags_finally (userId : Z) : M unit :=
  let* session := the_session userId in
  when (truthy_path (filePath session)) (cleanup (filePath session));;
  assign userId (with_step idle);;
  assign userId (with_videoInfo emptyVideoInfo);;
  assign userId (with_filePath None).

Definition handleTags_with (upload : Z -> VideoInfo -> M UploadResult)
    (text : string) (userId : Z) : M unit :=
  let* session := the_session userId in
  when (negb (String.eqb (JS.toLowerCase text) "skip"))
       (assign userId (with_videoInfo (with_tags text (videoInfo session))));;
  assign userId (with_step uploading);;
  reply "🚀 Starting upload to YouTube...";;
  try_finally (handleTags_try upload userId) (handleTags_finally userId).

Definition handleTags (text : string) (userId : Z) : M unit :=
  handleTags_with (uploadVideo E) text userId.

(** [isValidUrl]. *)
Definition isValidUrl (s : string) : bool := url_parses E s.

Definition is_awaiting_code (session : option Session) : bool :=
  match session with
  | Some s => match authStep s with Some awaiting_code => true | None => false end
  | None => false
  end.

(** [bot.on('text')], over the upload call of [handleTags]. *)
Definition on_text_with (upload : Z -> VideoInfo -> M UploadResult)
    (message_text : string) (userId : Z) : M unit :=
  let text := JS.trim message_text in
  let* session := userSessions_get userId in
  if is_awaiting_code session then handleAuthCode text userId
  else
    match step <$> session with
    | Some awaiting_title => handleTitle text userId
    | Some awaiting_description => handleDescription text userId
    | Some awaiting_tags => handleTags_with upload text userId
    | other =>
        if isValidUrl text then handleUrl text userId
        else match other with
             | None | Some idle =>
                 reply ("Send me a video file or link to upload." +:+ nl +:+
                        "Use /upload to start the process or /help for more info.")
             | _ => ret tt
             end
    end.

Definition on_text (message_text : string) (userId : Z) : M unit :=
  on_text_with (uploadVideo E) message_text userId.

(** ** Events *)

Inductive Event :=
| CommandUpload
| CommandCancel
| CommandLogout
| Text (message_text : string)
| Video (file : TelegramFile)
| Document (doc : TelegramFile)
| ActionCancel
| ActionCancelAuth
| ActionManualUpload
| ActionPrivacy (privacy : string).

(** One inbound event: the middleware, then the handler registered for it. *)
Definition handle (ev : Event) (userId : Z) : M unit :=
  middleware userId
    match ev with
    | CommandUpload => command_upload userId
    | CommandCancel => command_cancel userId
    | CommandLogout => command_logout userId
    | Text message_text => on_text message_text userId
    | Video file => on_video file userId
    | Document doc => on_document doc userId
    | ActionCancel => action_cancel userId
    | ActionCancelAuth => action_cancel_auth userId
    | ActionManualUpload => action_manual_upload userId
    | ActionPrivacy privacy => answerCbQuery;; setPrivacy privacy userId
    end.

End Bot.

(** The inverse of [JS.split_list]: the pieces with the separator between them. *)
Fixpoint join_list (sep : ascii) (pieces : list (list ascii)) : list ascii :=
  match pieces with
  | [] => []
  | [p] => p
  | p :: rest => (p ++ sep :: join_list sep rest)%list
  end.

(** A computation that touches neither the sessions nor the scratch files. *)
Definition leaves_local_state {A} (m : M A) : Prop :=
  forall w, sessions (final m w) = sessions w /\ files (final m w) = files w.

(** The world after a transfer wrote [n] bytes to [p], and after the file
    was removed again; [calls] are the requests made. *)
Definition after_transfer (w : World) (p : string) (n : Z) (calls : list Action) : World :=
  mkWorld (sessions w) (<[p := n]> (files w)) (tokenStore w) (outbox w)
          (trace w ++ calls).

Definition after_removal (w : World) (p : string) (n : Z) (calls : list Action) : World :=
  mkWorld (sessions w) (delete p (<[p := n]> (files w))) (tokenStore w) (outbox w)
          (trace w ++ calls).

(** Invariant of the loop of [Path.extname] when [n] code units are still
    to be read and [suffix] has been read: either only separators were seen,
    or the scan is inside the last component, whose part read so far, [seg],
    holds no separator and, from the last dot on, no further dot. *)
Definition ext_inv (n : nat) (suffix : list ascii) (st : Path.ExtScan) : Prop :=
  (Path.end_ st = -1 /\ Path.startDot st = -1 /\ Path.matchedSlash st = true)
  \/ (Path.matchedSlash st = false
      /\ exists seg tail,
          suffix = (seg ++ tail)%list
          /\ Path.end_ st = Z.of_nat n + Z.of_nat (List.length seg)
          /\ ~ In Path.slash seg
          /\ ((Path.startDot st = -1 /\ ~ In Path.dot seg)
              \/ exists pre r,
                  seg = (pre ++ Path.dot :: r)%list
                  /\ Path.startDot st = Z.of_nat n + Z.of_nat (List.length pre)
                  /\ ~ In Path.dot r)).

(** An extension as [Path.extname] returns it: empty, or a dot followed by
    characters that are neither dots nor separators. *)
Definition is_extension (ext : string) : Prop :=
  ext = ""
  \/ exists r, ext = JS.str (Path.dot :: r) /\ ~ In Path.dot r /\ ~ In Path.slash r.

(** The remote calls that fetch a video. *)
Definition is_acquisition (a : Action) : bool :=
  match a with
  | GetFileLink _ | HttpHead _ | HttpGet _ => true
  | _ => false
  end.

(** The step of a user's session; a user without a session is idle. *)
Definition step_of (w : World) (userId : Z) : Step :=
  match sessions w !! userId with
  | Some s => step s
  | None => idle
  end.

(** ** A concrete environment

    Used to run the handlers on explicit inputs. *)

Definition demo_tokens : TokenSet :=
  mkTokenSet "ya29.token" (Some "1//refresh") "https://www.googleapis.com/auth/youtube.upload"
             "Bearer" 1767225600000.

Definition demo_creds : StoredTokens := mkStoredTokens demo_tokens 1767222000000 "7".

(** [path.join] of a relative directory and a plain file name: the leading
    [./] goes away. *)
Definition demo_path_join (dir name : string) : string :=
  (if JS.startsWith "./" dir then drop_prefix "./" dir else dir) +:+ "/" +:+ name.

(** [path.basename] of such a path: what follows the last separator. *)
Fixpoint demo_basename (p : string) : string :=
  match p with
  | EmptyString => EmptyString
  | String c rest =>
      if JS.includes "/" rest then demo_basename rest
      else if Ascii.eqb c "/" then rest else p
  end.

(** An environment in which every collaborator answers, with the file
    limit left at its default; [get] is what a streaming GET does. *)
Definition demo_env (get : string -> GetOutcome) : Env :=
  mkEnv (mkConfig None [1])
        1767222000000
        demo_path_join
        demo_basename
        (fun s => JS.startsWith "http" s)
        (fun bytes => JS.string_of_Z (bytes / 1048576))
        (fun _ => None)
        (fun _ md _ _ =>
           Val (mkInsertResponse "dQw4w9WgXcQ" (sn_title (snippet md))
                                 (st_privacyStatus (status md)) None))
        (fun code => if String.eqb code "4/good" then Val demo_tokens else Exn "invalid_grant")
        (fun _ => Val (mkUserInfo "user@example.com" "User" "https://example.com/p.png"))
        (fun fileId => Val ("https://api.telegram.org/file/bot/" +:+ fileId))
        get.

Definition demo_session (s : Step) (p : option string) (a : option AuthStep) : Session :=
  mkSession s (mkVideoInfo (Some "Demo") None None (Some "public") None
                           (Some "video/mp4") (Some 1000) None)
            p a 1767221000000 true.

(** A world with one user, 7, who holds a credential and a session. *)
Definition demo_world (s : Step) (p : option string) (a : option AuthStep)
    (fs : gmap string Z) : World :=
  mkWorld {[ 7 := demo_session s p a ]} fs {[ 7 := demo_creds ]} [] [].

(** ** The authentication and channel commands *)

(** An item of the [channels.list] response: [snippet.title],
    [snippet.description] and the counters of [statistics], each absent when
    the response does not carry it. *)
Record Channel := mkChannel {
  ch_title : string;
  ch_description : option string;
  ch_subscriberCount : option string;
  ch_videoCount : option string;
  ch_viewCount : option string
}.

(** The collaborators of the authentication and channel commands. *)
Record AuthEnv := mkAuthEnv {
  (** [oauth2Client.generateAuthUrl], by its [state]. *)
  generateAuthUrl : string -> string;
  (** [youtube.channels.list] with [part: 'snippet,statistics']: the items. *)
  channels_list_mine : StoredTokens -> Res (list Channel)
}.

Definition getAuthUrl (A : AuthEnv) (userId : Z) : M string :=
  ret (generateAuthUrl A (JS.string_of_Z userId)).

Definition getChannelInfo (A : AuthEnv) (userId : Z) : M (option Channel) :=
  try_catch
    (let* tokens := getTokens userId in
     match tokens with
     | None => ret None
     | Some creds =>
         emit (ChannelsList creds);;
         let* items := lift (channels_list_mine A creds) in
         match items with
         | channel :: _ => ret (Some channel)
         | [] => ret None
         end
     end)
    (fun _ => ret None).

Definition alreadyAuthMsg (channel : Channel) : string :=
  "✅ *Already Authenticated*" +:+ nl +:+ nl +:+
  "📺 *Channel:* " +:+ ch_title channel +:+ nl +:+
  "👥 *Subscribers:* " +:+ JS.or_default (ch_subscriberCount channel) "N/A" +:+ nl +:+
  "🎬 *Videos:* " +:+ JS.or_default (ch_videoCount channel) "N/A" +:+ nl +:+ nl +:+
  "Use /logout to disconnect.".

Definition authMsg : string :=
  nl +:+
  "🔑 *YouTube Authentication Required*" +:+ nl +:+
  nl +:+
  "To upload videos, I need access to your YouTube account." +:+ nl +:+
  nl +:+
  "*Steps:*" +:+ nl +:+
  "1. Click the button below" +:+ nl +:+
  "2. Sign in with your Google account" +:+ nl +:+
  "3. Grant the requested permissions" +:+ nl +:+
  "4. You'll get an authorization code" +:+ nl +:+
  "5. Send that code back to me" +:+ nl +:+
  nl +:+
  "⚠️ *Important:* " +:+ nl +:+
  "• Only grant access to accounts you own" +:+ nl +:+
  "• You can revoke access anytime" +:+ nl +:+
  "      ".

(** [bot.command('auth')]. *)
Definition command_auth (E : Env) (A : AuthEnv) (userId : Z) : M unit :=
  let* isAuth := checkAuth E userId in
  if isAuth then
    let* channel := getChannelInfo A userId in
    match channel with
    | Some channel => reply (alreadyAuthMsg channel)
    | None => reply "✅ Already authenticated with YouTube!"
    end
  else
    let* authUrl := getAuthUrl A userId in
    reply authMsg;;
    assign userId (with_authStep (Some awaiting_code));;
    reply "After authorizing, please send me the authorization code you receive:".

Definition channelMsg (channel : Channel) : string :=
  nl +:+
  "📺 *Your YouTube Channel*" +:+ nl +:+
  nl +:+
  "*Name:* " +:+ ch_title channel +:+ nl +:+
  "*Subscribers:* " +:+ JS.or_default (ch_subscriberCount channel) "N/A" +:+ nl +:+
  "*Videos:* " +:+ JS.or_default (ch_videoCount channel) "N/A" +:+ nl +:+
  "*Views:* " +:+ JS.or_default (ch_viewCount channel) "N/A" +:+ nl +:+
  nl +:+
  "*Description:*" +:+ nl +:+
  JS.or_default (JS.substring0 300 <$> ch_description channel) "No description" +:+ "..." +:+ nl +:+
  "      ".

(** [bot.command('channel')]. *)
Definition command_channel (E : Env) (A : AuthEnv) (userId : Z) : M unit :=
  let* isAuth := checkAuth E userId in
  if negb isAuth then reply "❌ Please authenticate first with /auth"
  else
    let* channel := getChannelInfo A userId in
    match channel with
    | None => reply "❌ Could not fetch channel information"
    | Some channel => reply (channelMsg channel)
    end.

(** Every inbound event that can change the state of the bot. *)
Inductive BotEvent :=
| Ev (ev : Event)
| CommandAuth
| CommandChannel.

Definition dispatch (E : Env) (A : AuthEnv) (ev : BotEvent) (userId : Z) : M unit :=
  match ev with
  | Ev ev => handle E ev userId
  | CommandAuth => middleware E userId (command_auth E A userId)
  | CommandChannel => middleware E userId (command_channel E A userId)
  end.

(** One delivery: what the collaborators answer during it, the event and
    its sender. *)
Record Delivery := mkDelivery {
  d_env : Env;
  d_auth : AuthEnv;
  d_event : BotEvent;
  d_user : Z
}.

(** The bot handling deliveries one after the other. *)
Definition run_events (deliveries : list Delivery) (w : World) : World :=
  fold_left (fun w d => final (dispatch (d_env d) (d_auth d) (d_event d) (d_user d)) w)
            deliveries w.

(** ** Observations used in the properties *)

(** A computation whose start and end are always related by [R]. *)
Definition preserves {A} (R : World -> World -> Prop) (m : M A) : Prop :=
  forall w, R w (final m w).

(** Nothing that belongs to a user other than [userId] has changed. *)
Definition others_untouched (userId : Z) (w w' : World) : Prop :=
  forall u, u <> userId ->
    sessions w' !! u = sessions w !! u /\ tokenStore w' !! u = tokenStore w !! u.

(** Only requests other than [videos.insert] were added to the trace. *)
Definition no_insert_added (w w' : World) : Prop :=
  exists calls, trace w' = (trace w ++ calls)%list
                /\ Forall (fun a => match a with VideosInsert _ _ _ _ => False | _ => True end)
                          calls.

(** No session carries a file path inside its [videoInfo]. *)
Definition videoInfo_pathless (w : World) : Prop :=
  forall u s, sessions w !! u = Some s -> vi_filePath (videoInfo s) = None.

(** The admin flag of every session is what the allow-list says. *)
Definition admin_consistent (cfg : Config) (w : World) : Prop :=
  forall u s, sessions w !! u = Some s -> isAdmin s = existsb (Z.eqb u) (adminIds cfg).

(** ** Further observations *)

(** The session the middleware creates for a user it has not seen. *)
Definition fresh_session (E : Env) (userId : Z) : Session :=
  mkSession idle emptyVideoInfo None None (now E)
            (existsb (Z.eqb userId) (adminIds (config E))).

(** The world a handler starts in: the middleware has made sure that the
    sender has a session and has stamped it. *)
Definition entered (E : Env) (userId : Z) (w : World) : World :=
  mkWorld (<[userId := with_lastActivity (now E)
                         (default (fresh_session E userId) (sessions w !! userId))]>
             (sessions w))
          (files w) (tokenStore w) (outbox w) (trace w).

(** The first two of the Drive patterns. *)
Definition mainPatterns : list Pattern := [ mkPattern "/d/" "/"; mkPattern "id=" "&" ].

(** A string ends with another one. *)
Definition is_suffix (t s : string) : Prop := exists before, s = before +:+ t.

(** The error with which [uploadVideo] ends for a video record without a
    file path: no credential, no title, or no path to read from. *)
Definition upload_error_without_path (creds : option StoredTokens) (videoData : VideoInfo)
    : string :=
  match creds with
  | None => "User not authenticated. Please use /auth first."
  | Some _ =>
      match build_metadata videoData with
      | Exn message => message
      | Val _ =>
          "The " +:+ dq +:+ "path" +:+ dq +:+
          " argument must be of type string or an instance of Buffer or URL. Received undefined"
      end
  end.

(** As long as no session carries a path in its [videoInfo], none does
    afterwards and no upload request was made. *)
Definition stays_uploadless (w w' : World) : Prop :=
  videoInfo_pathless w -> videoInfo_pathless w' /\ no_insert_added w w'.

(** Only requests that fetch no video were added to the trace. *)
Definition no_acquisition_added (w w' : World) : Prop :=
  exists calls, trace w' = (trace w ++ calls)%list
                /\ Forall (fun a => is_acquisition a = false) calls.

(** The requests other than [videos.insert], and the session updates that
    put no path into [videoInfo]. *)
Definition not_insert (a : Action) : Prop :=
  match a with VideosInsert _ _ _ _ => False | _ => True end.

Definition keeps_pathless (f : Session -> Session) : Prop :=
  forall s, vi_filePath (videoInfo s) = None -> vi_filePath (videoInfo (f s)) = None.

(** The session updates that leave the admin flag alone. *)
Definition keeps_isAdmin (f : Session -> Session) : Prop :=
  forall s, isAdmin (f s) = isAdmin s.

(** The admin flags are right afterwards if they were right before. *)
Definition keeps_admin_consistent (cfg : Config) (w w' : World) : Prop :=
  admin_consistent cfg w -> admin_consistent cfg w'.

Definition demo_channel : Channel :=
  mkChannel "Demo channel" (Some "About this channel") (Some "12") (Some "3") None.

Definition demo_auth : AuthEnv :=
  mkAuthEnv (fun state => "https://accounts.google.com/o/oauth2/v2/auth?state=" +:+ state)
            (fun _ => Val [demo_channel]).

(** ** What the upload gateway is to send

    Stated on strings and lists as such, without the primitives of [JS]. *)

(** [short] is [s] cut after its first [n] characters. *)
Definition truncated_to (n : nat) (s short : string) : Prop :=
  String.length short = Nat.min n (String.length s)
  /\ exists rest, s = short +:+ rest.

Definition all_spaces (s : string) : Prop :=
  Forall (fun c => JS.is_space c = true) (JS.chars s).

(** [t] is [s] without the white space around it. *)
Definition trimmed_form (s t : string) : Prop :=
  (exists before after, s = before +:+ t +:+ after /\ all_spaces before /\ all_spaces after)
  /\ match JS.chars t with c :: _ => JS.is_space c = false | [] => True end
  /\ match rev (JS.chars t) with c :: _ => JS.is_space c = false | [] => True end.

(** [pieces] are the parts of [raw] between its commas. *)
Definition comma_separated (raw : string) (pieces : list string) : Prop :=
  pieces <> []
  /\ join "," pieces = raw
  /\ Forall (fun piece => ~ In ","%char (JS.chars piece)) pieces.

(** The tags to send for a raw tag string: the first 30 of the trimmed
    pieces that are not empty. *)
Definition tags_of (raw : string) (sent : list string) : Prop :=
  exists pieces trimmed,
    comma_separated raw pieces
    /\ Forall2 trimmed_form pieces trimmed
    /\ sent = firstn 30 (List.filter (fun tag => negb (String.eqb tag "")) trimmed).

(** [value || fallback] for an optional string field. *)
Definition or_else (value : option string) (fallback : string) : string :=
  match value with
  | Some v => if String.eqb v "" then fallback else v
  | None => fallback
  end.

(** A record that goes over every limit: a title of 118 characters, a
    description of 5005, and 32 tags among blank and empty pieces. *)
Definition long_title : string :=
  "Holiday 2025: the whole trip from the first morning at the harbour to the last evening in the mountains, uncut version".

Definition long_description : string := JS.str (repeat "d"%char (Z.to_nat 5005)).

Definition many_tags : string :=
  " t01,t02 , t03,,t04,t05,t06,t07,t08,t09,t10, ,t11,t12,t13,t14,t15,t16,t17,t18,t19,t20,t21,t22,t23,t24,t25,t26,t27,t28,t29,t30,t31,t32".

Definition long_video : VideoInfo :=
  mkVideoInfo (Some long_title) (Some long_description) (Some many_tags) None (Some "")
              (Some "video/mp4") (Some 1000) (Some "temp/url_1.mp4").

(** ** The shapes of a Drive link

    Stated on the text of the link, without the matcher. *)

(** An identifier that ends where [after] begins: it is not empty, holds no
    [stop], and [after] is empty or starts with [stop]. *)
Definition identifier_before (stop : ascii) (fileId after : string) : Prop :=
  fileId <> ""
  /\ ~ In stop (JS.chars fileId)
  /\ (after = "" \/ exists rest, after = String stop rest).

(** No [prefix] followed by a character other than [stop] begins in front
    of the one that follows [before]. *)
Definition leftmost_shape (prefix : string) (stop : ascii) (url before : string) : Prop :=
  forall earlier c rest,
    url = earlier +:+ prefix +:+ String c rest -> c <> stop ->
    (String.length before <= String.length earlier)%nat.

(** Nowhere in [url] is [prefix] followed by a character other than [stop]. *)
Definition shape_absent (prefix : string) (stop : ascii) (url : string) : Prop :=
  forall earlier c rest, url = earlier +:+ prefix +:+ String c rest -> c = stop.

(** The same collaborators read at another time. *)
Definition at_time (t : Z) (E : Env) : Env :=
  mkEnv (config E) t (path_join E) (path_basename E) (url_parses E) (show_MiB E)
        (channels_probe E) (videos_insert E) (oauth_getToken E) (oauth_userinfo E)
        (telegram_getFileLink E) (http_get E).

(** * Properties *)

Local Open Scope list_scope.

(** ** Strings *)

Example extname_examples :
  map Path.extname ["index.html"; "index.coffee.md"; "index."; "index"; ".index"; ".index.md";
                    "temp/movie.MP4"; "a.b/c"; ".."; "dir.d/"]
  = [".html"; ".md"; "."; ""; ""; ".md"; ".MP4"; ""; ""; ".d"].
Proof. reflexivity. Qed.

Example string_examples :
  JS.string_of_Z 1767222000000 = "1767222000000"
  /\ JS.toFixed2_MiB 52428801 = "50.00"
  /\ JS.toFixed2_MiB 1572864 = "1.50"
  /\ JS.split "," "a, b,,c " = ["a"; " b"; ""; "c "]
  /\ JS.split "," "" = [""]
  /\ JS.trim "  a b  " = "a b"
  /\ JS.toLowerCase "SkIp" = "skip".
Proof. repeat split; reflexivity. Qed.

Example regex_examples :
  map extractFileId ["https://drive.google.com/file/d/ABC123/view";
                     "https://drive.google.com/open?id=XYZ&x=1";
                     "https://drive.google.com/uc?id=Q";
                     "https://drive.google.com/drive/my-drive"]
  = [Some "ABC123"; Some "XYZ"; Some "Q"; None].
Proof. reflexivity. Qed.

Lemma chars_str l : JS.chars (JS.str l) = l.
Proof. apply list_ascii_of_string_of_list_ascii. Qed.

Lemma str_chars s : JS.str (JS.chars s) = s.
Proof. apply string_of_list_ascii_of_string. Qed.

Lemma length_str l : String.length (JS.str l) = List.length l.
Proof. induction l as [|c l IH]; simpl; [reflexivity | now rewrite IH]. Qed.

Lemma str_app l1 l2 : JS.str (l1 ++ l2) = JS.str l1 +:+ JS.str l2.
Proof. induction l1 as [|c l1 IH]; simpl; [reflexivity | now rewrite IH]. Qed.

Lemma truthy_true s : JS.truthy s = true <-> s <> "".
Proof. destruct s; simpl; split; intros; congruence. Qed.

Lemma substring0_length n s : (String.length (JS.substring0 n s) <= n)%nat.
Proof.
  unfold JS.substring0. rewrite length_str, length_take. lia.
Qed.

Lemma substring0_prefix n s : exists rest, s = JS.substring0 n s +:+ rest.
Proof.
  exists (JS.str (skipn n (JS.chars s))). unfold JS.substring0.
  rewrite <- str_app, firstn_skipn. symmetry. apply str_chars.
Qed.

Lemma substring0_short n s : (String.length s <= n)%nat -> JS.substring0 n s = s.
Proof.
  intros Hle. unfold JS.substring0.
  rewrite firstn_all2; [apply str_chars|].
  unfold JS.chars. rewrite <- (string_of_list_ascii_of_string s) in Hle.
  fold (JS.str (list_ascii_of_string s)) in Hle. now rewrite length_str in Hle.
Qed.

(** *** Trimming *)

Lemma trim_start_fix l :
  match l with c :: _ => JS.is_space c = false | [] => True end ->
  JS.trim_start l = l.
Proof. destruct l as [|c l]; simpl; [reflexivity|]. now intros ->. Qed.

Lemma trim_start_head l :
  match JS.trim_start l with c :: _ => JS.is_space c = false | [] => True end.
Proof.
  induction l as [|c l IH]; simpl; [exact I|].
  destruct (JS.is_space c) eqn:Hc; [exact IH | exact Hc].
Qed.

Lemma trim_start_suffix l : exists pre, l = pre ++ JS.trim_start l.
Proof.
  induction l as [|c l [pre IH]]; simpl.
  - now exists [].
  - destruct (JS.is_space c).
    + exists (c :: pre). simpl. now f_equal.
    + now exists [].
Qed.

Lemma trim_list_idempotent l : JS.trim_list (JS.trim_list l) = JS.trim_list l.
Proof.
  unfold JS.trim_list.
  set (a := JS.trim_start l). set (b := JS.trim_start (rev a)).
  assert (Hfront : JS.trim_start (rev b) = rev b).
  { apply trim_start_fix.
    destruct (trim_start_suffix (rev a)) as [pre Hpre]. fold b in Hpre.
    assert (Ha : a = rev b ++ rev pre).
    { rewrite <- rev_app_distr, <- Hpre. symmetry. apply rev_involutive. }
    pose proof (trim_start_head l) as Hhead. fold a in Hhead.
    destruct (rev b) as [|c r]; [exact I|].
    rewrite Ha in Hhead. exact Hhead. }
  rewrite Hfront, rev_involutive.
  f_equal. apply trim_start_fix. apply trim_start_head.
Qed.

Lemma trim_idempotent s : JS.trim (JS.trim s) = JS.trim s.
Proof. unfold JS.trim. now rewrite chars_str, trim_list_idempotent. Qed.

(** A trimmed string neither starts nor ends with white space. *)
Lemma trim_no_outer_space s :
  match JS.chars (JS.trim s) with c :: _ => JS.is_space c = false | [] => True end /\
  match rev (JS.chars (JS.trim s)) with c :: _ => JS.is_space c = false | [] => True end.
Proof.
  unfold JS.trim. rewrite chars_str. split.
  - pose proof (trim_list_idempotent (JS.chars s)) as Hid.
    unfold JS.trim_list at 1 in Hid.
    set (t := JS.trim_list (JS.chars s)) in *.
    pose proof (trim_start_head t) as Hh.
    destruct t as [|c t']; [exact I|].
    simpl in Hh. destruct (JS.is_space c) eqn:Hc; [|reflexivity].
    exfalso.
    assert (Hlen : (List.length (rev (JS.trim_start (rev (JS.trim_start (c :: t'))))) <= List.length t')%nat).
    { rewrite length_rev.
      destruct (trim_start_suffix (rev (JS.trim_start (c :: t')))) as [p1 Hp1].
      apply (f_equal (@List.length ascii)) in Hp1. rewrite length_app, length_rev in Hp1.
      simpl JS.trim_start in *. rewrite Hc in *.
      destruct (trim_start_suffix t') as [p2 Hp2].
      apply (f_equal (@List.length ascii)) in Hp2. rewrite length_app in Hp2. lia. }
    rewrite Hid in Hlen. simpl in Hlen. lia.
  - unfold JS.trim_list. rewrite rev_involutive. apply trim_start_head.
Qed.

(** *** Splitting *)

Lemma split_list_nonempty sep l : JS.split_list sep l <> [].
Proof.
  induction l as [|c l IH]; simpl; [discriminate|].
  destruct (Ascii.eqb c sep); [discriminate|].
  destruct (JS.split_list sep l); [contradiction | discriminate].
Qed.

(** The pieces of a split hold no separator. *)
Lemma split_list_no_sep sep l :
  Forall (fun piece => ~ In sep piece) (JS.split_list sep l).
Proof.
  induction l as [|c l IH]; simpl.
  - constructor; [intros [] | constructor].
  - destruct (Ascii.eqb_spec c sep) as [->|Hne].
    + constructor; [intros [] | exact IH].
    + pose proof (split_list_nonempty sep l) as Hn.
      destruct (JS.split_list sep l) as [|piece rest]; [contradiction|].
      inversion IH as [|? ? Hp Hr]; subst.
      constructor; [|exact Hr]. intros [Heq|Hin]; [now apply Hne | now apply Hp].
Qed.

(** Joining the pieces with the separator gives the string back. *)
Lemma split_list_join sep l : join_list sep (JS.split_list sep l) = l.
Proof.
  induction l as [|c l IH]; simpl; [reflexivity|].
  destruct (Ascii.eqb_spec c sep) as [->|Hne].
  - pose proof (split_list_nonempty sep l) as Hn.
    destruct (JS.split_list sep l) as [|p rest] eqn:Hs; [contradiction|].
    change (sep :: join_list sep (p :: rest) = sep :: l). now rewrite IH.
  - pose proof (split_list_nonempty sep l) as Hn.
    destruct (JS.split_list sep l) as [|p rest] eqn:Hs; [contradiction|].
    destruct rest as [|q rest]; simpl in IH |- *; now rewrite IH.
Qed.

(** ** Running computations *)

Ltac msimpl :=
  unfold final, outcome, assign, the_session, userSessions_get, pathExists, fs_remove,
    stat_size, getTokens, when, emit, reply, editMessageText, answerCbQuery,
    set_sessions, set_files, set_tokenStore, get_world, lift,
    try_catch, try_finally, bind, ret, throw in *;
  cbn [fst snd sessions files tokenStore outbox trace defined negb] in *.

(** Run a computation as far as the known look-ups allow. *)
Ltac mrun := repeat (progress (msimpl; rewrite ?lookup_insert_eq)).

(** ** Upload gateway *)

Lemma In_take {A} (x : A) n l : In x (firstn n l) -> In x l.
Proof.
  revert l. induction n as [|n IH]; intros [|y l]; simpl; try tauto.
  intros [Heq|Hin]; [now left | right; now apply IH].
Qed.

Lemma parse_tags_empty : parse_tags "" = [].
Proof. reflexivity. Qed.

Lemma parse_tags_length raw : (List.length (parse_tags raw) <= 30)%nat.
Proof. unfold parse_tags. rewrite length_take. lia. Qed.

Lemma parse_tags_clean raw :
  Forall (fun tag => tag <> "" /\ JS.trim tag = tag) (parse_tags raw).
Proof.
  unfold parse_tags. apply List.Forall_forall. intros tag Hin.
  apply In_take in Hin. rename Hin into Hin'.
  apply filter_In in Hin'. destruct Hin' as [Hmap Htruthy].
  split; [now apply truthy_true|].
  apply in_map_iff in Hmap. destruct Hmap as [piece [<- _]].
  apply trim_idempotent.
Qed.

(** Every tag is the trimmed form of a comma-free piece of the raw string. *)
Lemma parse_tags_pieces raw tag :
  In tag (parse_tags raw) ->
  exists piece, In piece (JS.split "," raw) /\ tag = JS.trim piece
                /\ ~ In ","%char (JS.chars piece).
Proof.
  unfold parse_tags. intros Hin.
  apply In_take in Hin. rename Hin into Hin'.
  apply filter_In in Hin'. destruct Hin' as [Hmap _].
  apply in_map_iff in Hmap. destruct Hmap as [piece [<- Hpiece]].
  exists piece. repeat split; [exact Hpiece|].
  unfold JS.split in Hpiece. apply in_map_iff in Hpiece.
  destruct Hpiece as [l [<- Hl]]. rewrite chars_str.
  pose proof (split_list_no_sep "," (JS.chars raw)) as Hall.
  rewrite List.Forall_forall in Hall. now apply Hall.
Qed.

Lemma uploadVideo_trace E userId creds videoData md p w :
  tokenStore w !! userId = Some creds ->
  build_metadata videoData = Val md ->
  vi_filePath videoData = Some p ->
  trace (final (uploadVideo E userId videoData) w)
  = trace w ++ [VideosInsert creds md p (JS.or_default (mimeType videoData) "video/mp4")].
Proof.
  intros Htok Hmd Hp. unfold uploadVideo, youtube_videos_insert, createReadStream.
  msimpl. rewrite Htok, Hmd, Hp. msimpl.
  destruct (videos_insert E creds md _ _); reflexivity.
Qed.

(** [uploadVideo] leaves sessions, scratch files and credentials alone,
    and always returns. *)
Lemma uploadVideo_frame E userId videoData w :
  sessions (final (uploadVideo E userId videoData) w) = sessions w
  /\ files (final (uploadVideo E userId videoData) w) = files w
  /\ tokenStore (final (uploadVideo E userId videoData) w) = tokenStore w
  /\ exists r, outcome (uploadVideo E userId videoData) w = Val r.
Proof.
  unfold uploadVideo, youtube_videos_insert, createReadStream. msimpl.
  destruct (tokenStore w !! userId) as [creds|]; msimpl; [|eauto 6].
  destruct (build_metadata videoData) as [md|e]; msimpl; [|eauto 6].
  destruct (vi_filePath videoData) as [p|]; msimpl; [|eauto 6].
  destruct (videos_insert E creds md _ _); msimpl; eauto 6.
Qed.

(** *** The primitives against their descriptions *)

Lemma length_chars s : List.length (JS.chars s) = String.length s.
Proof. induction s as [|c s IH]; simpl; [reflexivity | now rewrite IH]. Qed.

Lemma substring0_truncates n s : truncated_to n s (JS.substring0 n s).
Proof.
  split; [|apply substring0_prefix].
  unfold JS.substring0. now rewrite length_str, length_take, length_chars.
Qed.

Lemma trim_start_spaces l :
  exists pre, l = pre ++ JS.trim_start l /\ Forall (fun c => JS.is_space c = true) pre.
Proof.
  induction l as [|c l (pre & IH & Hpre)]; simpl.
  - exists []. split; [reflexivity | constructor].
  - destruct (JS.is_space c) eqn:Hc.
    + exists (c :: pre). split; [simpl; now f_equal | now constructor].
    + exists []. split; [reflexivity | constructor].
Qed.

Lemma trim_list_split l :
  exists pre post,
    l = pre ++ JS.trim_list l ++ post
    /\ Forall (fun c => JS.is_space c = true) pre
    /\ Forall (fun c => JS.is_space c = true) post.
Proof.
  unfold JS.trim_list.
  destruct (trim_start_spaces l) as (pre & Hl & Hpre).
  destruct (trim_start_spaces (rev (JS.trim_start l))) as (q & Hq & Hspaces).
  exists pre, (rev q). split; [|split; [exact Hpre | now apply Forall_rev]].
  rewrite <- rev_app_distr, <- Hq, rev_involutive. exact Hl.
Qed.

Lemma trim_is_trimmed_form s : trimmed_form s (JS.trim s).
Proof.
  split; [|apply trim_no_outer_space].
  destruct (trim_list_split (JS.chars s)) as (pre & post & Hs & Hpre & Hpost).
  exists (JS.str pre), (JS.str post). unfold all_spaces. rewrite !chars_str.
  split; [|split; assumption].
  unfold JS.trim. rewrite <- !str_app, <- Hs. symmetry. apply str_chars.
Qed.

Lemma join_str sep pieces :
  join (String sep "") (map JS.str pieces) = JS.str (join_list sep pieces).
Proof.
  induction pieces as [|p [|q rest] IH]; [reflexivity | reflexivity |].
  change (JS.str p +:+ String sep "" +:+ join (String sep "") (map JS.str (q :: rest))
          = JS.str (p ++ sep :: join_list sep (q :: rest))).
  now rewrite IH, str_app.
Qed.

Lemma split_is_comma_separated raw : comma_separated raw (JS.split "," raw).
Proof.
  unfold comma_separated, JS.split. split; [|split].
  - pose proof (split_list_nonempty "," (JS.chars raw)) as Hne.
    destruct (JS.split_list "," (JS.chars raw)); [contradiction | discriminate].
  - rewrite join_str, split_list_join. apply str_chars.
  - apply Forall_map. eapply Forall_impl; [apply split_list_no_sep|].
    intros piece Hp. cbn beta. now rewrite chars_str.
Qed.

Lemma parse_tags_are_tags_of raw : tags_of raw (parse_tags raw).
Proof.
  exists (JS.split "," raw), (map JS.trim (JS.split "," raw)).
  split; [apply split_is_comma_separated|]. split.
  - induction (JS.split "," raw) as [|p ps IH]; constructor;
      [apply trim_is_trimmed_form | exact IH].
  - unfold parse_tags. f_equal. apply filter_ext. now intros [|c tag].
Qed.

Lemma or_default_or_else value fallback : JS.or_default value fallback = or_else value fallback.
Proof. now destruct value as [[|c v]|]. Qed.

(** C3: for a video record with a title and a stored credential,
    [uploadVideo] sends metadata whose title is the title cut after 100
    characters and whose description is the description cut after 5000
    characters (empty when unset); the tags are the first 30 of the trimmed,
    non-empty pieces between the commas of the raw tag string (none when
    unset); privacy defaults to private and the category to 22.  That
    metadata is the body of the insert request. *)
Theorem uploadVideo_builds_metadata (E : Env) (userId : Z) (creds : StoredTokens)
    (videoData : VideoInfo) (t : string) (w : World) :
  tokenStore w !! userId = Some creds ->
  title videoData = Some t ->
  exists md,
    build_metadata videoData = Val md
    /\ truncated_to 100 t (sn_title (snippet md))
    /\ match description videoData with
       | Some d => truncated_to 5000 d (sn_description (snippet md))
       | None => sn_description (snippet md) = ""
       end
    /\ match tags videoData with
       | Some raw => tags_of raw (sn_tags (snippet md))
       | None => sn_tags (snippet md) = []
       end
    /\ (List.length (sn_tags (snippet md)) <= 30)%nat
    /\ Forall (fun tag => tag <> "" /\ trimmed_form tag tag) (sn_tags (snippet md))
    /\ st_privacyStatus (status md) = or_else (privacyStatus videoData) "private"
    /\ sn_categoryId (snippet md) = or_else (categoryId videoData) "22"
    /\ (forall p, vi_filePath videoData = Some p ->
        trace (final (uploadVideo E userId videoData) w)
        = trace w ++ [VideosInsert creds md p (or_else (mimeType videoData) "video/mp4")]).
Proof.
  intros Htok Htitle.
  destruct (build_metadata videoData) as [md|e] eqn:Hmd;
    [|unfold build_metadata in Hmd; rewrite Htitle in Hmd; discriminate].
  exists md. split; [reflexivity|].
  assert (Htrace : forall p, vi_filePath videoData = Some p ->
            trace (final (uploadVideo E userId videoData) w)
            = trace w ++ [VideosInsert creds md p (or_else (mimeType videoData) "video/mp4")]).
  { intros p Hp. rewrite <- or_default_or_else. now apply uploadVideo_trace. }
  unfold build_metadata in Hmd. rewrite Htitle in Hmd. injection Hmd as <-.
  revert Htrace.
  cbn [snippet status sn_title sn_description sn_tags sn_categoryId st_privacyStatus].
  assert (Htags : match tags videoData with
                  | Some raw => if JS.truthy raw then parse_tags raw else []
                  | None => []
                  end
                  = match tags videoData with
                    | Some raw => parse_tags raw | None => [] end).
  { destruct (tags videoData) as [[|c d]|]; reflexivity. }
  rewrite Htags, !or_default_or_else. intros Htrace.
  split; [apply substring0_truncates|].
  split.
  { destruct (description videoData) as [d|]; [|reflexivity].
    destruct d as [|c d]; [|apply substring0_truncates].
    split; [reflexivity | now exists ""]. }
  split; [destruct (tags videoData); [apply parse_tags_are_tags_of | reflexivity]|].
  split; [destruct (tags videoData); [apply parse_tags_length | simpl; lia]|].
  split.
  { destruct (tags videoData) as [raw|]; [|constructor].
    eapply Forall_impl; [apply parse_tags_clean|].
    intros tag [Hne Htrim]. cbn beta. split; [exact Hne|].
    rewrite <- Htrim at 2. apply trim_is_trimmed_form. }
  split; [reflexivity|]. split; [reflexivity | exact Htrace].
Qed.

Lemma uploadVideo_builds_metadata_witness :
  exists md,
    build_metadata long_video = Val md
    /\ truncated_to 100 long_title (sn_title (snippet md))
    /\ sn_title (snippet md)
       = "Holiday 2025: the whole trip from the first morning at the harbour to the last evening in the mounta"
    /\ String.length (sn_description (snippet md)) = 5000%nat
    /\ sn_tags (snippet md)
       = ["t01"; "t02"; "t03"; "t04"; "t05"; "t06"; "t07"; "t08"; "t09"; "t10";
          "t11"; "t12"; "t13"; "t14"; "t15"; "t16"; "t17"; "t18"; "t19"; "t20";
          "t21"; "t22"; "t23"; "t24"; "t25"; "t26"; "t27"; "t28"; "t29"; "t30"]
    /\ st_privacyStatus (status md) = "private"
    /\ sn_categoryId (snippet md) = "22".
Proof.
  destruct (uploadVideo_builds_metadata (demo_env (fun _ => GetRejected "unused")) 7
              demo_creds long_video long_title (demo_world awaiting_tags None None ∅))
    as (md & Hmd & Htitle & _ & _ & _ & _ & Hprivacy & Hcategory & _);
    [reflexivity | reflexivity |].
  exists md. split; [exact Hmd|]. split; [exact Htitle|].
  vm_compute in Hmd. injection Hmd as <-.
  repeat split; vm_compute; reflexivity.
Defined.

(** ** The upload step of the state machine *)

Lemma cleanup_run p w :
  cleanup p w
  = (Val tt,
     mkWorld (sessions w)
             (match p with
              | Some q => if JS.truthy q then delete q (files w) else files w
              | None => files w
              end)
             (tokenStore w) (outbox w) (trace w ++ [Cleanup p])).
Proof.
  unfold cleanup. mrun. destruct p as [q|]; [|reflexivity].
  destruct (JS.truthy q); [|reflexivity]. mrun.
  destruct (files w !! q) eqn:Hq; mrun; [reflexivity|].
  f_equal. f_equal. symmetry. now apply delete_id.
Qed.

(** The [finally] block resets the session and removes the recorded file. *)
Lemma handleTags_finally_run userId w a :
  sessions w !! userId = Some a ->
  handleTags_finally userId w
  = (Val tt,
     mkWorld (<[userId := mkSession idle emptyVideoInfo None (authStep a)
                            (lastActivity a) (isAdmin a)]> (sessions w))
             (match filePath a with
              | Some q => if JS.truthy q then delete q (files w) else files w
              | None => files w
              end)
             (tokenStore w) (outbox w)
             (if truthy_path (filePath a) then trace w ++ [Cleanup (filePath a)] else trace w)).
Proof.
  intros Ha. unfold handleTags_finally. mrun. rewrite Ha.
  unfold truthy_path. destruct (filePath a) as [q|] eqn:Hq.
  - destruct (JS.truthy q) eqn:Ht.
    + rewrite cleanup_run. mrun. rewrite Ha. mrun. rewrite Ht.
      rewrite !insert_insert_eq. reflexivity.
    + mrun. rewrite Ha. mrun. rewrite !insert_insert_eq. reflexivity.
  - mrun. rewrite Ha. mrun. rewrite !insert_insert_eq. reflexivity.
Qed.

(** The guarded block never lets an exception out, whatever the upload does. *)
Lemma handleTags_try_run upload userId w s :
  (forall vi, leaves_local_state (upload userId vi)) ->
  sessions w !! userId = Some s ->
  outcome (handleTags_try upload userId) w = Val tt
  /\ sessions (final (handleTags_try upload userId) w) = sessions w
  /\ files (final (handleTags_try upload userId) w) = files w.
Proof.
  intros Hup Hs. unfold handleTags_try.
  destruct (Hup (videoInfo s) w) as [Hss Hfs].
  mrun. rewrite Hs.
  destruct (upload userId (videoInfo s) w) as [[[]|e] w1];
    cbn [fst snd sessions files] in *; auto.
Qed.

Lemma uploadVideo_leaves_local_state E userId vi :
  leaves_local_state (uploadVideo E userId vi).
Proof. intros w. destruct (uploadVideo_frame E userId vi w) as (H1 & H2 & _). now split. Qed.

(** Whatever the upload call does, [handleTags] ends with the session
    reset and the recorded file cleaned up. *)
Lemma handleTags_with_resets (upload : Z -> VideoInfo -> M UploadResult)
    (text : string) (userId : Z) (w : World) (s : Session) :
  (forall vi, leaves_local_state (upload userId vi)) ->
  sessions w !! userId = Some s ->
  let w' := final (handleTags_with upload text userId) w in
  outcome (handleTags_with upload text userId) w = Val tt
  /\ sessions w' !! userId
     = Some (mkSession idle emptyVideoInfo None (authStep s) (lastActivity s) (isAdmin s))
  /\ (forall p, filePath s = Some p -> p <> "" ->
      files w' !! p = None /\ In (Cleanup (Some p)) (trace w'))
  /\ (forall q, filePath s <> Some q -> files w' !! q = files w !! q)
  /\ (forall u, u <> userId -> sessions w' !! u = sessions w !! u).
Proof.
  intros Hup Hs.
  assert (Hrun : exists s1 w1,
             handleTags_with upload text userId w
             = try_finally (handleTags_try upload userId) (handleTags_finally userId) w1
             /\ sessions w1 !! userId = Some s1
             /\ filePath s1 = filePath s /\ authStep s1 = authStep s
             /\ lastActivity s1 = lastActivity s /\ isAdmin s1 = isAdmin s
             /\ files w1 = files w
             /\ (forall u, u <> userId -> sessions w1 !! u = sessions w !! u)).
  { unfold handleTags_with.
    destruct (negb (String.eqb (JS.toLowerCase text) "skip")); mrun; rewrite Hs; mrun;
      rewrite ?Hs; mrun.
    - eexists _, _. split; [reflexivity|]. cbn [sessions files].
      rewrite lookup_insert_eq. repeat split.
      intros u Hu. now rewrite !lookup_insert_ne by congruence.
    - eexists _, _. split; [reflexivity|]. cbn [sessions files].
      rewrite lookup_insert_eq. repeat split.
      intros u Hu. now rewrite !lookup_insert_ne by congruence. }
  destruct Hrun as (s1 & w1 & Heq & Hs1 & Hfp & Hau & Hla & Had & Hfiles & Hother).
  cbv zeta. unfold final, outcome. rewrite Heq. unfold try_finally.
  destruct (handleTags_try_run upload userId w1 s1 Hup Hs1) as (Hout & Hss & Hfs).
  unfold final, outcome in Hout, Hss, Hfs.
  destruct (handleTags_try upload userId w1) as [r w2]. cbn [fst snd] in *. subst r.
  rewrite (handleTags_finally_run userId w2 s1) by (now rewrite Hss).
  cbn [fst snd sessions files trace]. rewrite Hfp, Hau, Hla, Had, Hss, Hfs, Hfiles.
  split; [reflexivity|]. split; [apply lookup_insert_eq|]. split; [|split].
  - intros p Hp Hne. rewrite Hp. unfold truthy_path.
    apply truthy_true in Hne. rewrite Hne. split; [apply lookup_delete_eq|].
    apply in_or_app. right. now left.
  - intros q Hq. destruct (filePath s) as [p|]; [|reflexivity].
    destruct (JS.truthy p); [|reflexivity].
    apply lookup_delete_ne. congruence.
  - intros u Hu. rewrite lookup_insert_ne by congruence. now apply Hother.
Qed.

(** A text message in [awaiting_tags] goes to [handleTags], unless an
    authorization code is awaited. *)
Lemma on_text_awaiting_tags E upload message_text userId w s :
  sessions w !! userId = Some s ->
  step s = awaiting_tags ->
  authStep s = None ->
  on_text_with E upload message_text userId w
  = handleTags_with upload (JS.trim message_text) userId w.
Proof.
  intros Hs Hstep Hauth. unfold on_text_with, is_awaiting_code. mrun.
  rewrite Hs, Hauth. cbn. now rewrite Hstep.
Qed.

(** The handler with the upload gateway of the program in place. *)
Lemma handleTags_resets E text userId w s :
  sessions w !! userId = Some s ->
  let w' := final (handleTags E text userId) w in
  outcome (handleTags E text userId) w = Val tt
  /\ sessions w' !! userId
     = Some (mkSession idle emptyVideoInfo None (authStep s) (lastActivity s) (isAdmin s))
  /\ (forall p, filePath s = Some p -> p <> "" -> files w' !! p = None).
Proof.
  intros Hs. cbv zeta. unfold handleTags.
  destruct (handleTags_with_resets (uploadVideo E) text userId w s) as (H1 & H2 & H3 & _);
    [intros vi; apply uploadVideo_leaves_local_state | exact Hs |].
  split; [exact H1|]. split; [exact H2|]. intros p Hp Hne. now apply H3.
Qed.

(** C1: a text message received in [awaiting_tags] starts the upload, and
    whether the upload call returns success, returns failure or throws, the
    attempt ends with the session idle, [videoInfo] and [filePath] cleared,
    and cleanup invoked on the recorded path, whose file is gone; no other
    file and no other session is touched. *)
Theorem upload_attempt_always_resets (E : Env) (upload : Z -> VideoInfo -> M UploadResult)
    (message_text : string) (userId : Z) (w : World) (s : Session) :
  (forall vi, leaves_local_state (upload userId vi)) ->
  sessions w !! userId = Some s ->
  step s = awaiting_tags ->
  authStep s = None ->
  let w' := final (on_text_with E upload message_text userId) w in
  outcome (on_text_with E upload message_text userId) w = Val tt
  /\ sessions w' !! userId
     = Some (mkSession idle emptyVideoInfo None None (lastActivity s) (isAdmin s))
  /\ (forall p, filePath s = Some p -> p <> "" ->
      files w' !! p = None /\ In (Cleanup (Some p)) (trace w'))
  /\ (forall q, filePath s <> Some q -> files w' !! q = files w !! q)
  /\ (forall u, u <> userId -> sessions w' !! u = sessions w !! u).
Proof.
  intros Hup Hs Hstep Hauth. cbv zeta. unfold final, outcome.
  rewrite (on_text_awaiting_tags E upload message_text userId w s Hs Hstep Hauth).
  pose proof (handleTags_with_resets upload (JS.trim message_text) userId w s Hup Hs) as H.
  cbv zeta in H. unfold final, outcome in H. now rewrite Hauth in H.
Qed.

Lemma upload_attempt_always_resets_witness :
  let E := demo_env (fun _ => GetRejected "unused") in
  let w := demo_world awaiting_tags (Some "temp/url_1.mp4") None
                      {[ "temp/url_1.mp4" := 1000 ]} in
  let w' := final (on_text_with E (fun _ _ => throw "socket hang up") "skip" 7) w in
  files w !! "temp/url_1.mp4" = Some 1000
  /\ sessions w' !! 7 = Some (mkSession idle emptyVideoInfo None None 1767221000000 true)
  /\ files w' !! "temp/url_1.mp4" = None.
Proof.
  intros E w w'. split; [reflexivity|].
  destruct (upload_attempt_always_resets E (fun _ _ => throw "socket hang up") "skip" 7 w
              (demo_session awaiting_tags (Some "temp/url_1.mp4") None))
    as (_ & Hs & Hfile & _).
  - intros vi w0. split; reflexivity.
  - reflexivity.
  - reflexivity.
  - reflexivity.
  - split; [exact Hs|].
    apply (Hfile "temp/url_1.mp4"); [reflexivity | discriminate].
Defined.

(** ** Gating of the upload command *)

Lemma checkAuth_run E userId w :
  checkAuth E userId w
  = match tokenStore w !! userId with
    | None => (Val false, w)
    | Some creds =>
        (Val (match channels_probe E creds with None => true | Some _ => false end),
         mkWorld (sessions w) (files w) (tokenStore w) (outbox w)
                 (trace w ++ [ChannelsList creds]))
    end.
Proof.
  unfold checkAuth. mrun. destruct (tokenStore w !! userId) as [creds|]; [|reflexivity].
  mrun. destruct (channels_probe E creds); reflexivity.
Qed.



(** ** Drive links *)

Lemma append_nil_l (s : string) : "" +:+ s = s.
Proof. reflexivity. Qed.

Lemma append_cons (c : ascii) (s1 s2 : string) : String c s1 +:+ s2 = String c (s1 +:+ s2).
Proof. reflexivity. Qed.

Lemma startsWith_split p s : JS.startsWith p s = true -> s = p +:+ drop_prefix p s.
Proof.
  revert s. induction p as [|a p IH]; intros [|b s]; simpl;
    rewrite ?append_nil_l, ?append_cons; try congruence.
  destruct (Ascii.eqb_spec a b) as [->|]; [|discriminate].
  intros H. f_equal. now apply IH.
Qed.

(** A run stops at the first [stop], or at the end of the string. *)
Lemma run_of_spec stop s :
  exists rest, s = run_of stop s +:+ rest
               /\ ~ In stop (JS.chars (run_of stop s))
               /\ (rest = "" \/ exists rest', rest = String stop rest').
Proof.
  induction s as [|c s (rest & Heq & Hnot & Hrest)]; simpl.
  - exists "". split; [reflexivity|]. split; [intros [] | now left].
  - destruct (Ascii.eqb_spec c stop) as [->|Hne].
    + exists (String stop s). split; [reflexivity|]. split; [intros [] | right; eauto].
    + exists rest. rewrite append_cons. split; [now f_equal|]. split; [|exact Hrest].
      intros [Heq'|Hin]; [now apply Hne | now apply Hnot].
Qed.

(** What a match of [/prefix([^stop]+)/] captures: a non-empty run without
    [stop] that follows an occurrence of the prefix and ends at a [stop] or
    at the end of the string. *)
Lemma regex_match_sound pat s group :
  regex_match pat s = Some group ->
  group <> ""
  /\ ~ In (pat_stop pat) (JS.chars group)
  /\ exists before after,
       s = before +:+ pat_prefix pat +:+ group +:+ after
       /\ (after = "" \/ exists rest, after = String (pat_stop pat) rest).
Proof.
  induction s as [|c s IH]; simpl.
  - unfold match_here. destruct (JS.startsWith (pat_prefix pat) "") eqn:Hsw; [|discriminate].
    destruct (JS.truthy _) eqn:Ht; [|discriminate].
    intros [= <-]. apply truthy_true in Ht.
    destruct (run_of_spec (pat_stop pat) (drop_prefix (pat_prefix pat) ""))
      as (rest & Heq & Hnot & Hrest).
    split; [exact Ht|]. split; [exact Hnot|].
    exists "", rest. split; [|exact Hrest].
    rewrite append_nil_l, <- Heq. now apply startsWith_split.
  - destruct (match_here pat (String c s)) as [g|] eqn:Hhere.
    + intros [= <-]. unfold match_here in Hhere.
      destruct (JS.startsWith (pat_prefix pat) (String c s)) eqn:Hsw; [|discriminate].
      destruct (JS.truthy _) eqn:Ht; [|discriminate].
      injection Hhere as <-. apply truthy_true in Ht.
      destruct (run_of_spec (pat_stop pat) (drop_prefix (pat_prefix pat) (String c s)))
        as (rest & Heq & Hnot & Hrest).
      split; [exact Ht|]. split; [exact Hnot|].
      exists "", rest. split; [|exact Hrest].
      rewrite append_nil_l, <- Heq. now apply startsWith_split.
    + intros Hm. destruct (IH Hm) as (Hne & Hnot & before & after & Heq & Hafter).
      split; [exact Hne|]. split; [exact Hnot|].
      exists (String c before), after. split; [|exact Hafter].
      rewrite append_cons. now f_equal.
Qed.

(** The loop returns the capture of the first pattern that matches. *)
Lemma first_match_spec patterns url :
  match first_match patterns url with
  | Some group =>
      exists earlier pattern later,
        patterns = earlier ++ pattern :: later
        /\ Forall (fun p => regex_match p url = None) earlier
        /\ regex_match pattern url = Some group
  | None => Forall (fun p => regex_match p url = None) patterns
  end.
Proof.
  induction patterns as [|pattern rest IH]; simpl; [constructor|].
  destruct (regex_match pattern url) as [group|] eqn:Hm.
  - destruct (JS.truthy group) eqn:Ht.
    + exists [], pattern, rest. split; [reflexivity|]. split; [constructor | exact Hm].
    + destruct (regex_match_sound _ _ _ Hm) as (Hne & _).
      apply truthy_true in Hne. congruence.
  - destruct (first_match rest url) as [group|].
    + destruct IH as (earlier & p & later & -> & Hall & Hp).
      exists (pattern :: earlier), p, later.
      split; [reflexivity|]. split; [now constructor | exact Hp].
    + now constructor.
Qed.

(** Direct-URL acquisition reports every failure in its result. *)
Lemma downloadDirectUrl_returns E url fileName w :
  exists r, outcome (downloadDirectUrl E url fileName) w = Val r.
Proof.
  unfold downloadDirectUrl, outcome, try_catch.
  match goal with |- context [let (_, _) := ?m w in _] => destruct (m w) as [[r|e] w1] end;
    cbn; eauto.
Qed.

Lemma append_assoc_str (a b c : string) : (a +:+ b) +:+ c = a +:+ b +:+ c.
Proof. induction a as [|x a IH]; rewrite ?append_nil_l, ?append_cons; [reflexivity | now rewrite IH]. Qed.

Lemma includes_after p before s : JS.includes p s = true -> JS.includes p (before +:+ s) = true.
Proof.
  intros H. induction before as [|c before IH]; rewrite ?append_nil_l, ?append_cons.
  - exact H.
  - simpl. rewrite IH. apply orb_true_r.
Qed.

(** *** The matcher on the text of a link *)

Lemma startsWith_app p s : JS.startsWith p (p +:+ s) = true.
Proof.
  induction p as [|a p IH]; rewrite ?append_nil_l, ?append_cons; [now destruct s|].
  simpl. now rewrite Ascii.eqb_refl.
Qed.

Lemma drop_prefix_app p s : drop_prefix p (p +:+ s) = s.
Proof.
  induction p as [|a p IH]; rewrite ?append_nil_l, ?append_cons; [now destruct s | exact IH].
Qed.

Lemma run_of_identifier stop fileId after :
  ~ In stop (JS.chars fileId) ->
  (after = "" \/ exists rest, after = String stop rest) ->
  run_of stop (fileId +:+ after) = fileId.
Proof.
  intros Hnot Hafter. induction fileId as [|c fileId IH];
    rewrite ?append_nil_l, ?append_cons.
  - destruct Hafter as [->|[rest ->]]; [reflexivity|]. simpl. now rewrite Ascii.eqb_refl.
  - simpl. destruct (Ascii.eqb_spec c stop) as [->|Hne].
    + exfalso. apply Hnot. now left.
    + f_equal. apply IH. intros Hin. apply Hnot. now right.
Qed.

Lemma match_here_identifier pat fileId after :
  identifier_before (pat_stop pat) fileId after ->
  match_here pat (pat_prefix pat +:+ fileId +:+ after) = Some fileId.
Proof.
  intros (Hne & Hnot & Hafter). unfold match_here.
  rewrite startsWith_app, drop_prefix_app, run_of_identifier by assumption.
  apply truthy_true in Hne. now rewrite Hne.
Qed.

(** Where the prefix is followed by the stop character or by nothing, the
    pattern does not match. *)
Lemma match_here_none pat s :
  (forall c rest, s = pat_prefix pat +:+ String c rest -> c = pat_stop pat) ->
  match_here pat s = None.
Proof.
  intros Hstop. unfold match_here.
  destruct (JS.startsWith (pat_prefix pat) s) eqn:Hsw; [|reflexivity].
  apply startsWith_split in Hsw.
  destruct (drop_prefix (pat_prefix pat) s) as [|c rest] eqn:Hdrop; [reflexivity|].
  rewrite (Hstop c rest Hsw). simpl. now rewrite Ascii.eqb_refl.
Qed.

Lemma regex_match_leftmost pat before fileId after :
  identifier_before (pat_stop pat) fileId after ->
  leftmost_shape (pat_prefix pat) (pat_stop pat)
                 (before +:+ pat_prefix pat +:+ fileId +:+ after) before ->
  regex_match pat (before +:+ pat_prefix pat +:+ fileId +:+ after) = Some fileId.
Proof.
  intros Hid. induction before as [|a before IH]; intros Hleft;
    rewrite ?append_nil_l, ?append_cons in *.
  - destruct (pat_prefix pat +:+ fileId +:+ after) eqn:Hs; simpl;
      rewrite <- Hs, match_here_identifier by exact Hid; reflexivity.
  - simpl. rewrite match_here_none.
    + apply IH. intros earlier c rest Heq Hc.
      specialize (Hleft (String a earlier) c rest). rewrite append_cons in Hleft.
      rewrite Heq in Hleft. specialize (Hleft eq_refl Hc). simpl in Hleft. lia.
    + intros c rest Heq. destruct (Ascii.eqb_spec c (pat_stop pat)) as [|Hc]; [assumption|].
      specialize (Hleft "" c rest). rewrite append_nil_l in Hleft.
      specialize (Hleft Heq Hc). simpl in Hleft. lia.
Qed.

Lemma regex_match_absent pat s :
  shape_absent (pat_prefix pat) (pat_stop pat) s -> regex_match pat s = None.
Proof.
  induction s as [|a s IH]; intros Habs; simpl.
  - rewrite match_here_none; [reflexivity|].
    intros c rest Heq. apply (Habs "" c rest). now rewrite append_nil_l.
  - rewrite match_here_none.
    + apply IH. intros earlier c rest Heq. apply (Habs (String a earlier) c rest).
      rewrite append_cons. now f_equal.
    + intros c rest Heq. apply (Habs "" c rest). now rewrite append_nil_l.
Qed.

Lemma shape_absent_longer prefix pre stop url :
  shape_absent prefix stop url -> shape_absent (pre +:+ prefix) stop url.
Proof.
  intros Habs earlier c rest Heq. apply (Habs (earlier +:+ pre) c rest).
  now rewrite Heq, !append_assoc_str.
Qed.

Lemma extractFileId_first url fileId :
  regex_match (mkPattern "/d/" "/") url = Some fileId -> fileId <> "" ->
  extractFileId url = Some fileId.
Proof.
  intros Hm Hne. unfold extractFileId, urlPatterns. cbn [first_match]. rewrite Hm.
  apply truthy_true in Hne. now rewrite Hne.
Qed.

Lemma extractFileId_second url fileId :
  regex_match (mkPattern "/d/" "/") url = None ->
  regex_match (mkPattern "id=" "&") url = Some fileId -> fileId <> "" ->
  extractFileId url = Some fileId.
Proof.
  intros Hnone Hm Hne. unfold extractFileId, urlPatterns. cbn [first_match].
  rewrite Hnone, Hm. apply truthy_true in Hne. now rewrite Hne.
Qed.

Lemma extractFileId_absent url :
  shape_absent "/d/" "/" url -> shape_absent "id=" "&" url -> extractFileId url = None.
Proof.
  intros Hd Hid. unfold extractFileId, urlPatterns. cbn [first_match].
  rewrite (regex_match_absent (mkPattern "/d/" "/") url Hd).
  rewrite (regex_match_absent (mkPattern "id=" "&") url Hid).
  rewrite (regex_match_absent (mkPattern "/file/d/" "/") url
             (shape_absent_longer "/d/" "/file" "/" url Hd)).
  now rewrite (regex_match_absent (mkPattern "drive.google.com/open?id=" "&") url
                 (shape_absent_longer "id=" "drive.google.com/open?" "&" url Hid)).
Qed.

(** C5: Drive-link acquisition takes the identifier captured by the first of
    the four patterns that matches and hands the rewritten download URL to
    direct-URL acquisition; when no pattern matches it returns the format
    error at once, with no call made and no state changed.  On the text of
    the link: the identifier is what follows the leftmost [/d/] up to the
    next slash, also in a [/file/d/] link; in a link without such a segment
    it is what follows the leftmost [id=] up to the next ampersand, also in
    an [open?id=] link; a link with neither is refused.  The link
    [https://drive.google.com/file/d/ABC123/view] yields [ABC123]. *)
Theorem downloadGoogleDrive_extracts_and_delegates (E : Env) (url : string)
    (fileName : option string) (w : World) :
  match extractFileId url with
  | Some fileId =>
      downloadGoogleDrive E url fileName w
      = downloadDirectUrl E ("https://drive.google.com/uc?export=download&id=" +:+ fileId)
          (Some (JS.or_default fileName ("gdrive_" +:+ JS.string_of_Z (now E) +:+ ".mp4"))) w
      /\ fileId <> ""
      /\ exists earlier pattern later before after,
           urlPatterns = earlier ++ pattern :: later
           /\ Forall (fun p => regex_match p url = None) earlier
           /\ url = before +:+ pat_prefix pattern +:+ fileId +:+ after
           /\ ~ In (pat_stop pattern) (JS.chars fileId)
           /\ (after = "" \/ exists rest, after = String (pat_stop pattern) rest)
  | None =>
      downloadGoogleDrive E url fileName w
      = (Val (DownloadFailure "Invalid Google Drive URL format"), w)
      /\ Forall (fun p => regex_match p url = None) urlPatterns
  end
  /\ extractFileId "https://drive.google.com/file/d/ABC123/view" = Some "ABC123"
  /\ (forall before fileId after,
        url = before +:+ "/d/" +:+ fileId +:+ after ->
        identifier_before "/" fileId after ->
        leftmost_shape "/d/" "/" url before ->
        extractFileId url = Some fileId)
  /\ (forall before fileId after,
        url = before +:+ "id=" +:+ fileId +:+ after ->
        identifier_before "&" fileId after ->
        shape_absent "/d/" "/" url ->
        leftmost_shape "id=" "&" url before ->
        extractFileId url = Some fileId)
  /\ (forall before fileId after,
        url = before +:+ "/file/d/" +:+ fileId +:+ after ->
        identifier_before "/" fileId after ->
        leftmost_shape "/d/" "/" url (before +:+ "/file") ->
        extractFileId url = Some fileId)
  /\ (forall before fileId after,
        url = before +:+ "drive.google.com/open?id=" +:+ fileId +:+ after ->
        identifier_before "&" fileId after ->
        shape_absent "/d/" "/" url ->
        leftmost_shape "id=" "&" url (before +:+ "drive.google.com/open?") ->
        extractFileId url = Some fileId)
  /\ (shape_absent "/d/" "/" url -> shape_absent "id=" "&" url ->
      extractFileId url = None)
  /\ map extractFileId ["https://docs.google.com/document/d/1AbC_9/edit?usp=sharing";
                        "https://drive.google.com/uc?id=Q7&export=download";
                        "https://drive.google.com/open?id=XYZ";
                        "https://drive.google.com/file/d/ABC123/view?id=other";
                        "https://drive.google.com/drive/my-drive"]
     = [Some "1AbC_9"; Some "Q7"; Some "XYZ"; Some "ABC123"; None].
Proof.
  split; [|split; [reflexivity|]].
  { pose proof (first_match_spec urlPatterns url) as Hspec.
    unfold downloadGoogleDrive. fold (extractFileId url) in Hspec.
    destruct (extractFileId url) as [fileId|].
    - destruct Hspec as (earlier & pattern & later & Hpats & Hnone & Hm).
      destruct (regex_match_sound _ _ _ Hm) as (Hne & Hnot & before & after & Hurl & Hafter).
      split; [|split; [exact Hne|]].
      + unfold try_catch, driveDownloadUrl.
        destruct (downloadDirectUrl_returns E
                    ("https://drive.google.com/uc?export=download&id=" +:+ fileId)
                    (Some (JS.or_default fileName
                             ("gdrive_" +:+ JS.string_of_Z (now E) +:+ ".mp4"))) w)
          as [r Hr].
        unfold outcome in Hr.
        destruct (downloadDirectUrl E _ _ w) as [r' w1]. cbn in Hr. now subst r'.
      + exists earlier, pattern, later, before, after. auto.
    - split; [reflexivity | exact Hspec]. }
  split; [|split; [|split; [|split; [|split; [|reflexivity]]]]].
  - intros before fileId after -> Hid Hleft.
    apply extractFileId_first; [|apply Hid].
    exact (regex_match_leftmost (mkPattern "/d/" "/") before fileId after Hid Hleft).
  - intros before fileId after -> Hid Habs Hleft.
    apply extractFileId_second; [| |apply Hid].
    + exact (regex_match_absent (mkPattern "/d/" "/") _ Habs).
    + exact (regex_match_leftmost (mkPattern "id=" "&") before fileId after Hid Hleft).
  - intros before fileId after -> Hid Hleft.
    apply extractFileId_first; [|apply Hid].
    pose proof (regex_match_leftmost (mkPattern "/d/" "/") (before +:+ "/file") fileId after Hid)
      as Hm.
    cbn [pat_prefix pat_stop] in Hm.
    replace ((before +:+ "/file") +:+ "/d/" +:+ fileId +:+ after)
      with (before +:+ "/file/d/" +:+ fileId +:+ after) in Hm
      by (now rewrite append_assoc_str).
    now apply Hm.
  - intros before fileId after -> Hid Habs Hleft.
    apply extractFileId_second; [| |apply Hid].
    + exact (regex_match_absent (mkPattern "/d/" "/") _ Habs).
    + pose proof (regex_match_leftmost (mkPattern "id=" "&")
                    (before +:+ "drive.google.com/open?") fileId after Hid) as Hm.
      cbn [pat_prefix pat_stop] in Hm.
      replace ((before +:+ "drive.google.com/open?") +:+ "id=" +:+ fileId +:+ after)
        with (before +:+ "drive.google.com/open?id=" +:+ fileId +:+ after) in Hm
        by (now rewrite append_assoc_str).
      now apply Hm.
  - apply extractFileId_absent.
Qed.

(** Two tests that decide the conditions on a given link. *)

Lemma includes_occurrence prefix earlier rest :
  JS.includes prefix (earlier +:+ prefix +:+ rest) = true.
Proof.
  apply includes_after. destruct (prefix +:+ rest) eqn:Hs; simpl;
    rewrite <- Hs, startsWith_app; reflexivity.
Qed.

Lemma shape_absent_of_includes prefix stop url :
  JS.includes prefix url = false -> shape_absent prefix stop url.
Proof.
  intros Hnone earlier c rest Heq. rewrite Heq, includes_occurrence in Hnone. discriminate.
Qed.

Lemma chars_app a b : JS.chars (a +:+ b) = JS.chars a ++ JS.chars b.
Proof.
  induction a as [|c a IH]; rewrite ?append_nil_l, ?append_cons; [reflexivity|].
  simpl. f_equal. exact IH.
Qed.

Lemma substring0_app n a b :
  (String.length a <= n)%nat ->
  JS.substring0 n (a +:+ b) = a +:+ JS.substring0 (n - String.length a) b.
Proof.
  intros Hle. unfold JS.substring0.
  rewrite chars_app, List.firstn_app, length_chars, str_app.
  rewrite List.firstn_all2 by (rewrite length_chars; exact Hle).
  now rewrite str_chars.
Qed.

Lemma leftmost_shape_of_includes prefix stop url before :
  JS.includes prefix
    (JS.substring0 (String.length before + String.length prefix - 1) url) = false ->
  leftmost_shape prefix stop url before.
Proof.
  intros Hnone earlier c rest Heq Hc.
  destruct (le_lt_dec (String.length before) (String.length earlier)) as [Hle|Hlt];
    [exact Hle | exfalso].
  rewrite Heq in Hnone.
  rewrite substring0_app in Hnone by lia.
  rewrite substring0_app in Hnone by lia.
  rewrite includes_occurrence in Hnone. discriminate.
Qed.

Lemma downloadGoogleDrive_extracts_and_delegates_witness :
  extractFileId "https://drive.google.com/file/d/ABC123/view" = Some "ABC123"
  /\ extractFileId "https://drive.google.com/open?id=XYZ&usp=drive" = Some "XYZ".
Proof.
  split.
  - destruct (downloadGoogleDrive_extracts_and_delegates
                (demo_env (fun _ => GetRejected "unused"))
                "https://drive.google.com/file/d/ABC123/view" None
                (demo_world awaiting_video None None ∅))
      as (_ & _ & _ & _ & H & _).
    apply (H "https://drive.google.com" "ABC123" "/view"); [reflexivity | |].
    + split; [discriminate|]. split; [|right; now exists "view"].
      vm_compute. intuition discriminate.
    + apply leftmost_shape_of_includes. reflexivity.
  - destruct (downloadGoogleDrive_extracts_and_delegates
                (demo_env (fun _ => GetRejected "unused"))
                "https://drive.google.com/open?id=XYZ&usp=drive" None
                (demo_world awaiting_video None None ∅))
      as (_ & _ & _ & _ & _ & H & _).
    apply (H "https://" "XYZ" "&usp=drive"); [reflexivity | | |].
    + split; [discriminate|]. split; [|right; now exists "usp=drive"].
      vm_compute. intuition discriminate.
    + apply shape_absent_of_includes. reflexivity.
    + apply leftmost_shape_of_includes. reflexivity.
Defined.

(** ** Acquisition: what a transfer leaves behind *)

(** The configured maximum is never zero. *)
Lemma maxSize_nonzero cfg : maxSize cfg <> 0.
Proof.
  unfold maxSize. destruct (env_MAX_FILE_SIZE cfg) as [n|]; [|discriminate].
  destruct (Z.eqb_spec n 0); [discriminate | assumption].
Qed.

Lemma maxSize_default cfg : env_MAX_FILE_SIZE cfg = None -> maxSize cfg = 52428800.
Proof. unfold maxSize. now intros ->. Qed.

Lemma downloadTelegramFile_run E fileUrl fileName w :
  let p := path_join E tempDir fileName in
  downloadTelegramFile E fileUrl fileName w
  = match http_get E fileUrl with
    | GetRejected message =>
        (Val (DownloadFailure ("Download failed: " +:+ message)),
         mkWorld (sessions w) (files w) (tokenStore w) (outbox w) (trace w ++ [HttpGet fileUrl]))
    | GetResponse content_type n (Some message) =>
        (Val (DownloadFailure ("Download failed: " +:+ message)),
         after_transfer w p n [HttpGet fileUrl])
    | GetResponse content_type n None =>
        if n =? 0 then
          (Val (DownloadFailure ("Download failed: " +:+ "Downloaded file is empty")),
           after_removal w p n [HttpGet fileUrl])
        else if n >? maxSize (config E) then
          (Val (DownloadFailure
                  ("Download failed: " +:+ "File too large: " +:+ JS.toFixed2_MiB n +:+
                   "MB (max: " +:+ show_MiB E (maxSize (config E)) +:+ "MB)")),
           after_removal w p n [HttpGet fileUrl])
        else
          (Val (DownloadSuccess p (path_basename E p) n (JS.or_default content_type "video/mp4")),
           after_transfer w p n [HttpGet fileUrl])
    end.
Proof.
  cbv zeta. unfold downloadTelegramFile, axios_get, pipeline, after_transfer, after_removal.
  mrun. destruct (http_get E fileUrl) as [message|content_type n [message|]]; mrun;
    try reflexivity.
  destruct (n =? 0); mrun; [reflexivity|].
  destruct (n >? maxSize (config E)); mrun; reflexivity.
Qed.

Lemma downloadDirectUrl_run E url fileName w :
  JS.startsWith "http" url = true ->
  let p := path_join E tempDir
             (JS.or_default fileName ("direct_" +:+ JS.string_of_Z (now E) +:+ ".mp4")) in
  downloadDirectUrl E url fileName w
  = match http_get E url with
    | GetRejected message =>
        (Val (DownloadFailure ("URL download failed: " +:+ message)),
         mkWorld (sessions w) (files w) (tokenStore w) (outbox w)
                 (trace w ++ [HttpHead url; HttpGet url]))
    | GetResponse content_type n (Some message) =>
        (Val (DownloadFailure ("URL download failed: " +:+ message)),
         after_transfer w p n [HttpHead url; HttpGet url])
    | GetResponse content_type n None =>
        if n >? maxSize (config E) then
          (Val (DownloadFailure
                  ("URL download failed: " +:+ "File too large: " +:+ JS.toFixed2_MiB n +:+ "MB")),
           after_removal w p n [HttpHead url; HttpGet url])
        else
          (Val (DownloadSuccess p (path_basename E p) n (JS.or_default content_type "video/mp4")),
           after_transfer w p n [HttpHead url; HttpGet url])
    end.
Proof.
  intros Hhttp. cbv zeta.
  unfold downloadDirectUrl, axios_get, pipeline, after_transfer, after_removal.
  rewrite Hhttp. mrun. rewrite <- !app_assoc. cbn [app].
  destruct (http_get E url) as [message|content_type n [message|]]; mrun;
    try reflexivity.
  destruct (n >? maxSize (config E)); mrun; reflexivity.
Qed.

(** C6: a completed download whose size is exactly the configured maximum
    succeeds, through chat-media and through direct-URL acquisition; one of
    a larger size fails with a [File too large] error and its file is
    removed from scratch storage. *)
Theorem download_size_boundary (E : Env) (url tgName : string) (urlName : option string)
    (content_type : option string) (n : Z) (w : World) :
  http_get E url = GetResponse content_type n None ->
  0 < maxSize (config E) ->
  let tg := downloadTelegramFile E url tgName in
  let direct := downloadDirectUrl E url urlName in
  let p := path_join E tempDir tgName in
  let q := path_join E tempDir
             (JS.or_default urlName ("direct_" +:+ JS.string_of_Z (now E) +:+ ".mp4")) in
  (n = maxSize (config E) ->
     (exists name mime, outcome tg w = Val (DownloadSuccess p name n mime))
     /\ files (final tg w) !! p = Some n
     /\ (JS.startsWith "http" url = true ->
         (exists name mime, outcome direct w = Val (DownloadSuccess q name n mime))
         /\ files (final direct w) !! q = Some n))
  /\ (maxSize (config E) < n ->
      (exists error, outcome tg w = Val (DownloadFailure error)
                     /\ JS.includes "File too large" error = true)
      /\ files (final tg w) !! p = None
      /\ (JS.startsWith "http" url = true ->
          (exists error, outcome direct w = Val (DownloadFailure error)
                         /\ JS.includes "File too large" error = true)
          /\ files (final direct w) !! q = None)).
Proof.
  intros Hget Hmax. cbv zeta. unfold final, outcome.
  rewrite downloadTelegramFile_run. cbv zeta. rewrite Hget.
  split.
  - intros ->.
    destruct (Z.eqb_spec (maxSize (config E)) 0) as [H0|_]; [lia|].
    assert (Hgt : (maxSize (config E) >? maxSize (config E)) = false) by lia.
    rewrite Hgt. cbn [fst snd after_transfer files].
    split; [eauto|]. split; [apply lookup_insert_eq|].
    intros Hhttp. rewrite (downloadDirectUrl_run E url urlName w Hhttp). cbv zeta.
    rewrite Hget, Hgt. cbn [fst snd after_transfer files].
    split; [eauto | apply lookup_insert_eq].
  - intros Hover.
    destruct (Z.eqb_spec n 0) as [H0|_]; [lia|].
    assert (Hgt : (n >? maxSize (config E)) = true) by lia.
    rewrite Hgt. cbn [fst snd after_removal files].
    split; [|split; [apply lookup_delete_eq|]].
    + eexists. split; [reflexivity|]. apply includes_after. reflexivity.
    + intros Hhttp. rewrite (downloadDirectUrl_run E url urlName w Hhttp). cbv zeta.
      rewrite Hget, Hgt. cbn [fst snd after_removal files].
      split; [|apply lookup_delete_eq].
      eexists. split; [reflexivity|]. apply includes_after. reflexivity.
Qed.

Lemma download_size_boundary_witness :
  let E := demo_env (fun _ => GetResponse (Some "video/mp4") 52428800 None) in
  let w := demo_world downloading None None ∅ in
  maxSize (config E) = 52428800
  /\ files (final (downloadTelegramFile E "https://example.com/v.mp4" "v.mp4") w)
      !! "temp/v.mp4" = Some 52428800
  /\ files (final (downloadDirectUrl E "https://example.com/v.mp4" (Some "v.mp4")) w)
      !! "temp/v.mp4" = Some 52428800.
Proof.
  intros E w. split; [reflexivity|].
  destruct (download_size_boundary E "https://example.com/v.mp4" "v.mp4" (Some "v.mp4")
              (Some "video/mp4") 52428800 w) as [Hexact _]; [reflexivity | reflexivity |].
  destruct (Hexact eq_refl) as (_ & Htg & Hdirect).
  split; [exact Htg|]. now destruct (Hdirect eq_refl).
Defined.

(** C10: a direct-URL download whose body is empty is a success of size 0,
    and its empty file stays in scratch storage; only chat-media acquisition
    turns an empty file into an error, and removes it. *)
Theorem direct_url_accepts_empty_body (E : Env) (url tgName : string)
    (urlName content_type : option string) (w : World) :
  JS.startsWith "http" url = true ->
  http_get E url = GetResponse content_type 0 None ->
  0 < maxSize (config E) ->
  let direct := downloadDirectUrl E url urlName in
  let tg := downloadTelegramFile E url tgName in
  let q := path_join E tempDir
             (JS.or_default urlName ("direct_" +:+ JS.string_of_Z (now E) +:+ ".mp4")) in
  (exists name mime, outcome direct w = Val (DownloadSuccess q name 0 mime))
  /\ files (final direct w) !! q = Some 0
  /\ outcome tg w = Val (DownloadFailure "Download failed: Downloaded file is empty")
  /\ files (final tg w) !! path_join E tempDir tgName = None.
Proof.
  intros Hhttp Hget Hmax. cbv zeta. unfold final, outcome.
  rewrite (downloadDirectUrl_run E url urlName w Hhttp), downloadTelegramFile_run.
  cbv zeta. rewrite Hget.
  assert (Hgt : (0 >? maxSize (config E)) = false) by lia.
  rewrite Hgt. cbn [Z.eqb fst snd after_transfer after_removal files].
  split; [eauto|]. split; [apply lookup_insert_eq|].
  split; [reflexivity | apply lookup_delete_eq].
Qed.

Lemma direct_url_accepts_empty_body_witness :
  let E := demo_env (fun _ => GetResponse None 0 None) in
  let w := demo_world downloading None None ∅ in
  outcome (downloadDirectUrl E "https://example.com/empty" (Some "url_1.mp4")) w
  = Val (DownloadSuccess "temp/url_1.mp4" "url_1.mp4" 0 "video/mp4")
  /\ outcome (downloadTelegramFile E "https://example.com/empty" "video_9.mp4") w
     = Val (DownloadFailure "Download failed: Downloaded file is empty").
Proof.
  intros E w.
  destruct (direct_url_accepts_empty_body E "https://example.com/empty" "video_9.mp4"
              (Some "url_1.mp4") None w) as (_ & _ & Htg & _);
    [reflexivity | reflexivity | reflexivity |].
  split; [reflexivity | exact Htg].
Defined.

(** ** The authentication sub-flow *)

Lemma handleAuthCallback_run E code userId w :
  handleAuthCallback E code userId w
  = match oauth_getToken E code with
    | Exn e =>
        (Val (AuthFailure e),
         mkWorld (sessions w) (files w) (tokenStore w) (outbox w)
                 (trace w ++ [OAuthGetToken code]))
    | Val tokens =>
        match oauth_userinfo E tokens with
        | Exn e =>
            (Val (AuthFailure e),
             mkWorld (sessions w) (files w) (tokenStore w) (outbox w)
                     (trace w ++ [OAuthGetToken code; OAuthUserinfo tokens]))
        | Val info =>
            (Val (AuthSuccess userId (ui_email info) (ui_name info) (ui_picture info)),
             mkWorld (sessions w) (files w)
                     (<[userId := mkStoredTokens tokens (now E) (JS.string_of_Z userId)]>
                        (tokenStore w))
                     (outbox w)
                     (trace w ++ [OAuthGetToken code; OAuthUserinfo tokens]))
        end
    end.
Proof.
  unfold handleAuthCallback, saveTokens. mrun.
  destruct (oauth_getToken E code) as [tokens|e]; mrun; [|reflexivity].
  rewrite <- !app_assoc. cbn [app].
  destruct (oauth_userinfo E tokens) as [info|e]; mrun; reflexivity.
Qed.

(** C9: while [authStep] is [awaiting_code], a text message is handled as an
    authorization code whatever the main step is, before any dispatch on the
    step: the trimmed text is exchanged, the token set is saved under the
    user when the exchange and the profile read succeed, and [authStep] is
    null afterwards in every case, the rest of the session being as it was. *)
Theorem auth_code_takes_precedence (E : Env) (upload : Z -> VideoInfo -> M UploadResult)
    (message_text : string) (userId : Z) (w : World) (s : Session) :
  sessions w !! userId = Some s ->
  authStep s = Some awaiting_code ->
  let code := JS.trim message_text in
  let w' := final (on_text_with E upload message_text userId) w in
  on_text_with E upload message_text userId w = handleAuthCode E code userId w
  /\ outcome (on_text_with E upload message_text userId) w = Val tt
  /\ sessions w' !! userId = Some (with_authStep None s)
  /\ files w' = files w
  /\ (exists rest, trace w' = trace w ++ OAuthGetToken code :: rest)
  /\ match oauth_getToken E code with
     | Val tokens =>
         match oauth_userinfo E tokens with
         | Val info =>
             tokenStore w' !! userId
             = Some (mkStoredTokens tokens (now E) (JS.string_of_Z userId))
             /\ outbox w'
                = outbox w ++ [Reply "🔐 Processing authorization code...";
                               Reply (authSuccessMsg (ui_name info) (ui_email info))]
         | Exn e =>
             tokenStore w' = tokenStore w
             /\ outbox w'
                = outbox w ++ [Reply "🔐 Processing authorization code...";
                               Reply ("❌ Authentication failed: " +:+ e +:+ nl +:+ nl +:+
                                      "Try /auth again.")]
         end
     | Exn e =>
         tokenStore w' = tokenStore w
         /\ outbox w'
            = outbox w ++ [Reply "🔐 Processing authorization code...";
                           Reply ("❌ Authentication failed: " +:+ e +:+ nl +:+ nl +:+
                                  "Try /auth again.")]
     end.
Proof.
  intros Hs Hauth. cbv zeta.
  assert (Hdispatch : on_text_with E upload message_text userId w
                      = handleAuthCode E (JS.trim message_text) userId w).
  { unfold on_text_with, is_awaiting_code. mrun. now rewrite Hs, Hauth. }
  split; [exact Hdispatch|]. unfold final, outcome. rewrite Hdispatch.
  unfold handleAuthCode. mrun. rewrite handleAuthCallback_run.
  destruct (oauth_getToken E (JS.trim message_text)) as [tokens|e];
    [destruct (oauth_userinfo E tokens) as [info|e]|];
    repeat (progress (mrun; rewrite ?Hs)); rewrite <- ?app_assoc; cbn [app].
  - split; [reflexivity|]. split; [reflexivity|]. split; [reflexivity|].
    split; [eauto|]. split; reflexivity.
  - split; [reflexivity|]. split; [reflexivity|]. split; [reflexivity|].
    split; [eauto|]. split; reflexivity.
  - split; [reflexivity|]. split; [reflexivity|]. split; [reflexivity|].
    split; [eauto|]. split; reflexivity.
Qed.

Lemma auth_code_takes_precedence_witness :
  let E := demo_env (fun _ => GetRejected "unused") in
  let w := mkWorld {[ 7 := demo_session awaiting_title (Some "temp/url_1.mp4")
                                        (Some awaiting_code) ]} ∅ ∅ [] [] in
  let w' := final (on_text E "  4/good " 7) w in
  tokenStore w !! 7 = None
  /\ sessions w' !! 7 = Some (demo_session awaiting_title (Some "temp/url_1.mp4") None)
  /\ tokenStore w' !! 7 = Some (mkStoredTokens demo_tokens 1767222000000 "7").
Proof.
  intros E w w'. split; [reflexivity|].
  destruct (auth_code_takes_precedence E (uploadVideo E) "  4/good " 7 w
              (demo_session awaiting_title (Some "temp/url_1.mp4") (Some awaiting_code)))
    as (_ & _ & Hsess & _ & _ & Hstore); [reflexivity | reflexivity |].
  split; [exact Hsess | exact (proj1 Hstore)].
Defined.

(** ** Extensions *)

Lemma ext_inv_step c n suffix st :
  c <> Path.slash ->
  ext_inv (S n) suffix st ->
  ext_inv n (c :: suffix) (Path.see_char c (Z.of_nat n) (Path.mark_end (Z.of_nat n) st)).
Proof.
  intros Hc [(Hend & Hdot & Hms) | (Hms & seg & tail & Hsuf & Hend & Hns & Hseg)].
  - (* first character of the last component *)
    right. unfold Path.mark_end, Path.see_char. rewrite Hend. cbn.
    rewrite Hdot. cbn.
    destruct (Ascii.eqb_spec c Path.dot) as [->|Hnd]; cbn.
    + split; [reflexivity|]. exists [Path.dot], suffix.
      split; [reflexivity|]. split; [cbn; lia|].
      split; [intros [H|[]]; discriminate|].
      right. exists [], []. split; [reflexivity|]. split; [cbn; lia | intros []].
    + split; [reflexivity|]. exists [c], suffix.
      split; [reflexivity|]. split; [cbn; lia|].
      split; [intros [H|[]]; congruence|].
      left. split; [reflexivity | intros [H|[]]; congruence].
  - right. unfold Path.mark_end.
    assert (Hne : (Path.end_ st =? -1) = false) by lia. rewrite Hne.
    destruct Hseg as [(Hdot & Hnd) | (pre & r & Hseg & Hdot & Hnd)].
    + unfold Path.see_char. rewrite Hdot. cbn.
      destruct (Ascii.eqb_spec c Path.dot) as [->|Hcd]; cbn.
      * split; [exact Hms|]. exists (Path.dot :: seg), tail.
        split; [now rewrite Hsuf|]. split; [cbn [List.length]; lia|].
        split; [intros [H|H]; [discriminate | now apply Hns]|].
        right. exists [], seg. split; [reflexivity|]. split; [cbn; lia | exact Hnd].
      * split; [exact Hms|]. exists (c :: seg), tail.
        split; [now rewrite Hsuf|]. split; [cbn [List.length]; lia|].
        split; [intros [H|H]; [congruence | now apply Hns]|].
        left. split; [exact Hdot | intros [H|H]; [congruence | now apply Hnd]].
    + assert (Hsd : (Path.startDot st =? -1) = false) by lia.
      assert (Hinv : forall st', Path.matchedSlash st' = Path.matchedSlash st ->
                                 Path.end_ st' = Path.end_ st ->
                                 Path.startDot st' = Path.startDot st ->
                 Path.matchedSlash st' = false
                 /\ exists seg' tail',
                     c :: suffix = seg' ++ tail'
                     /\ Path.end_ st' = Z.of_nat n + Z.of_nat (List.length seg')
                     /\ ~ In Path.slash seg'
                     /\ ((Path.startDot st' = -1 /\ ~ In Path.dot seg')
                         \/ exists pre' r',
                             seg' = pre' ++ Path.dot :: r'
                             /\ Path.startDot st' = Z.of_nat n + Z.of_nat (List.length pre')
                             /\ ~ In Path.dot r')).
      { intros st' H1 H2 H3. split; [congruence|]. exists (c :: seg), tail.
        split; [now rewrite Hsuf|]. split; [cbn [List.length]; lia|].
        split; [intros [H|H]; [congruence | now apply Hns]|].
        right. exists (c :: pre), r. split; [now rewrite Hseg|].
        split; [cbn [List.length]; lia | exact Hnd]. }
      unfold Path.see_char. rewrite Hsd. cbn [negb].
      destruct (Ascii.eqb c Path.dot); [destruct (negb (Path.preDotState st =? 1))|];
        apply Hinv; reflexivity.
Qed.

Lemma extname_loop_inv rpath :
  forall suffix st,
    ext_inv (List.length rpath) suffix st ->
    exists front suffix',
      rev rpath ++ suffix = front ++ suffix'
      /\ ext_inv (List.length front) suffix'
                 (Path.extname_loop rpath (Z.of_nat (List.length rpath) - 1) st).
Proof.
  induction rpath as [|c rest IH]; intros suffix st Hinv.
  - exists [], suffix. split; [reflexivity | exact Hinv].
  - cbn [Path.extname_loop].
    replace (Z.of_nat (List.length (c :: rest)) - 1) with (Z.of_nat (List.length rest))
      by (cbn [List.length]; lia).
    destruct (Ascii.eqb_spec c Path.slash) as [->|Hc].
    + destruct (Path.matchedSlash st) eqn:Hms; cbn [negb].
      * destruct (IH (Path.slash :: suffix) st) as (front & suffix' & Heq & Hinv').
        { destruct Hinv as [H | (Hfalse & _)]; [now left | congruence]. }
        exists front, suffix'. split; [|exact Hinv'].
        cbn [rev]. now rewrite <- app_assoc.
      * exists (rev (Path.slash :: rest)), suffix. split; [reflexivity|].
        rewrite length_rev. destruct Hinv as [(_ & _ & H) | (_ & Hrest)]; [congruence|].
        right. split; [reflexivity | exact Hrest].
    + destruct (IH (c :: suffix)
                  (Path.see_char c (Z.of_nat (List.length rest))
                     (Path.mark_end (Z.of_nat (List.length rest)) st)))
        as (front & suffix' & Heq & Hinv').
      { now apply ext_inv_step. }
      exists front, suffix'. split; [|exact Hinv'].
      cbn [rev]. now rewrite <- app_assoc.
Qed.

(** What [path.extname] returns is empty, or a dot followed by characters
    other than dots and separators. *)
Lemma extname_is_extension path : is_extension (Path.extname path).
Proof.
  unfold Path.extname.
  set (l := JS.chars path).
  destruct (extname_loop_inv (rev l) [] Path.ext_init) as (front & suffix & Heq & Hinv).
  { left. repeat split. }
  rewrite length_rev in Hinv. rewrite rev_involutive, app_nil_r in Heq.
  set (st := Path.extname_loop (rev l) (Z.of_nat (List.length l) - 1) Path.ext_init) in *.
  destruct ((Path.startDot st =? -1) || (Path.end_ st =? -1) || (Path.preDotState st =? 0)
            || ((Path.preDotState st =? 1) && (Path.startDot st =? Path.end_ st - 1)
                && (Path.startDot st =? Path.startPart st + 1))) eqn:Hcheck;
    [now left|].
  right.
  apply orb_false_iff in Hcheck. destruct Hcheck as [Hcheck _].
  apply orb_false_iff in Hcheck. destruct Hcheck as [Hcheck _].
  apply orb_false_iff in Hcheck. destruct Hcheck as [Hsd Hend].
  destruct Hinv as [(H & _) | (_ & seg & tail & Hsuf & Hendv & Hns & Hseg)]; [lia|].
  destruct Hseg as [(H & _) | (pre & r & Hseg & Hdot & Hnd)]; [lia|].
  exists r. split; [|split; [exact Hnd|]].
  - f_equal. unfold Path.slice. subst seg suffix. rewrite Heq, Hdot, Hendv.
    rewrite length_app. cbn [List.length].
    replace (Z.to_nat (Z.of_nat (List.length front) + Z.of_nat (List.length pre)))
      with (List.length (front ++ pre)) by (rewrite length_app; lia).
    replace (front ++ (pre ++ Path.dot :: r) ++ tail)
      with ((front ++ pre) ++ (Path.dot :: r) ++ tail)
      by (now rewrite <- !app_assoc).
    rewrite drop_app_length.
    replace (Z.to_nat _) with (List.length (Path.dot :: r)) by (cbn [List.length]; lia).
    apply take_app_length.
  - intros Hin. apply Hns. rewrite Hseg. apply in_or_app. right. now right.
Qed.

Lemma lower_char_dot c : Ascii.eqb (JS.lower_char c) Path.dot = Ascii.eqb c Path.dot.
Proof. destruct c as [[] [] [] [] [] [] [] []]; reflexivity. Qed.

Lemma lower_char_slash c : Ascii.eqb (JS.lower_char c) Path.slash = Ascii.eqb c Path.slash.
Proof. destruct c as [[] [] [] [] [] [] [] []]; reflexivity. Qed.

Lemma lower_char_keeps c x :
  (x = Path.dot \/ x = Path.slash) -> ~ In x c -> ~ In x (map JS.lower_char c).
Proof.
  intros Hx Hnot Hin. apply in_map_iff in Hin. destruct Hin as (y & Hy & Hin).
  apply Hnot. replace x with y; [exact Hin|].
  destruct Hx as [-> | ->].
  - pose proof (lower_char_dot y) as H. rewrite Hy, Ascii.eqb_refl in H.
    symmetry in H. now apply Ascii.eqb_eq in H.
  - pose proof (lower_char_slash y) as H. rewrite Hy, Ascii.eqb_refl in H.
    symmetry in H. now apply Ascii.eqb_eq in H.
Qed.

(** Lower-casing an extension gives an extension. *)
Lemma toLowerCase_is_extension ext : is_extension ext -> is_extension (JS.toLowerCase ext).
Proof.
  intros [-> | (r & -> & Hnd & Hns)]; [now left|].
  right. exists (map JS.lower_char r). unfold JS.toLowerCase. rewrite chars_str.
  split; [reflexivity|]. split; apply lower_char_keeps; auto.
Qed.

(** Reading characters that are neither dots nor separators before any dot
    was seen leaves the dot markers as they are. *)
Lemma extname_loop_plain r :
  forall i st rest,
    ~ In Path.dot r -> ~ In Path.slash r ->
    Path.startDot st = -1 ->
    exists st',
      Path.extname_loop (r ++ rest) i st = Path.extname_loop rest (i - Z.of_nat (List.length r)) st'
      /\ Path.startDot st' = -1 /\ Path.preDotState st' = Path.preDotState st.
Proof.
  induction r as [|c r IH]; intros i st rest Hnd Hns Hsd.
  - exists st. cbn [app List.length]. replace (i - Z.of_nat 0) with i by lia. auto.
  - cbn [app Path.extname_loop].
    destruct (Ascii.eqb_spec c Path.slash) as [->|Hc]; [exfalso; apply Hns; now left|].
    assert (Hcd : Ascii.eqb c Path.dot = false).
    { apply Ascii.eqb_neq. intros ->. apply Hnd. now left. }
    set (st1 := Path.see_char c i (Path.mark_end i st)).
    assert (Hst1 : Path.startDot st1 = -1 /\ Path.preDotState st1 = Path.preDotState st).
    { unfold st1, Path.see_char, Path.mark_end. rewrite Hcd.
      destruct (Path.end_ st =? -1); cbn; rewrite Hsd; cbn; auto. }
    destruct (IH (i - 1) st1 rest) as (st' & Heq & Hsd' & Hpre).
    { intros H. apply Hnd. now right. }
    { intros H. apply Hns. now right. }
    { apply Hst1. }
    exists st'. split; [|split; [exact Hsd' | now rewrite Hpre; apply Hst1]].
    rewrite Heq. f_equal. cbn [List.length]. lia.
Qed.

(** An extension has no extension of its own: its only dot is the first
    character of the name. *)
Lemma extname_of_extension ext : is_extension ext -> Path.extname ext = "".
Proof.
  intros [-> | (r & -> & Hnd & Hns)]; [reflexivity|].
  unfold Path.extname. rewrite chars_str. cbn [rev].
  destruct (extname_loop_plain (rev r) (Z.of_nat (List.length (Path.dot :: r)) - 1)
              Path.ext_init [Path.dot]) as (st' & Heq & Hsd & Hpre).
  { intros H. apply Hnd. now apply in_rev. }
  { intros H. apply Hns. now apply in_rev. }
  { reflexivity. }
  rewrite Heq. cbn [Path.extname_loop].
  assert (Hds : Ascii.eqb Path.dot Path.slash = false) by reflexivity.
  assert (Hdd : Ascii.eqb Path.dot Path.dot = true) by reflexivity.
  rewrite Hds.
  set (i := Z.of_nat (List.length (Path.dot :: r)) - 1 - Z.of_nat (List.length (rev r))).
  assert (Hfinal : Path.preDotState (Path.see_char Path.dot i (Path.mark_end i st')) = 0).
  { unfold Path.see_char, Path.mark_end. rewrite Hdd.
    destruct (Path.end_ st' =? -1); cbn; rewrite Hsd; cbn; exact Hpre. }
  rewrite Hfinal. cbn [Z.eqb]. now rewrite !orb_true_r.
Qed.

(** No name passes [isValidExtension] once [getFileExtension] has been
    applied to it. *)
Lemma isValidExtension_of_extension filename :
  isValidExtension (getFileExtension filename) = false.
Proof.
  unfold isValidExtension, getFileExtension.
  rewrite extname_of_extension; [reflexivity|].
  apply toLowerCase_is_extension, extname_is_extension.
Qed.

(** The check itself accepts exactly the names whose lower-cased extension
    is in the allow-list. *)
Lemma isValidExtension_spec filename :
  isValidExtension filename = true
  <-> In (JS.toLowerCase (Path.extname filename)) allowedExtensions.
Proof.
  unfold isValidExtension, array_includes. rewrite existsb_exists. split.
  - intros (x & Hin & Heq). apply String.eqb_eq in Heq. now subst.
  - intros Hin. eexists. split; [exact Hin | apply String.eqb_refl].
Qed.

(** Chat-media acquisition never gets past the extension check: whatever
    the attachment, no file link is requested, nothing is fetched, and the
    sessions and the scratch files are left as they were. *)
Lemma handleVideoFile_never_downloads E file type userId w :
  let w' := final (handleVideoFile E file type userId) w in
  outcome (handleVideoFile E file type userId) w = Val tt
  /\ sessions w' = sessions w
  /\ files w' = files w
  /\ exists calls, trace w' = trace w ++ calls
                   /\ Forall (fun a => is_acquisition a = false) calls.
Proof.
  cbv zeta. unfold handleVideoFile. rewrite isValidExtension_of_extension.
  unfold final, outcome. mrun.
  assert (Hnil : exists calls, trace w = trace w ++ calls
                               /\ Forall (fun a => is_acquisition a = false) calls).
  { exists []. split; [now rewrite app_nil_r | constructor]. }
  destruct (sessions w !! userId) as [s|]; cbn [negb]; mrun; [|auto].
  destruct (step s); mrun; auto.
  rewrite checkAuth_run.
  destruct (tokenStore w !! userId) as [creds|]; mrun; [|auto].
  assert (Hone : exists calls, trace w ++ [ChannelsList creds] = trace w ++ calls
                               /\ Forall (fun a => is_acquisition a = false) calls).
  { exists [ChannelsList creds]. split; [reflexivity | repeat constructor]. }
  destruct (channels_probe E creds); mrun; [auto|].
  destruct (oversize E file); mrun; auto.
Qed.

(** C4, on the code: a video sent as the document [movie.mp4], whose
    extension is in the allow-list, by an authenticated user who was asked
    for a video, is answered with the unsupported-format message; the
    download does not start and the session still waits for a video. *)
Theorem handleVideoFile_rejects_allowed_extension :
  let E := demo_env (fun _ => GetResponse (Some "video/mp4") 1000 None) in
  let w := demo_world awaiting_video None None ∅ in
  let doc := mkTelegramFile "BQACAgQAAx0" (Some 1000) (Some "movie.mp4") (Some "video/mp4") in
  let w' := final (handle E (Document doc) 7) w in
  In (getFileExtension "movie.mp4") allowedExtensions
  /\ isValidExtension "movie.mp4" = true
  /\ isValidExtension (getFileExtension "movie.mp4") = false
  /\ outbox w' = [Reply (unsupportedMsg ".mp4")]
  /\ trace w' = [ChannelsList demo_creds]
  /\ step <$> sessions w' !! 7 = Some awaiting_video
  /\ files w' !! "temp/movie.mp4" = None.
Proof.
  cbv zeta. split; [vm_compute; tauto|]. repeat split; vm_compute; reflexivity.
Qed.

(** ** Acquisition failures *)

(** A failed download puts the session back to idle and shows the error of
    the acquisition layer as it is. *)
Lemma record_download_failure userId error w s :
  sessions w !! userId = Some s ->
  record_download userId (DownloadFailure error) w
  = (Val tt,
     mkWorld (<[userId := with_step idle s]> (sessions w)) (files w) (tokenStore w)
             (outbox w ++ [Reply ("❌ Download failed: " +:+ error)]) (trace w)).
Proof. intros Hs. unfold record_download. mrun. now rewrite Hs. Qed.

(** A body that breaks during the transfer is reported as a failure, and the
    part already written stays in scratch storage: only the empty and the
    oversize cases remove the file. *)
Lemma broken_transfer_leaves_file E url tgName urlName content_type n message w :
  http_get E url = GetResponse content_type n (Some message) ->
  (outcome (downloadTelegramFile E url tgName) w
   = Val (DownloadFailure ("Download failed: " +:+ message))
   /\ files (final (downloadTelegramFile E url tgName) w) !! path_join E tempDir tgName
      = Some n)
  /\ (JS.startsWith "http" url = true ->
      outcome (downloadDirectUrl E url urlName) w
      = Val (DownloadFailure ("URL download failed: " +:+ message))
      /\ files (final (downloadDirectUrl E url urlName) w)
         !! path_join E tempDir
              (JS.or_default urlName ("direct_" +:+ JS.string_of_Z (now E) +:+ ".mp4"))
         = Some n).
Proof.
  intros Hget. unfold final, outcome. rewrite downloadTelegramFile_run. cbv zeta.
  rewrite Hget. cbn [fst snd after_transfer files].
  split; [split; [reflexivity | apply lookup_insert_eq]|].
  intros Hhttp. rewrite (downloadDirectUrl_run E url urlName w Hhttp). cbv zeta.
  rewrite Hget. cbn [fst snd after_transfer files].
  split; [reflexivity | apply lookup_insert_eq].
Qed.

(** A request that is rejected before any byte arrives leaves no file. *)
Lemma rejected_request_leaves_no_file E url tgName message w :
  http_get E url = GetRejected message ->
  outcome (downloadTelegramFile E url tgName) w
  = Val (DownloadFailure ("Download failed: " +:+ message))
  /\ files (final (downloadTelegramFile E url tgName) w) = files w.
Proof.
  intros Hget. unfold final, outcome. rewrite downloadTelegramFile_run. cbv zeta.
  rewrite Hget. split; reflexivity.
Qed.

(** C7, on the code: a link whose transfer breaks after 1000 bytes.  The
    session goes back to idle and the reply carries the error of the
    acquisition layer, but the 1000 bytes written so far stay in scratch
    storage, and the session keeps no path to them. *)
Theorem handleUrl_leaves_partial_file :
  let E := demo_env (fun _ => GetResponse (Some "video/mp4") 1000 (Some "aborted")) in
  let w := mkWorld {[ 7 := mkSession awaiting_video emptyVideoInfo None None 0 false ]}
                   ∅ {[ 7 := demo_creds ]} [] [] in
  let w' := final (handle E (Text "https://example.com/clip.mp4") 7) w in
  outcome (downloadDirectUrl E "https://example.com/clip.mp4" (Some "url_1767222000000.mp4")) w
  = Val (DownloadFailure "URL download failed: aborted")
  /\ step <$> sessions w' !! 7 = Some idle
  /\ filePath <$> sessions w' !! 7 = Some None
  /\ last (outbox w') = Some (Reply "❌ Download failed: URL download failed: aborted")
  /\ files w !! "temp/url_1767222000000.mp4" = None
  /\ files w' !! "temp/url_1767222000000.mp4" = Some 1000.
Proof. cbv zeta. repeat split; vm_compute; reflexivity. Qed.

(** ** Cancellation *)

(** The cancel command resets the whole session, keeps the admin flag and
    cleans up the recorded file. *)
Lemma command_cancel_resets E userId w s :
  sessions w !! userId = Some s ->
  let w' := final (command_cancel E userId) w in
  outcome (command_cancel E userId) w = Val tt
  /\ sessions w' !! userId
     = Some (mkSession idle emptyVideoInfo None None (now E) (isAdmin s))
  /\ (forall p, filePath s = Some p -> p <> "" ->
      files w' !! p = None /\ In (Cleanup (Some p)) (trace w'))
  /\ (forall q, filePath s <> Some q -> files w' !! q = files w !! q).
Proof.
  intros Hs. cbv zeta. unfold command_cancel, final, outcome. mrun. rewrite Hs.
  cbn [mbind option_bind]. rewrite orb_false_r. unfold truthy_path.
  destruct (filePath s) as [p|] eqn:Hp.
  - destruct (JS.truthy p) eqn:Ht.
    + rewrite cleanup_run. mrun. rewrite Ht.
      split; [reflexivity|]. split; [reflexivity|]. split.
      * intros p' [= <-] _. split; [apply lookup_delete_eq|].
        apply in_or_app. right. now left.
      * intros q Hq. apply lookup_delete_ne. congruence.
    + mrun. split; [reflexivity|]. split; [reflexivity|]. split; [|reflexivity].
      intros p' [= <-] Hne. apply truthy_true in Hne. congruence.
  - mrun. split; [reflexivity|]. split; [reflexivity|]. split; [|reflexivity].
    intros p' [=].
Qed.

(** The cancel button only sets the step. *)
Lemma action_cancel_run userId w s :
  sessions w !! userId = Some s ->
  action_cancel userId w
  = (Val tt,
     mkWorld (<[userId := with_step idle s]> (sessions w)) (files w) (tokenStore w)
             (outbox w ++ [AnswerCbQuery; EditMessageText "Operation cancelled."])
             (trace w)).
Proof.
  intros Hs. unfold action_cancel. mrun. rewrite Hs. mrun. rewrite Hs. mrun.
  now rewrite <- app_assoc.
Qed.

(** C8, on the code: the cancel button pressed by a user who has a
    downloaded file, collected metadata and a pending authorization.  The
    step becomes idle, but [authStep], [videoInfo] and [filePath] stay, no
    cleanup is invoked and the file remains; the cancel command, on the same
    session, resets all of them and removes the file. *)
Theorem action_cancel_keeps_recorded_file :
  let E := demo_env (fun _ => GetRejected "unused") in
  let w := demo_world awaiting_title (Some "temp/url_1.mp4") (Some awaiting_code)
                      {[ "temp/url_1.mp4" := 1000 ]} in
  let button := final (handle E ActionCancel 7) w in
  let command := final (handle E CommandCancel 7) w in
  sessions button !! 7
  = Some (with_lastActivity (now E)
            (demo_session idle (Some "temp/url_1.mp4") (Some awaiting_code)))
  /\ files button !! "temp/url_1.mp4" = Some 1000
  /\ trace button = []
  /\ sessions command !! 7 = Some (mkSession idle emptyVideoInfo None None (now E) true)
  /\ files command !! "temp/url_1.mp4" = None
  /\ trace command = [Cleanup (Some "temp/url_1.mp4")].
Proof. cbv zeta. repeat split; vm_compute; reflexivity. Qed.

(** * Further properties of the code *)

(** ** The credential store *)

(** X1: a saved token set is what the next look-up of that user returns,
    with its bookkeeping; saving again overwrites it, and no other user's
    entry, session or file is touched. *)
Theorem saveTokens_then_getTokens (E : Env) (userId : Z) (tokens tokens' : TokenSet) (w : World) :
  let w1 := final (saveTokens E userId tokens) w in
  let w2 := final (saveTokens E userId tokens') w1 in
  outcome (saveTokens E userId tokens) w = Val true
  /\ outcome (getTokens userId) w1
     = Val (Some (mkStoredTokens tokens (now E) (JS.string_of_Z userId)))
  /\ outcome (getTokens userId) w2
     = Val (Some (mkStoredTokens tokens' (now E) (JS.string_of_Z userId)))
  /\ tokenStore w2 = tokenStore (final (saveTokens E userId tokens') w)
  /\ (forall u, u <> userId -> outcome (getTokens u) w1 = outcome (getTokens u) w)
  /\ sessions w1 = sessions w /\ files w1 = files w.
Proof.
  cbv zeta. unfold saveTokens. mrun.
  split; [reflexivity|]. split; [reflexivity|]. split; [reflexivity|].
  split; [apply insert_insert_eq|]. split; [|split; reflexivity].
  intros u Hu. now rewrite lookup_insert_ne by congruence.
Qed.

(** X2: deleting a user's tokens succeeds whether or not there are any, a
    second deletion changes nothing, the user then has no credential, other
    users keep theirs, and deleting what was just saved for a user without
    an entry gives the store back. *)
Theorem deleteTokens_idempotent (E : Env) (userId : Z) (tokens : TokenSet) (w : World) :
  let w1 := final (deleteTokens userId) w in
  outcome (deleteTokens userId) w = Val true
  /\ outcome (deleteTokens userId) w1 = Val true
  /\ tokenStore (final (deleteTokens userId) w1) = tokenStore w1
  /\ outcome (getTokens userId) w1 = Val None
  /\ outcome (checkAuth E userId) w1 = Val false
  /\ (forall u, u <> userId -> outcome (getTokens u) w1 = outcome (getTokens u) w)
  /\ (tokenStore w !! userId = None ->
      tokenStore (final (deleteTokens userId) (final (saveTokens E userId tokens) w))
      = tokenStore w).
Proof.
  cbv zeta. unfold outcome. rewrite checkAuth_run.
  unfold deleteTokens, saveTokens. mrun.
  split; [reflexivity|]. split; [reflexivity|].
  split; [apply delete_delete_eq|]. rewrite !lookup_delete_eq.
  split; [reflexivity|]. split; [reflexivity|]. split.
  - intros u Hu. now rewrite lookup_delete_ne by congruence.
  - intros Hnone. rewrite delete_insert_eq. now apply delete_id.
Qed.

(** ** Scratch storage *)

(** X3: cleanup never throws and changes nothing but the scratch files;
    the file at a non-empty path is gone afterwards, every other file is
    as before, a missing file or an unset path makes it a no-op, and a
    second cleanup changes nothing more. *)
Theorem cleanup_idempotent (p : option string) (w : World) :
  let w1 := final (cleanup p) w in
  outcome (cleanup p) w = Val tt
  /\ sessions w1 = sessions w /\ tokenStore w1 = tokenStore w /\ outbox w1 = outbox w
  /\ (forall q, p = Some q -> q <> "" -> files w1 !! q = None)
  /\ (forall q, p <> Some q -> files w1 !! q = files w !! q)
  /\ (forall q, p = Some q -> files w !! q = None -> files w1 = files w)
  /\ (truthy_path p = false -> files w1 = files w)
  /\ files (final (cleanup p) w1) = files w1.
Proof.
  cbv zeta. unfold final, outcome. rewrite !cleanup_run. cbn [fst snd sessions files tokenStore outbox].
  split; [reflexivity|]. split; [reflexivity|]. split; [reflexivity|]. split; [reflexivity|].
  destruct p as [q0|]; cbn [truthy_path].
  - destruct (JS.truthy q0) eqn:Ht.
    + split; [intros q [= <-] _; apply lookup_delete_eq|].
      split; [intros q Hq; apply lookup_delete_ne; congruence|].
      split; [intros q [= <-] Hnone; now apply delete_id|].
      split; [discriminate | apply delete_delete_eq].
    + split; [intros q [= <-] Hne; apply truthy_true in Hne; congruence|].
      repeat split; reflexivity.
  - split; [discriminate|]. repeat split; reflexivity.
Qed.

(** ** The Drive patterns *)

Lemma is_suffix_refl s : is_suffix s s.
Proof. now exists "". Qed.

Lemma is_suffix_trans t u s : is_suffix t u -> is_suffix u s -> is_suffix t s.
Proof.
  intros [a ->] [b ->]. exists (b +:+ a). symmetry. apply append_assoc_str.
Qed.

Lemma is_suffix_tail c s : is_suffix s (String c s).
Proof. now exists (String c ""). Qed.

(** A match is found at the head of some suffix; where the search finds
    nothing, the pattern matches at the head of no suffix. *)
Lemma regex_match_some_suffix pat s group :
  regex_match pat s = Some group ->
  exists t, is_suffix t s /\ match_here pat t = Some group.
Proof.
  induction s as [|c s IH]; simpl.
  - destruct (match_here pat "") eqn:Hhere; [|discriminate].
    intros [= <-]. exists "". split; [apply is_suffix_refl | exact Hhere].
  - destruct (match_here pat (String c s)) eqn:Hhere.
    + intros [= <-]. exists (String c s). split; [apply is_suffix_refl | exact Hhere].
    + intros Hm. destruct (IH Hm) as (t & Ht & Hmt).
      exists t. split; [|exact Hmt]. eapply is_suffix_trans; [exact Ht | apply is_suffix_tail].
Qed.

Lemma regex_match_none_suffix pat s :
  regex_match pat s = None -> forall t, is_suffix t s -> match_here pat t = None.
Proof.
  intros Hnone t [before ->]. revert Hnone.
  induction before as [|c before IH]; rewrite ?append_nil_l, ?append_cons.
  - destruct t; simpl; destruct (match_here pat _); congruence.
  - simpl. destruct (match_here pat (String c (before +:+ t))); [discriminate|].
    exact IH.
Qed.

(** A pattern whose prefix ends with the prefix of another pattern with the
    same stop character matches only where that one matches, a few
    characters further, with the same capture. *)
Lemma match_here_longer_prefix p1 p2 pre t group :
  pat_prefix p2 = pre +:+ pat_prefix p1 ->
  pat_stop p2 = pat_stop p1 ->
  match_here p2 t = Some group ->
  exists t', is_suffix t' t /\ match_here p1 t' = Some group.
Proof.
  intros Hpre Hstop. unfold match_here. rewrite Hpre, Hstop. clear Hpre Hstop.
  revert t. induction pre as [|a pre IH]; intros t; rewrite ?append_nil_l, ?append_cons.
  - intros H. exists t. split; [apply is_suffix_refl | exact H].
  - destruct t as [|b t]; simpl; [discriminate|].
    destruct (Ascii.eqb a b); [|discriminate].
    intros H. destruct (IH t H) as (t' & Ht' & Hm).
    exists t'. split; [|exact Hm]. eapply is_suffix_trans; [exact Ht' | apply is_suffix_tail].
Qed.

Lemma regex_match_longer_prefix p1 p2 pre s :
  pat_prefix p2 = pre +:+ pat_prefix p1 ->
  pat_stop p2 = pat_stop p1 ->
  regex_match p1 s = None -> regex_match p2 s = None.
Proof.
  intros Hpre Hstop Hnone.
  destruct (regex_match p2 s) as [group|] eqn:Hm; [|reflexivity].
  destruct (regex_match_some_suffix _ _ _ Hm) as (t & Ht & Hhere).
  destruct (match_here_longer_prefix p1 p2 pre t group Hpre Hstop Hhere) as (t' & Ht' & Hhere').
  rewrite (regex_match_none_suffix p1 s Hnone t') in Hhere'; [discriminate|].
  eapply is_suffix_trans; eassumption.
Qed.

(** X4: the third and the fourth Drive pattern never decide: a link they
    match is matched by the first or the second pattern, which comes
    earlier, so the identifier is always the capture of one of these two. *)
Theorem drive_patterns_redundant (url : string) :
  extractFileId url = first_match mainPatterns url.
Proof.
  unfold extractFileId, urlPatterns, mainPatterns. cbn [first_match].
  destruct (regex_match (mkPattern "/d/" "/") url) as [g1|] eqn:H1.
  - destruct (regex_match_sound _ _ _ H1) as (Hne & _).
    apply truthy_true in Hne. now rewrite Hne.
  - destruct (regex_match (mkPattern "id=" "&") url) as [g2|] eqn:H2.
    + destruct (regex_match_sound _ _ _ H2) as (Hne & _).
      apply truthy_true in Hne. now rewrite Hne.
    + rewrite (regex_match_longer_prefix (mkPattern "/d/" "/") (mkPattern "/file/d/" "/")
                 "/file" url eq_refl eq_refl H1).
      now rewrite (regex_match_longer_prefix (mkPattern "id=" "&")
                     (mkPattern "drive.google.com/open?id=" "&")
                     "drive.google.com/open?" url eq_refl eq_refl H2).
Qed.

(** ** What a successful download guarantees *)

Lemma or_default_truthy o d : d <> "" -> JS.or_default o d <> "".
Proof.
  intros Hd. unfold JS.or_default. destruct o as [s|]; [|exact Hd].
  destruct (JS.truthy s) eqn:Ht; [now apply truthy_true | exact Hd].
Qed.

Lemma downloadDirectUrl_not_http E url fileName w :
  JS.startsWith "http" url = false ->
  downloadDirectUrl E url fileName w = (Val (DownloadFailure "Invalid URL"), w).
Proof. intros H. unfold downloadDirectUrl. rewrite H. reflexivity. Qed.

(** X5: whenever chat-media or direct-URL acquisition reports success, the
    transfer was complete, the file it names is in scratch storage with
    exactly the reported size, at the path that [path.join] gives for the
    temporary directory and the file name it was called with (nothing is
    said on where that path lies), that size is within the configured
    maximum (and not zero for chat media), and the reported MIME type is not
    empty. *)
Theorem download_success_postcondition (E : Env) (url tgName : string)
    (urlName : option string) (w : World) :
  (forall p name n mime,
      outcome (downloadTelegramFile E url tgName) w = Val (DownloadSuccess p name n mime) ->
      p = path_join E tempDir tgName
      /\ files (final (downloadTelegramFile E url tgName) w) !! p = Some n
      /\ n <> 0 /\ n <= maxSize (config E) /\ mime <> ""
      /\ exists content_type, http_get E url = GetResponse content_type n None)
  /\ (forall p name n mime,
      outcome (downloadDirectUrl E url urlName) w = Val (DownloadSuccess p name n mime) ->
      JS.startsWith "http" url = true
      /\ p = path_join E tempDir
               (JS.or_default urlName ("direct_" +:+ JS.string_of_Z (now E) +:+ ".mp4"))
      /\ files (final (downloadDirectUrl E url urlName) w) !! p = Some n
      /\ n <= maxSize (config E) /\ mime <> ""
      /\ exists content_type, http_get E url = GetResponse content_type n None).
Proof.
  split; intros p name n mime; unfold final, outcome.
  - rewrite downloadTelegramFile_run. cbv zeta.
    destruct (http_get E url) as [message|content_type n0 [message|]]; cbn [fst snd];
      try discriminate.
    destruct (Z.eqb_spec n0 0) as [|Hn0]; cbn [fst snd]; [discriminate|].
    destruct (n0 >? maxSize (config E)) eqn:Hgt; cbn [fst snd]; [discriminate|].
    intros [= <- <- <- <-]. cbn [after_transfer files].
    split; [reflexivity|]. split; [apply lookup_insert_eq|]. split; [exact Hn0|].
    split; [lia|]. split; [now apply or_default_truthy | eauto].
  - destruct (JS.startsWith "http" url) eqn:Hhttp;
      [|rewrite (downloadDirectUrl_not_http E url urlName w Hhttp); discriminate].
    rewrite (downloadDirectUrl_run E url urlName w Hhttp). cbv zeta.
    destruct (http_get E url) as [message|content_type n0 [message|]]; cbn [fst snd];
      try discriminate.
    destruct (n0 >? maxSize (config E)) eqn:Hgt; cbn [fst snd]; [discriminate|].
    intros [= <- <- <- <-]. cbn [after_transfer files].
    split; [reflexivity|]. split; [reflexivity|]. split; [apply lookup_insert_eq|].
    split; [lia|]. split; [now apply or_default_truthy | eauto].
Qed.

(** ** Extensions and letter case *)

Lemma lower_char_idempotent c : JS.lower_char (JS.lower_char c) = JS.lower_char c.
Proof. destruct c as [[] [] [] [] [] [] [] []]; reflexivity. Qed.

Lemma toLowerCase_idempotent s : JS.toLowerCase (JS.toLowerCase s) = JS.toLowerCase s.
Proof.
  unfold JS.toLowerCase. rewrite chars_str, map_map. f_equal.
  apply map_ext. intros c. apply lower_char_idempotent.
Qed.

(** The scan of [path.extname] looks at dots and separators only, which
    lower-casing leaves in place. *)
Lemma extname_loop_lower rpath :
  forall i st,
    Path.extname_loop (map JS.lower_char rpath) i st = Path.extname_loop rpath i st.
Proof.
  induction rpath as [|c rest IH]; intros i st; [reflexivity|].
  cbn [map Path.extname_loop]. rewrite lower_char_slash.
  destruct (Ascii.eqb c Path.slash).
  - destruct (negb (Path.matchedSlash st)); [reflexivity | apply IH].
  - rewrite IH. f_equal. unfold Path.see_char. now rewrite lower_char_dot.
Qed.

Lemma extname_toLowerCase path :
  Path.extname (JS.toLowerCase path) = JS.toLowerCase (Path.extname path).
Proof.
  set (st := Path.extname_loop (rev (JS.chars path))
               (Z.of_nat (List.length (JS.chars path)) - 1) Path.ext_init).
  assert (Hst : Path.extname_loop (rev (JS.chars (JS.toLowerCase path)))
                  (Z.of_nat (List.length (JS.chars (JS.toLowerCase path))) - 1)
                  Path.ext_init = st).
  { unfold JS.toLowerCase. rewrite chars_str, <- map_rev, length_map.
    apply extname_loop_lower. }
  unfold Path.extname. cbv zeta. rewrite Hst. fold st.
  destruct ((Path.startDot st =? -1) || (Path.end_ st =? -1) || (Path.preDotState st =? 0)
            || ((Path.preDotState st =? 1) && (Path.startDot st =? Path.end_ st - 1)
                && (Path.startDot st =? Path.startPart st + 1))); [reflexivity|].
  unfold JS.toLowerCase, Path.slice. rewrite !chars_str.
  now rewrite <- firstn_map, <- skipn_map.
Qed.

(** X6: the extension check does not depend on letter case: a name passes
    exactly when its lower-cased form passes, and the extension reported for
    a name is the one reported for its lower-cased form. *)
Theorem isValidExtension_case_insensitive (filename : string) :
  isValidExtension (JS.toLowerCase filename) = isValidExtension filename
  /\ getFileExtension (JS.toLowerCase filename) = getFileExtension filename
  /\ (isValidExtension filename = true <-> In (getFileExtension filename) allowedExtensions).
Proof.
  unfold isValidExtension, getFileExtension.
  rewrite extname_toLowerCase, toLowerCase_idempotent.
  split; [reflexivity|]. split; [reflexivity|].
  unfold array_includes. rewrite existsb_exists. split.
  - intros (x & Hin & Heq). apply String.eqb_eq in Heq. now subst.
  - intros Hin. eexists. split; [exact Hin | apply String.eqb_refl].
Qed.

(** ** Relations kept by the handlers

    A relation between the world before and after a step that is reflexive
    and transitive, and that holds across each primitive effect, holds
    across every handler built from them.  The handlers whose writes depend
    on what they read ([handleTitle], [handleDescription], [setPrivacy],
    [handleTags], the cancel and logout commands) and the middleware are
    treated one by one further down. *)

Section Footprint.

Variable E : Env.
Variable AE : AuthEnv.
Variable userId : Z.
Variable R : World -> World -> Prop.
Variable ok : Action -> Prop.
Variable good : (Session -> Session) -> Prop.

Hypothesis R_refl : forall w, R w w.
Hypothesis R_trans : forall w1 w2 w3, R w1 w2 -> R w2 w3 -> R w1 w3.
Hypothesis R_outbox : forall w ob,
  R w (mkWorld (sessions w) (files w) (tokenStore w) ob (trace w)).
Hypothesis R_files : forall w fs,
  R w (mkWorld (sessions w) fs (tokenStore w) (outbox w) (trace w)).
Hypothesis R_trace : forall w a, ok a ->
  R w (mkWorld (sessions w) (files w) (tokenStore w) (outbox w) (trace w ++ [a])).
Hypothesis R_tokens : forall w v,
  R w (mkWorld (sessions w) (files w) (<[userId := v]> (tokenStore w)) (outbox w) (trace w)).
Hypothesis R_session : forall w s f, sessions w !! userId = Some s -> good f ->
  R w (mkWorld (<[userId := f s]> (sessions w)) (files w) (tokenStore w) (outbox w) (trace w)).

Hypothesis ok_probe : forall creds, ok (ChannelsList creds).
Hypothesis ok_getToken : forall code, ok (OAuthGetToken code).
Hypothesis ok_userinfo : forall tokens, ok (OAuthUserinfo tokens).
Hypothesis ok_fileLink : forall fileId, ok (GetFileLink fileId).
Hypothesis ok_head : forall url, ok (HttpHead url).
Hypothesis ok_get : forall url, ok (HttpGet url).
Hypothesis ok_cleanup : forall p, ok (Cleanup p).

Hypothesis good_step : forall v, good (with_step v).
Hypothesis good_authStep : forall v, good (with_authStep v).
Hypothesis good_filePath : forall v, good (with_filePath v).
Hypothesis good_lastActivity : forall v, good (with_lastActivity v).
Hypothesis good_download : forall mime n,
  good (with_videoInfo (mkVideoInfo None None None None None mime n None)).

(** What only some relations allow: any new [videoInfo], an upload request,
    creating, resetting and forgetting the user's session, forgetting the
    user's tokens. *)
Hypothesis good_videoInfo : forall v, good (with_videoInfo v).
Hypothesis ok_insert : forall creds md body mime, ok (VideosInsert creds md body mime).
Hypothesis R_fresh : forall w, sessions w !! userId = None ->
  R w (mkWorld (<[userId := fresh_session E userId]> (sessions w))
               (files w) (tokenStore w) (outbox w) (trace w)).
Hypothesis R_reset : forall w t b,
  R w (mkWorld (<[userId := mkSession idle emptyVideoInfo None None t b]> (sessions w))
               (files w) (tokenStore w) (outbox w) (trace w)).
Hypothesis R_forget_session : forall w,
  R w (mkWorld (delete userId (sessions w)) (files w) (tokenStore w) (outbox w) (trace w)).
Hypothesis R_forget_tokens : forall w,
  R w (mkWorld (sessions w) (files w) (delete userId (tokenStore w)) (outbox w) (trace w)).

(** *** Control *)

Lemma preserves_unchanged {A} (m : M A) : (forall w, final m w = w) -> preserves R m.
Proof. intros H w. rewrite H. apply R_refl. Qed.

Lemma preserves_ret {A} (a : A) : preserves R (ret a).
Proof. now apply preserves_unchanged. Qed.

Lemma preserves_throw {A} message : preserves R (@throw A message).
Proof. now apply preserves_unchanged. Qed.

Lemma preserves_lift {A} (r : Res A) : preserves R (lift r).
Proof. now apply preserves_unchanged. Qed.

Lemma preserves_bind {A B} (m : M A) (k : A -> M B) :
  preserves R m -> (forall a, preserves R (k a)) -> preserves R (bind m k).
Proof.
  intros Hm Hk w. specialize (Hm w). unfold final, bind in *.
  destruct (m w) as [[a|e] w1]; cbn [snd] in *; [|exact Hm].
  eapply R_trans; [exact Hm | apply (Hk a w1)].
Qed.

Lemma preserves_try_catch {A} (m : M A) (h : string -> M A) :
  preserves R m -> (forall e, preserves R (h e)) -> preserves R (try_catch m h).
Proof.
  intros Hm Hh w. specialize (Hm w). unfold final, try_catch in *.
  destruct (m w) as [[a|e] w1]; cbn [snd] in *; [exact Hm|].
  eapply R_trans; [exact Hm | apply (Hh e w1)].
Qed.

Lemma preserves_try_finally {A} (m : M A) (f : M unit) :
  preserves R m -> preserves R f -> preserves R (try_finally m f).
Proof.
  intros Hm Hf w. specialize (Hm w). unfold final, try_finally in *.
  destruct (m w) as [r w1]. cbn [snd] in *. specialize (Hf w1). unfold final in Hf.
  destruct (f w1) as [[u|e] w2]; cbn [snd] in *; eapply R_trans; eassumption.
Qed.

Lemma preserves_when (b : bool) (m : M unit) : preserves R m -> preserves R (when b m).
Proof. intros Hm. destruct b; [exact Hm | apply preserves_ret]. Qed.

(** *** Primitive effects *)

Lemma preserves_reply text : preserves R (reply text).
Proof. intros w. apply R_outbox. Qed.

Lemma preserves_editMessageText text : preserves R (editMessageText text).
Proof. intros w. apply R_outbox. Qed.

Lemma preserves_answerCbQuery : preserves R answerCbQuery.
Proof. intros w. apply R_outbox. Qed.

Lemma preserves_emit a : ok a -> preserves R (emit a).
Proof. intros Ha w. now apply R_trace. Qed.

Lemma preserves_set_files f : preserves R (set_files f).
Proof. intros w. apply R_files. Qed.

Lemma preserves_userSessions_get u : preserves R (userSessions_get u).
Proof. now apply preserves_unchanged. Qed.

Lemma preserves_getTokens u : preserves R (getTokens u).
Proof. now apply preserves_unchanged. Qed.

Lemma preserves_the_session u : preserves R (the_session u).
Proof.
  apply preserves_unchanged. intros w. unfold the_session. mrun.
  now destruct (sessions w !! u).
Qed.

Lemma preserves_stat_size p : preserves R (stat_size p).
Proof. apply preserves_unchanged. intros w. unfold final, stat_size. now destruct (files w !! p). Qed.

Lemma preserves_pathExists p : preserves R (pathExists p).
Proof. now apply preserves_unchanged. Qed.

Lemma preserves_get_world : preserves R get_world.
Proof. now apply preserves_unchanged. Qed.

Lemma preserves_assign f : good f -> preserves R (assign userId f).
Proof.
  intros Hf w. unfold assign. mrun.
  destruct (sessions w !! userId) as [s|] eqn:Hs; mrun; [now apply R_session | apply R_refl].
Qed.

Ltac pres :=
  repeat match goal with
    | |- preserves _ (ret _) => apply preserves_ret
    | |- preserves _ (throw _) => apply preserves_throw
    | |- preserves _ (lift _) => apply preserves_lift
    | |- preserves _ (reply _) => apply preserves_reply
    | |- preserves _ (editMessageText _) => apply preserves_editMessageText
    | |- preserves _ answerCbQuery => apply preserves_answerCbQuery
    | |- preserves _ (set_files _) => apply preserves_set_files
    | |- preserves _ (userSessions_get _) => apply preserves_userSessions_get
    | |- preserves _ (getTokens _) => apply preserves_getTokens
    | |- preserves _ (the_session _) => apply preserves_the_session
    | |- preserves _ (stat_size _) => apply preserves_stat_size
    | |- preserves _ (pathExists _) => apply preserves_pathExists
    | |- preserves _ get_world => apply preserves_get_world
    | |- preserves _ (emit _) => apply preserves_emit; solve [auto]
    | |- preserves _ (assign _ _) => apply preserves_assign; solve [auto]
    | |- preserves _ (when _ _) => apply preserves_when
    | |- preserves _ (bind _ _) => apply preserves_bind; [|intros ?]
    | |- preserves _ (try_catch _ _) => apply preserves_try_catch; [|intros ?]
    | |- preserves _ (try_finally _ _) => apply preserves_try_finally
    | |- preserves _ (if ?b then _ else _) => destruct b
    | |- preserves _ (match ?x with _ => _ end) => destruct x
    end.

(** *** The services *)

Lemma preserves_checkAuth : preserves R (checkAuth E userId).
Proof. unfold checkAuth. pres. Qed.

Lemma preserves_getChannelInfo : preserves R (getChannelInfo AE userId).
Proof. unfold getChannelInfo. pres. Qed.

Lemma preserves_saveTokens tokens : preserves R (saveTokens E userId tokens).
Proof. intros w. unfold saveTokens. mrun. apply R_tokens. Qed.

Lemma preserves_handleAuthCallback code : preserves R (handleAuthCallback E code userId).
Proof. unfold handleAuthCallback. pres. apply preserves_saveTokens. Qed.

Lemma preserves_cleanup p : preserves R (cleanup p).
Proof. unfold cleanup, fs_remove. pres. Qed.

Lemma preserves_downloadTelegramFile fileUrl fileName :
  preserves R (downloadTelegramFile E fileUrl fileName).
Proof. unfold downloadTelegramFile, axios_get, pipeline, fs_remove. pres. Qed.

Lemma preserves_downloadDirectUrl url fileName :
  preserves R (downloadDirectUrl E url fileName).
Proof. unfold downloadDirectUrl, axios_get, pipeline, fs_remove. pres. Qed.

Lemma preserves_downloadGoogleDrive url fileName :
  preserves R (downloadGoogleDrive E url fileName).
Proof. unfold downloadGoogleDrive. pres. apply preserves_downloadDirectUrl. Qed.

(** *** The handlers *)

Lemma preserves_record_download result : preserves R (record_download userId result).
Proof. unfold record_download. pres. Qed.

Lemma preserves_handleUrl url : preserves R (handleUrl E url userId).
Proof.
  unfold handleUrl. pres; try apply preserves_checkAuth;
    try apply preserves_downloadGoogleDrive; try apply preserves_downloadDirectUrl;
    try apply preserves_record_download; pres.
Qed.

Lemma preserves_handleVideoFile file type : preserves R (handleVideoFile E file type userId).
Proof.
  unfold handleVideoFile. pres; try apply preserves_checkAuth;
    try apply preserves_downloadTelegramFile; try apply preserves_record_download; pres.
Qed.

Lemma preserves_handleAuthCode code : preserves R (handleAuthCode E code userId).
Proof. unfold handleAuthCode. pres; try apply preserves_handleAuthCallback; pres. Qed.

Lemma preserves_command_upload : preserves R (command_upload E userId).
Proof. unfold command_upload. pres; try apply preserves_checkAuth; pres. Qed.

Lemma preserves_command_auth : preserves R (command_auth E AE userId).
Proof.
  unfold command_auth, getAuthUrl. pres; try apply preserves_checkAuth;
    try apply preserves_getChannelInfo; pres.
Qed.

Lemma preserves_command_channel : preserves R (command_channel E AE userId).
Proof.
  unfold command_channel. pres; try apply preserves_checkAuth;
    try apply preserves_getChannelInfo; pres.
Qed.

Lemma preserves_action_cancel : preserves R (action_cancel userId).
Proof. unfold action_cancel. pres. Qed.

Lemma preserves_action_cancel_auth : preserves R (action_cancel_auth userId).
Proof. unfold action_cancel_auth. pres. Qed.

Lemma preserves_action_manual_upload : preserves R (action_manual_upload E userId).
Proof. unfold action_manual_upload. pres; try apply preserves_checkAuth; pres. Qed.

(** *** Handlers that need more of the relation *)

Lemma preserves_middleware (next : M unit) :
  preserves R next -> preserves R (middleware E userId next).
Proof.
  intros Hnext w. unfold middleware. mrun.
  destruct (sessions w !! userId) as [s|] eqn:Hs; mrun.
  - rewrite Hs. mrun. eapply R_trans; [|apply Hnext].
    now apply R_session.
  - eapply R_trans; [|apply Hnext].
    eapply R_trans; [apply (R_fresh w Hs)|].
    pose proof (R_session (mkWorld (<[userId := fresh_session E userId]> (sessions w))
                                   (files w) (tokenStore w) (outbox w) (trace w))
                          (fresh_session E userId) (with_lastActivity (now E))
                          (lookup_insert_eq _ _ _) (good_lastActivity _)) as Hstep.
    exact Hstep.
Qed.

Lemma preserves_uploadVideo videoData : preserves R (uploadVideo E userId videoData).
Proof. unfold uploadVideo, youtube_videos_insert, createReadStream. pres. Qed.

Lemma preserves_handleTitle text : preserves R (handleTitle text userId).
Proof. unfold handleTitle. pres. Qed.

Lemma preserves_handleDescription text : preserves R (handleDescription text userId).
Proof. unfold handleDescription. pres. Qed.

Lemma preserves_setPrivacy privacy : preserves R (setPrivacy privacy userId).
Proof. unfold setPrivacy. pres. Qed.

Lemma preserves_handleTags_with upload text :
  (forall vi, preserves R (upload userId vi)) ->
  preserves R (handleTags_with upload text userId).
Proof.
  intros Hup. unfold handleTags_with, handleTags_try, handleTags_finally. pres;
    try apply Hup; try apply preserves_cleanup; pres.
Qed.

Lemma preserves_command_cancel : preserves R (command_cancel E userId).
Proof.
  unfold command_cancel. pres; try apply preserves_cleanup.
  all: intros w; apply R_reset.
Qed.

Lemma preserves_command_logout : preserves R (command_logout userId).
Proof.
  unfold command_logout, deleteTokens. pres.
  all: try (intros w; apply R_forget_tokens); try (intros w; apply R_forget_session).
Qed.

(** *** The dispatcher, from its handlers *)

Lemma preserves_on_text_with upload message_text :
  (forall t, preserves R (handleTitle t userId)) ->
  (forall t, preserves R (handleDescription t userId)) ->
  (forall t, preserves R (handleTags_with upload t userId)) ->
  preserves R (on_text_with E upload message_text userId).
Proof.
  intros Htitle Hdesc Htags. unfold on_text_with, isValidUrl. pres;
    try apply preserves_handleAuthCode; try apply Htitle; try apply Hdesc; try apply Htags;
    try apply preserves_handleUrl; pres.
Qed.

Lemma preserves_dispatch ev :
  (forall t, preserves R (handleTitle t userId)) ->
  (forall t, preserves R (handleDescription t userId)) ->
  (forall t, preserves R (handleTags E t userId)) ->
  (forall p, preserves R (setPrivacy p userId)) ->
  preserves R (command_cancel E userId) ->
  preserves R (command_logout userId) ->
  preserves R (dispatch E AE ev userId).
Proof.
  intros Htitle Hdesc Htags Hprivacy Hcancel Hlogout.
  destruct ev as [ev| |]; cbn [dispatch]; [unfold handle|..]; apply preserves_middleware.
  - destruct ev; unfold on_text, on_video, on_document.
    + apply preserves_command_upload.
    + exact Hcancel.
    + exact Hlogout.
    + apply preserves_on_text_with; assumption.
    + apply preserves_handleVideoFile.
    + pres. apply preserves_handleVideoFile.
    + apply preserves_action_cancel.
    + apply preserves_action_cancel_auth.
    + apply preserves_action_manual_upload.
    + pres. apply Hprivacy.
  - apply preserves_command_auth.
  - apply preserves_command_channel.
Qed.

End Footprint.

(** ** What the handlers leave behind *)

Lemma middleware_run E userId (next : M unit) w :
  middleware E userId next w = next (entered E userId w).
Proof.
  unfold middleware, entered, fresh_session. mrun.
  destruct (sessions w !! userId) as [s|] eqn:Hs; mrun.
  - rewrite Hs. reflexivity.
  - cbn [default]. now rewrite insert_insert_eq.
Qed.

Lemma entered_lookup E userId w :
  sessions (entered E userId w) !! userId
  = Some (with_lastActivity (now E) (default (fresh_session E userId) (sessions w !! userId))).
Proof. apply lookup_insert_eq. Qed.

Lemma handleTitle_run text userId w s :
  sessions w !! userId = Some s ->
  handleTitle text userId w
  = (Val tt,
     mkWorld (<[userId := with_step awaiting_description
                            (with_videoInfo (with_title text (videoInfo s)) s)]> (sessions w))
             (files w) (tokenStore w)
             (outbox w ++ [Reply ("Great! Now send me the *video description* (or type "
                                  +:+ dq +:+ "skip" +:+ dq +:+ "):")])
             (trace w)).
Proof.
  intros Hs. unfold handleTitle. mrun. rewrite Hs. mrun. rewrite Hs. mrun.
  now rewrite insert_insert_eq.
Qed.

Lemma handleDescription_run text userId w s :
  sessions w !! userId = Some s ->
  handleDescription text userId w
  = (Val tt,
     mkWorld (<[userId := with_step awaiting_privacy
                            (if String.eqb (JS.toLowerCase text) "skip" then s
                             else with_videoInfo (with_description text (videoInfo s)) s)]>
                (sessions w))
             (files w) (tokenStore w)
             (outbox w ++ [Reply "Choose privacy setting:"])
             (trace w)).
Proof.
  intros Hs. unfold handleDescription. mrun. rewrite Hs.
  destruct (String.eqb (JS.toLowerCase text) "skip"); mrun; rewrite Hs; mrun;
    rewrite ?Hs; mrun; now rewrite ?insert_insert_eq.
Qed.

Lemma setPrivacy_run privacy userId w s :
  sessions w !! userId = Some s ->
  setPrivacy privacy userId w
  = (Val tt,
     mkWorld (<[userId := with_step awaiting_tags
                            (with_videoInfo (with_privacyStatus privacy (videoInfo s)) s)]>
                (sessions w))
             (files w) (tokenStore w)
             (outbox w ++ [EditMessageText
                             ("Privacy set to: *" +:+ privacy +:+ "*" +:+ nl +:+ nl +:+
                              "Now, send me tags (comma-separated, or type "
                              +:+ dq +:+ "skip" +:+ dq +:+ "):")])
             (trace w)).
Proof.
  intros Hs. unfold setPrivacy. mrun. rewrite Hs. mrun. rewrite Hs. mrun.
  now rewrite insert_insert_eq.
Qed.

Lemma command_cancel_run E userId w s :
  sessions w !! userId = Some s ->
  command_cancel E userId w
  = (Val tt,
     mkWorld (<[userId := mkSession idle emptyVideoInfo None None (now E) (isAdmin s)]>
                (sessions w))
             (if truthy_path (filePath s)
              then match filePath s with Some q => delete q (files w) | None => files w end
              else files w)
             (tokenStore w)
             (outbox w ++ [Reply "✅ Operation cancelled."])
             (if truthy_path (filePath s) then trace w ++ [Cleanup (filePath s)] else trace w)).
Proof.
  intros Hs. unfold command_cancel. mrun. rewrite Hs.
  cbn [mbind option_bind]. rewrite orb_false_r. unfold truthy_path.
  destruct (filePath s) as [p|] eqn:Hp; [destruct (JS.truthy p) eqn:Ht|]; mrun;
    try reflexivity.
  rewrite cleanup_run. mrun. now rewrite Ht.
Qed.

Lemma command_logout_run userId w :
  command_logout userId w
  = (Val tt,
     mkWorld (delete userId (sessions w)) (files w) (delete userId (tokenStore w))
             (outbox w ++ [Reply "✅ Successfully logged out. Use /auth to authenticate again."])
             (trace w)).
Proof. unfold command_logout, deleteTokens. mrun. reflexivity. Qed.

(** Without a path in the video record the upload stops before the
    request: no credential, no title, or no file to read. *)
Lemma uploadVideo_pathless_run E userId videoData w :
  vi_filePath videoData = None ->
  exists error, uploadVideo E userId videoData w = (Val (UploadFailure error), w).
Proof.
  intros Hp. unfold uploadVideo, createReadStream. mrun.
  destruct (tokenStore w !! userId); mrun; [|eauto].
  destruct (build_metadata videoData); mrun; [|eauto].
  rewrite Hp. eauto.
Qed.

(** ** Users do not interfere *)

Lemma others_untouched_refl userId w : others_untouched userId w w.
Proof. intros u Hu. now split. Qed.

Lemma others_untouched_trans userId w1 w2 w3 :
  others_untouched userId w1 w2 -> others_untouched userId w2 w3 ->
  others_untouched userId w1 w3.
Proof.
  intros H12 H23 u Hu. destruct (H12 u Hu) as [Hs Ht], (H23 u Hu) as [Hs' Ht'].
  split; congruence.
Qed.

Ltac others_fact :=
  intros; try exact I;
  try (apply others_untouched_refl);
  try (eapply others_untouched_trans; eassumption);
  try (intros ? ?; cbn [sessions tokenStore];
       rewrite ?lookup_insert_ne, ?lookup_delete_ne by congruence; now split).

Lemma dispatch_others_untouched E AE ev userId :
  preserves (others_untouched userId) (dispatch E AE ev userId).
Proof.
  apply (preserves_dispatch E AE userId (others_untouched userId)
           (fun _ => True) (fun _ => True)); try solve [others_fact].
  - intros t. apply (preserves_handleTitle userId _ (fun _ => True)); others_fact.
  - intros t. apply (preserves_handleDescription userId _ (fun _ => True)); others_fact.
  - intros t. unfold handleTags.
    apply (preserves_handleTags_with userId _ (fun _ => True) (fun _ => True));
      try solve [others_fact].
    intros vi. apply (preserves_uploadVideo E userId _ (fun _ => True)); others_fact.
  - intros p. apply (preserves_setPrivacy userId _ (fun _ => True)); others_fact.
  - apply (preserves_command_cancel E userId _ (fun _ => True)); others_fact.
  - apply (preserves_command_logout userId); others_fact.
Qed.

Lemma run_events_cons d rest w :
  run_events (d :: rest) w
  = run_events rest (final (dispatch (d_env d) (d_auth d) (d_event d) (d_user d)) w).
Proof. reflexivity. Qed.

(** X7: whatever is delivered, and whatever the collaborators answer, the
    session and the credential of a user who sent none of the events are
    exactly as before. *)
Theorem silent_user_untouched (deliveries : list Delivery) (u : Z) (w : World) :
  Forall (fun d => d_user d <> u) deliveries ->
  sessions (run_events deliveries w) !! u = sessions w !! u
  /\ tokenStore (run_events deliveries w) !! u = tokenStore w !! u.
Proof.
  intros Hall. revert w. induction Hall as [|d rest Hd _ IH]; intros w; [now split|].
  rewrite run_events_cons.
  destruct (IH (final (dispatch (d_env d) (d_auth d) (d_event d) (d_user d)) w)) as [-> ->].
  apply (dispatch_others_untouched (d_env d) (d_auth d) (d_event d) (d_user d) w).
  congruence.
Qed.

Lemma silent_user_untouched_witness :
  let w := mkWorld {[ 7 := demo_session awaiting_title (Some "temp/url_1.mp4") None;
                      8 := demo_session awaiting_title (Some "temp/url_2.mp4") None ]}
                   ∅ {[ 7 := demo_creds ]} [] [] in
  let E := demo_env (fun _ => GetRejected "unused") in
  sessions (run_events [mkDelivery E demo_auth (Ev (Text "First")) 7;
                        mkDelivery E demo_auth (Ev CommandCancel) 7] w) !! 8
  = Some (demo_session awaiting_title (Some "temp/url_2.mp4") None).
Proof.
  intros w E.
  destruct (silent_user_untouched
              [mkDelivery E demo_auth (Ev (Text "First")) 7;
               mkDelivery E demo_auth (Ev CommandCancel) 7] 8 w) as [Hs _].
  - repeat constructor; discriminate.
  - rewrite Hs. reflexivity.
Defined.

(** ** The upload request is never made *)

Lemma uploadVideo_without_path E userId videoData w :
  vi_filePath videoData = None ->
  uploadVideo E userId videoData w
  = (Val (UploadFailure (upload_error_without_path (tokenStore w !! userId) videoData)), w).
Proof.
  intros Hp. unfold uploadVideo, createReadStream, upload_error_without_path. mrun.
  destruct (tokenStore w !! userId); mrun; [|reflexivity].
  destruct (build_metadata videoData); mrun; [|reflexivity].
  now rewrite Hp.
Qed.

Lemma handleTags_without_path E text userId w s :
  sessions w !! userId = Some s ->
  vi_filePath (videoInfo s) = None ->
  handleTags E text userId w
  = (Val tt,
     mkWorld (<[userId := mkSession idle emptyVideoInfo None (authStep s)
                            (lastActivity s) (isAdmin s)]> (sessions w))
             (match filePath s with
              | Some q => if JS.truthy q then delete q (files w) else files w
              | None => files w
              end)
             (tokenStore w)
             (outbox w ++
              [Reply "🚀 Starting upload to YouTube...";
               Reply ("❌ Upload failed: " +:+
                      upload_error_without_path (tokenStore w !! userId)
                        (if String.eqb (JS.toLowerCase text) "skip" then videoInfo s
                         else with_tags text (videoInfo s)))])
             (if truthy_path (filePath s) then trace w ++ [Cleanup (filePath s)] else trace w)).
Proof.
  intros Hs Hp. unfold handleTags, handleTags_with. mrun. rewrite Hs.
  destruct (String.eqb (JS.toLowerCase text) "skip"); mrun; rewrite ?Hs; mrun;
    unfold handleTags_try; mrun;
    rewrite uploadVideo_without_path by exact Hp; mrun;
    erewrite handleTags_finally_run by (cbn [sessions]; apply lookup_insert_eq);
    cbn [sessions files tokenStore outbox trace filePath authStep lastActivity isAdmin
         with_step with_videoInfo];
    rewrite ?insert_insert_eq, <- ?app_assoc; reflexivity.
Qed.

Lemma no_session_the_session {A} userId (k : Session -> M A) w :
  sessions w !! userId = None ->
  final (let* session := the_session userId in k session) w = w.
Proof. intros Hs. mrun. now rewrite Hs. Qed.

Lemma no_insert_added_same w w' : trace w' = trace w -> no_insert_added w w'.
Proof. intros H. exists []. rewrite H, app_nil_r. split; [reflexivity | constructor]. Qed.

Lemma no_insert_added_one w w' a :
  match a with VideosInsert _ _ _ _ => False | _ => True end ->
  trace w' = trace w ++ [a] -> no_insert_added w w'.
Proof. intros Ha H. exists [a]. split; [exact H | now constructor]. Qed.

Lemma no_insert_added_trans w1 w2 w3 :
  no_insert_added w1 w2 -> no_insert_added w2 w3 -> no_insert_added w1 w3.
Proof.
  intros (c1 & H1 & F1) (c2 & H2 & F2). exists (c1 ++ c2).
  split; [now rewrite H2, H1, app_assoc | now apply Forall_app].
Qed.

Lemma pathless_same w w' : sessions w' = sessions w -> videoInfo_pathless w -> videoInfo_pathless w'.
Proof. intros H Hp u s. rewrite H. apply Hp. Qed.

Lemma pathless_insert w w' userId v :
  sessions w' = <[userId := v]> (sessions w) ->
  vi_filePath (videoInfo v) = None ->
  videoInfo_pathless w -> videoInfo_pathless w'.
Proof.
  intros H Hv Hp u s. rewrite H. destruct (decide (userId = u)) as [->|Hne].
  - rewrite lookup_insert_eq. now intros [= <-].
  - rewrite lookup_insert_ne by exact Hne. apply Hp.
Qed.

Lemma pathless_delete w w' userId :
  sessions w' = delete userId (sessions w) -> videoInfo_pathless w -> videoInfo_pathless w'.
Proof.
  intros H Hp u s. rewrite H. destruct (decide (userId = u)) as [->|Hne].
  - now rewrite lookup_delete_eq.
  - rewrite lookup_delete_ne by exact Hne. apply Hp.
Qed.

Lemma stays_uploadless_refl w : stays_uploadless w w.
Proof. intros Hp. split; [exact Hp | now apply no_insert_added_same]. Qed.

Lemma stays_uploadless_trans w1 w2 w3 :
  stays_uploadless w1 w2 -> stays_uploadless w2 w3 -> stays_uploadless w1 w3.
Proof.
  intros H12 H23 Hp. destruct (H12 Hp) as [Hp2 Hn2]. destruct (H23 Hp2) as [Hp3 Hn3].
  split; [exact Hp3 | eapply no_insert_added_trans; eassumption].
Qed.

Ltac uploadless_fact :=
  intros; try exact I;
  try (apply stays_uploadless_refl);
  try (eapply stays_uploadless_trans; eassumption);
  try (intros ? ?; assumption);
  try (intros ?; reflexivity);
  try match goal with
      | |- stays_uploadless _ _ =>
          let Hp := fresh "Hp" in
          intros Hp; split;
          [ first [ eapply pathless_same; [reflexivity | exact Hp]
                  | eapply pathless_delete; [reflexivity | exact Hp]
                  | eapply pathless_insert; [reflexivity | | exact Hp];
                    first [ reflexivity
                          | match goal with
                            | Hg : keeps_pathless _, Hs : sessions _ !! _ = Some _ |- _ =>
                                apply Hg; exact (Hp _ _ Hs)
                            end ] ]
          | first [ now apply no_insert_added_same
                  | eapply no_insert_added_one; [eassumption | reflexivity] ] ]
      end.

Lemma stays_uploadless_handleTitle text userId :
  preserves stays_uploadless (handleTitle text userId).
Proof.
  intros w Hp. destruct (sessions w !! userId) as [s|] eqn:Hs.
  - unfold final. rewrite (handleTitle_run text userId w s Hs). cbn [snd].
    split; [|now apply no_insert_added_same].
    eapply pathless_insert; [reflexivity | | exact Hp]. exact (Hp _ _ Hs).
  - unfold handleTitle. rewrite no_session_the_session by exact Hs.
    now apply stays_uploadless_refl.
Qed.

Lemma stays_uploadless_handleDescription text userId :
  preserves stays_uploadless (handleDescription text userId).
Proof.
  intros w Hp. destruct (sessions w !! userId) as [s|] eqn:Hs.
  - unfold final. rewrite (handleDescription_run text userId w s Hs). cbn [snd].
    split; [|now apply no_insert_added_same].
    eapply pathless_insert; [reflexivity | | exact Hp].
    destruct (String.eqb (JS.toLowerCase text) "skip"); exact (Hp _ _ Hs).
  - unfold handleDescription. rewrite no_session_the_session by exact Hs.
    now apply stays_uploadless_refl.
Qed.

Lemma stays_uploadless_setPrivacy privacy userId :
  preserves stays_uploadless (setPrivacy privacy userId).
Proof.
  intros w Hp. destruct (sessions w !! userId) as [s|] eqn:Hs.
  - unfold final. rewrite (setPrivacy_run privacy userId w s Hs). cbn [snd].
    split; [|now apply no_insert_added_same].
    eapply pathless_insert; [reflexivity | | exact Hp]. exact (Hp _ _ Hs).
  - unfold setPrivacy. rewrite no_session_the_session by exact Hs.
    now apply stays_uploadless_refl.
Qed.

Lemma stays_uploadless_handleTags E text userId :
  preserves stays_uploadless (handleTags E text userId).
Proof.
  intros w Hp. destruct (sessions w !! userId) as [s|] eqn:Hs.
  - unfold final. rewrite (handleTags_without_path E text userId w s Hs (Hp _ _ Hs)).
    cbn [snd]. split.
    + eapply pathless_insert; [reflexivity | reflexivity | exact Hp].
    + destruct (truthy_path (filePath s)).
      * eapply no_insert_added_one; [|reflexivity]. exact I.
      * now apply no_insert_added_same.
  - unfold handleTags, handleTags_with. rewrite no_session_the_session by exact Hs.
    now apply stays_uploadless_refl.
Qed.

Lemma dispatch_stays_uploadless E AE ev userId :
  preserves stays_uploadless (dispatch E AE ev userId).
Proof.
  apply (preserves_dispatch E AE userId stays_uploadless not_insert keeps_pathless);
    try solve [uploadless_fact].
  - intros t. apply stays_uploadless_handleTitle.
  - intros t. apply stays_uploadless_handleDescription.
  - intros t. apply stays_uploadless_handleTags.
  - intros p. apply stays_uploadless_setPrivacy.
  - apply (preserves_command_cancel E userId _ not_insert); uploadless_fact.
  - apply (preserves_command_logout userId); uploadless_fact.
Qed.

(** X8: a bot whose sessions carry no file path in [videoInfo], as is the
    case when it starts without sessions, never gets to the upload request:
    after any deliveries, whatever the collaborators answer, the trace has
    gained no [videos.insert] call and the sessions still carry no path. *)
Theorem bot_never_uploads (deliveries : list Delivery) (w : World) :
  videoInfo_pathless w ->
  videoInfo_pathless (run_events deliveries w)
  /\ no_insert_added w (run_events deliveries w).
Proof.
  revert w. induction deliveries as [|d rest IH]; intros w Hp.
  - split; [exact Hp | now apply no_insert_added_same].
  - rewrite run_events_cons.
    destruct (dispatch_stays_uploadless (d_env d) (d_auth d) (d_event d) (d_user d) w Hp)
      as [Hp1 Hn1].
    destruct (IH _ Hp1) as [Hp2 Hn2].
    split; [exact Hp2 | eapply no_insert_added_trans; eassumption].
Qed.

Lemma bot_never_uploads_witness :
  let E := demo_env (fun _ => GetResponse (Some "video/mp4") 1000 None) in
  let w := mkWorld ∅ ∅ {[ 7 := demo_creds ]} [] [] in
  let w' := run_events [mkDelivery E demo_auth (Ev CommandUpload) 7;
                        mkDelivery E demo_auth (Ev (Text "https://example.com/clip.mp4")) 7;
                        mkDelivery E demo_auth (Ev (Text "Demo")) 7;
                        mkDelivery E demo_auth (Ev (Text "skip")) 7;
                        mkDelivery E demo_auth (Ev (ActionPrivacy "public")) 7;
                        mkDelivery E demo_auth (Ev (Text "skip")) 7] w in
  no_insert_added w w'
  /\ step <$> sessions w' !! 7 = Some idle
  /\ trace w' = [ChannelsList demo_creds; ChannelsList demo_creds;
                 HttpHead "https://example.com/clip.mp4";
                 HttpGet "https://example.com/clip.mp4";
                 Cleanup (Some "temp/url_1767222000000.mp4")].
Proof.
  intros E w w'. split; [|split; vm_compute; reflexivity].
  apply (bot_never_uploads _ w). intros u s Hs. vm_compute in Hs. discriminate.
Defined.

(** ** Acquisition is gated *)

Lemma no_acquisition_added_refl w : no_acquisition_added w w.
Proof. exists []. rewrite app_nil_r. split; [reflexivity | constructor]. Qed.

Lemma no_acquisition_added_trans w1 w2 w3 :
  no_acquisition_added w1 w2 -> no_acquisition_added w2 w3 -> no_acquisition_added w1 w3.
Proof.
  intros (c1 & H1 & F1) (c2 & H2 & F2). exists (c1 ++ c2).
  split; [now rewrite H2, H1, app_assoc | now apply Forall_app].
Qed.

Lemma no_acquisition_added_same w w' : trace w' = trace w -> no_acquisition_added w w'.
Proof. intros H. exists []. rewrite H, app_nil_r. split; [reflexivity | constructor]. Qed.

Ltac gating_fact :=
  try assumption; intros; cbv beta in *; try exact I; try reflexivity;
  try (apply no_acquisition_added_refl);
  try (eapply no_acquisition_added_trans; eassumption);
  try (apply no_acquisition_added_same; reflexivity);
  try match goal with
      | Ha : is_acquisition ?a = false |- no_acquisition_added _ _ =>
          exists [a]; split; [reflexivity | now constructor]
      end.

Lemma entered_no_acquisition E userId w : no_acquisition_added w (entered E userId w).
Proof. now apply no_acquisition_added_same. Qed.

Lemma handleVideoFile_no_acquisition E file type userId :
  preserves no_acquisition_added (handleVideoFile E file type userId).
Proof.
  intros w. destruct (handleVideoFile_never_downloads E file type userId w)
    as (_ & _ & _ & calls & Htrace & Hcalls).
  now exists calls.
Qed.

Lemma step_of_entered E userId w :
  step (with_lastActivity (now E) (default (fresh_session E userId) (sessions w !! userId)))
  = step_of w userId.
Proof. unfold step_of. now destruct (sessions w !! userId). Qed.

Lemma authStep_entered E userId w :
  is_awaiting_code
    (Some (with_lastActivity (now E) (default (fresh_session E userId) (sessions w !! userId))))
  = is_awaiting_code (sessions w !! userId).
Proof. now destruct (sessions w !! userId). Qed.

(** X9: a file link or an HTTP request is made only for a text message
    that parses as a URL, sent by a user whose session waits for a video and
    for no authorization code and whose stored credential passes the probe;
    every other delivery makes no such request. *)
Theorem acquisition_is_gated (E : Env) (AE : AuthEnv) (ev : BotEvent) (userId : Z) (w : World) :
  no_acquisition_added w (final (dispatch E AE ev userId) w)
  \/ exists text creds,
       ev = Ev (Text text)
       /\ url_parses E (JS.trim text) = true
       /\ step_of w userId = awaiting_video
       /\ is_awaiting_code (sessions w !! userId) = false
       /\ tokenStore w !! userId = Some creds
       /\ channels_probe E creds = None.
Proof.
  pose (R := no_acquisition_added).
  pose (ok := fun a => is_acquisition a = false).
  pose (good := fun _ : Session -> Session => True).
  assert (Hmid : forall next, preserves R next -> preserves R (middleware E userId next)).
  { intros next Hnext.
    apply (preserves_middleware E userId R good); unfold R, ok, good; gating_fact. }
  assert (Hauth : preserves R (checkAuth E userId)).
  { apply (preserves_checkAuth E userId R ok); unfold R, ok, good; gating_fact. }
  assert (Hafter : forall next : M unit, preserves R next ->
                     no_acquisition_added w (final next (entered E userId w))).
  { intros next Hnext. eapply no_acquisition_added_trans;
      [apply (entered_no_acquisition E userId w) | apply Hnext]. }
  destruct ev as [ev| |]; cbn [dispatch]; [destruct ev|..]; unfold handle;
    try match goal with
        | |- context [on_text] => idtac
        | |- _ => left; apply Hmid
        end.
  - apply (preserves_command_upload E userId R ok good); unfold R, ok, good; gating_fact.
  - apply (preserves_command_cancel E userId R ok); unfold R, ok, good; gating_fact.
  - apply (preserves_command_logout userId R); unfold R, ok, good; gating_fact.
  - (* a text message *)
    unfold final. rewrite middleware_run. fold (final (on_text E message_text userId)
                                                  (entered E userId w)).
    unfold on_text, on_text_with, final. mrun. rewrite entered_lookup, authStep_entered.
    set (s0 := with_lastActivity (now E)
                 (default (fresh_session E userId) (sessions w !! userId))).
    assert (Hs0 : sessions (entered E userId w) !! userId = Some s0)
      by apply entered_lookup.
    destruct (is_awaiting_code (sessions w !! userId)) eqn:Hcode.
    { left. apply (Hafter (handleAuthCode E (JS.trim message_text) userId)).
      apply (preserves_handleAuthCode E userId R ok good); unfold R, ok, good; gating_fact. }
    cbn [fmap option_fmap option_map].
    assert (Hstep : step s0 = step_of w userId) by apply step_of_entered.
    assert (Hurl : forall st, step_of w userId = st -> st <> awaiting_video ->
               no_acquisition_added w
                 (handleUrl E (JS.trim message_text) userId (entered E userId w)).2).
    { intros st Hst Hne. unfold handleUrl. mrun. rewrite Hs0. rewrite Hstep, Hst.
      destruct st; try congruence; cbn; apply no_acquisition_added_same; reflexivity. }
    assert (Hquiet : forall m : M unit,
               (forall w1, trace (final m w1) = trace w1) ->
               no_acquisition_added w (m (entered E userId w)).2).
    { intros m Hm. apply no_acquisition_added_same.
      specialize (Hm (entered E userId w)). unfold final in Hm. now rewrite Hm. }
    destruct (step s0) eqn:Hst0; symmetry in Hstep.
    all: try (destruct (isValidUrl E (JS.trim message_text)) eqn:Hparse;
              [| left; first [ apply (Hquiet (reply _)); reflexivity
                             | apply (Hquiet (ret tt)); reflexivity ] ]).
    all: try (left; eapply Hurl; [exact Hstep | discriminate]).
    + (* awaiting_video, a URL *)
      destruct (tokenStore w !! userId) as [creds|] eqn:Htok.
      * destruct (channels_probe E creds) as [message|] eqn:Hprobe.
        -- left. unfold handleUrl. mrun. rewrite Hs0, Hst0. cbn [negb].
           rewrite checkAuth_run. cbn [tokenStore entered]. rewrite Htok, Hprobe. cbn.
           exists [ChannelsList creds]. split; [reflexivity | repeat constructor].
        -- right. exists message_text, creds. unfold isValidUrl in Hparse. auto 10.
      * left. unfold handleUrl. mrun. rewrite Hs0, Hst0. cbn [negb].
        rewrite checkAuth_run. cbn [tokenStore entered]. rewrite Htok. cbn.
        apply no_acquisition_added_same. reflexivity.
    + left. apply (Hafter (handleTitle (JS.trim message_text) userId)).
      apply (preserves_handleTitle userId R good); unfold R, ok, good; gating_fact.
    + left. apply (Hafter (handleDescription (JS.trim message_text) userId)).
      apply (preserves_handleDescription userId R good); unfold R, ok, good; gating_fact.
    + left. apply (Hafter (handleTags_with (uploadVideo E) (JS.trim message_text) userId)).
      apply (preserves_handleTags_with userId R ok good); unfold R, ok, good;
        try solve [gating_fact].
      intros vi. apply (preserves_uploadVideo E userId no_acquisition_added
                          (fun a => is_acquisition a = false)); gating_fact.
  - apply handleVideoFile_no_acquisition.
  - unfold on_document.
    destruct (match mime_type doc with
              | Some m => JS.truthy m && JS.startsWith "video/" m
              | None => false
              end); [apply handleVideoFile_no_acquisition|].
    intros w1. apply no_acquisition_added_same. reflexivity.
  - apply (preserves_action_cancel userId R good); unfold R, ok, good; gating_fact.
  - apply (preserves_action_cancel_auth userId R good); unfold R, ok, good; gating_fact.
  - apply (preserves_action_manual_upload E userId R ok good); unfold R, ok, good; gating_fact.
  - apply (preserves_bind R); [unfold R; gating_fact | | intros ?].
    + intros w1. unfold R. apply no_acquisition_added_same. reflexivity.
    + apply (preserves_setPrivacy userId R good); unfold R, ok, good; gating_fact.
  - apply (preserves_command_auth E AE userId R ok good); unfold R, ok, good; gating_fact.
  - apply (preserves_command_channel E AE userId R ok); unfold R, ok, good; gating_fact.
Qed.

(** ** The admin flag *)

Lemma admin_consistent_same cfg w w' :
  sessions w' = sessions w -> keeps_admin_consistent cfg w w'.
Proof. intros H Hc u s. rewrite H. apply Hc. Qed.

Lemma admin_consistent_insert cfg w w' userId v :
  sessions w' = <[userId := v]> (sessions w) ->
  isAdmin v = existsb (Z.eqb userId) (adminIds cfg) ->
  keeps_admin_consistent cfg w w'.
Proof.
  intros H Hv Hc u s. rewrite H. destruct (decide (userId = u)) as [->|Hne].
  - rewrite lookup_insert_eq. now intros [= <-].
  - rewrite lookup_insert_ne by exact Hne. apply Hc.
Qed.

Lemma admin_consistent_delete cfg w w' userId :
  sessions w' = delete userId (sessions w) -> keeps_admin_consistent cfg w w'.
Proof.
  intros H Hc u s. rewrite H. destruct (decide (userId = u)) as [->|Hne].
  - now rewrite lookup_delete_eq.
  - rewrite lookup_delete_ne by exact Hne. apply Hc.
Qed.

Lemma admin_consistent_update cfg w w' userId s f :
  sessions w !! userId = Some s ->
  keeps_isAdmin f ->
  sessions w' = <[userId := f s]> (sessions w) ->
  keeps_admin_consistent cfg w w'.
Proof.
  intros Hs Hf H Hc. eapply admin_consistent_insert; [exact H | | exact Hc].
  rewrite Hf. exact (Hc _ _ Hs).
Qed.

Ltac admin_fact :=
  try assumption; intros; try exact I;
  try (intros ?; reflexivity);
  try (intros ?; assumption);
  try (intros ? ?; eassumption);
  try (apply admin_consistent_same; reflexivity);
  try (eapply admin_consistent_delete; reflexivity);
  try (eapply admin_consistent_update; [eassumption | eassumption | reflexivity]);
  try (eapply admin_consistent_insert; reflexivity).

Lemma dispatch_keeps_admin_consistent E AE ev userId :
  preserves (keeps_admin_consistent (config E)) (dispatch E AE ev userId).
Proof.
  pose (R := keeps_admin_consistent (config E)).
  pose (ok := fun _ : Action => True).
  assert (R_refl : forall w, R w w) by (intros w H; exact H).
  assert (R_trans : forall w1 w2 w3, R w1 w2 -> R w2 w3 -> R w1 w3)
    by (intros w1 w2 w3 H12 H23 H; auto).
  assert (Hmid : forall next, preserves R next -> preserves R (middleware E userId next)).
  { intros next Hnext.
    apply (preserves_middleware E userId R keeps_isAdmin); unfold R; admin_fact. }
  destruct ev as [ev| |]; cbn [dispatch]; [destruct ev|..]; unfold handle;
    try match goal with
        | |- context [command_cancel] => idtac
        | |- _ => apply Hmid
        end.
  - apply (preserves_command_upload E userId R ok keeps_isAdmin); unfold R, ok; admin_fact.
  - (* the cancel command copies the flag of the session the middleware left *)
    intros w Hc. unfold final. rewrite middleware_run.
    rewrite (command_cancel_run E userId _ _ (entered_lookup E userId w)). cbn [snd].
    eapply admin_consistent_insert; [cbn [sessions entered]; apply insert_insert_eq | | exact Hc].
    cbn [isAdmin with_lastActivity]. destruct (sessions w !! userId) as [s|] eqn:Hs.
    + exact (Hc _ _ Hs).
    + reflexivity.
  - apply (preserves_command_logout userId R); unfold R; admin_fact.
  - unfold on_text.
    apply (preserves_on_text_with E userId R ok keeps_isAdmin); unfold R, ok;
      try solve [admin_fact].
    + intros t. apply (preserves_handleTitle userId _ keeps_isAdmin); admin_fact.
    + intros t. apply (preserves_handleDescription userId _ keeps_isAdmin); admin_fact.
    + intros t. apply (preserves_handleTags_with userId _ ok keeps_isAdmin); unfold ok;
        try solve [admin_fact].
      intros vi. apply (preserves_uploadVideo E userId _ (fun _ => True)); admin_fact.
  - apply (preserves_handleVideoFile E userId R ok keeps_isAdmin); unfold R, ok; admin_fact.
  - unfold on_document.
    destruct (match mime_type doc with
              | Some m => JS.truthy m && JS.startsWith "video/" m
              | None => false
              end).
    + apply (preserves_handleVideoFile E userId R ok keeps_isAdmin); unfold R, ok; admin_fact.
    + intros w. apply admin_consistent_same. reflexivity.
  - apply (preserves_action_cancel userId R keeps_isAdmin); unfold R; admin_fact.
  - apply (preserves_action_cancel_auth userId R keeps_isAdmin); unfold R; admin_fact.
  - apply (preserves_action_manual_upload E userId R ok keeps_isAdmin); unfold R, ok; admin_fact.
  - apply (preserves_bind R); [exact R_trans | | intros ?].
    + intros w. apply admin_consistent_same. reflexivity.
    + apply (preserves_setPrivacy userId R keeps_isAdmin); unfold R; admin_fact.
  - apply (preserves_command_auth E AE userId R ok keeps_isAdmin); unfold R, ok; admin_fact.
  - apply (preserves_command_channel E AE userId R ok); unfold R, ok; admin_fact.
Qed.

(** X10: the admin flag of every session agrees with the configured
    allow-list after any deliveries, if it did before and the allow-list is
    the same throughout: the middleware computes it, the cancel command
    copies it, and nothing else writes it. *)
Theorem admin_flags_stay_consistent (cfg : Config) (deliveries : list Delivery) (w : World) :
  Forall (fun d => config (d_env d) = cfg) deliveries ->
  admin_consistent cfg w ->
  admin_consistent cfg (run_events deliveries w).
Proof.
  intros Hall. revert w. induction Hall as [|d rest Hd _ IH]; intros w Hc; [exact Hc|].
  rewrite run_events_cons. apply IH. rewrite <- Hd.
  apply dispatch_keeps_admin_consistent. now rewrite Hd.
Qed.

Lemma admin_flags_stay_consistent_witness :
  let E := demo_env (fun _ => GetRejected "unused") in
  let w := mkWorld ∅ ∅ ∅ [] [] in
  let w' := run_events [mkDelivery E demo_auth (Ev CommandCancel) 1;
                        mkDelivery E demo_auth (Ev CommandCancel) 7;
                        mkDelivery E demo_auth (Ev (Text "hello")) 1] w in
  admin_consistent (config E) w'
  /\ isAdmin <$> sessions w' !! 1 = Some true
  /\ isAdmin <$> sessions w' !! 7 = Some false.
Proof.
  intros E w w'. split; [|split; vm_compute; reflexivity].
  apply (admin_flags_stay_consistent (config E)).
  - repeat constructor.
  - intros u s Hs. vm_compute in Hs. discriminate.
Defined.

(** ** Conversations *)

Lemma dispatch_run E AE ev userId w :
  dispatch E AE ev userId w
  = match ev with
    | Ev CommandUpload => command_upload E userId
    | Ev CommandCancel => command_cancel E userId
    | Ev CommandLogout => command_logout userId
    | Ev (Text message_text) => on_text E message_text userId
    | Ev (Video file) => on_video E file userId
    | Ev (Document doc) => on_document E doc userId
    | Ev ActionCancel => action_cancel userId
    | Ev ActionCancelAuth => action_cancel_auth userId
    | Ev ActionManualUpload => action_manual_upload E userId
    | Ev (ActionPrivacy privacy) => answerCbQuery;; setPrivacy privacy userId
    | CommandAuth => command_auth E AE userId
    | CommandChannel => command_channel E AE userId
    end (entered E userId w).
Proof.
  destruct ev as [ev| |]; cbn [dispatch]; [unfold handle; destruct ev|..];
    apply middleware_run.
Qed.

Lemma on_text_awaiting_title E message_text userId w s :
  sessions w !! userId = Some s ->
  step s = awaiting_title ->
  authStep s = None ->
  on_text E message_text userId w = handleTitle (JS.trim message_text) userId w.
Proof.
  intros Hs Hstep Hauth. unfold on_text, on_text_with, is_awaiting_code. mrun.
  rewrite Hs, Hauth. cbn. now rewrite Hstep.
Qed.

Lemma on_text_awaiting_description E message_text userId w s :
  sessions w !! userId = Some s ->
  step s = awaiting_description ->
  authStep s = None ->
  on_text E message_text userId w = handleDescription (JS.trim message_text) userId w.
Proof.
  intros Hs Hstep Hauth. unfold on_text, on_text_with, is_awaiting_code. mrun.
  rewrite Hs, Hauth. cbn. now rewrite Hstep.
Qed.

Lemma on_text_awaiting_code E message_text userId w s :
  sessions w !! userId = Some s ->
  authStep s = Some awaiting_code ->
  on_text E message_text userId w = handleAuthCode E (JS.trim message_text) userId w.
Proof.
  intros Hs Hauth. unfold on_text, on_text_with, is_awaiting_code. mrun.
  now rewrite Hs, Hauth.
Qed.

Lemma title_delivery E AE message_text userId w s :
  sessions w !! userId = Some s ->
  step s = awaiting_title ->
  authStep s = None ->
  final (dispatch E AE (Ev (Text message_text)) userId) w
  = mkWorld (<[userId := mkSession awaiting_description
                           (with_title (JS.trim message_text) (videoInfo s))
                           (filePath s) None (now E) (isAdmin s)]> (sessions w))
            (files w) (tokenStore w)
            (outbox w ++ [Reply ("Great! Now send me the *video description* (or type "
                                 +:+ dq +:+ "skip" +:+ dq +:+ "):")])
            (trace w).
Proof.
  intros Hs Hstep Hauth. unfold final. rewrite dispatch_run.
  pose proof (entered_lookup E userId w) as H0. rewrite Hs in H0. cbn [default id] in H0.
  rewrite (on_text_awaiting_title E _ userId _ _ H0)
    by (destruct s; cbn in *; congruence).
  rewrite (handleTitle_run _ userId _ _ H0).
  cbn [snd sessions files tokenStore outbox trace entered]. rewrite insert_insert_eq.
  destruct s; cbn in *; now subst.
Qed.

Lemma description_delivery E AE message_text userId w s :
  sessions w !! userId = Some s ->
  step s = awaiting_description ->
  authStep s = None ->
  final (dispatch E AE (Ev (Text message_text)) userId) w
  = mkWorld (<[userId := mkSession awaiting_privacy
                           (if String.eqb (JS.toLowerCase (JS.trim message_text)) "skip"
                            then videoInfo s
                            else with_description (JS.trim message_text) (videoInfo s))
                           (filePath s) None (now E) (isAdmin s)]> (sessions w))
            (files w) (tokenStore w)
            (outbox w ++ [Reply "Choose privacy setting:"])
            (trace w).
Proof.
  intros Hs Hstep Hauth. unfold final. rewrite dispatch_run.
  pose proof (entered_lookup E userId w) as H0. rewrite Hs in H0. cbn [default id] in H0.
  rewrite (on_text_awaiting_description E _ userId _ _ H0)
    by (destruct s; cbn in *; congruence).
  rewrite (handleDescription_run _ userId _ _ H0).
  cbn [snd sessions files tokenStore outbox trace entered]. rewrite insert_insert_eq.
  destruct s; cbn in *; subst.
  now destruct (String.eqb (JS.toLowerCase (JS.trim message_text)) "skip").
Qed.

Lemma privacy_delivery E AE privacy userId w s :
  sessions w !! userId = Some s ->
  final (dispatch E AE (Ev (ActionPrivacy privacy)) userId) w
  = mkWorld (<[userId := mkSession awaiting_tags
                           (with_privacyStatus privacy (videoInfo s))
                           (filePath s) (authStep s) (now E) (isAdmin s)]> (sessions w))
            (files w) (tokenStore w)
            (outbox w ++ [AnswerCbQuery;
                          EditMessageText
                            ("Privacy set to: *" +:+ privacy +:+ "*" +:+ nl +:+ nl +:+
                             "Now, send me tags (comma-separated, or type "
                             +:+ dq +:+ "skip" +:+ dq +:+ "):")])
            (trace w).
Proof.
  intros Hs. unfold final. rewrite dispatch_run.
  pose proof (entered_lookup E userId w) as H0. rewrite Hs in H0. cbn [default id] in H0.
  unfold bind at 1, answerCbQuery. cbn [fst snd].
  erewrite setPrivacy_run by (cbn [sessions]; exact H0).
  cbn [snd sessions files tokenStore outbox trace entered].
  rewrite insert_insert_eq, <- app_assoc. reflexivity.
Qed.

(** X11: title, description and privacy choice, sent in that order by a
    user whose session waits for a title and for no authorization code, end
    in a session that waits for tags and holds the trimmed title, the
    trimmed description unless it is [skip] in any letter case, and the
    chosen privacy; the path, the size and the MIME type recorded by the
    download are kept, and no request is made. *)
Theorem metadata_is_collected (E1 E2 E3 : Env) (A1 A2 A3 : AuthEnv)
    (titleText descriptionText privacy : string) (userId : Z) (w : World) (s : Session) :
  sessions w !! userId = Some s ->
  step s = awaiting_title ->
  authStep s = None ->
  let w' := run_events [mkDelivery E1 A1 (Ev (Text titleText)) userId;
                        mkDelivery E2 A2 (Ev (Text descriptionText)) userId;
                        mkDelivery E3 A3 (Ev (ActionPrivacy privacy)) userId] w in
  sessions w' !! userId
  = Some (mkSession awaiting_tags
            (mkVideoInfo (Some (JS.trim titleText))
                         (if String.eqb (JS.toLowerCase (JS.trim descriptionText)) "skip"
                          then description (videoInfo s)
                          else Some (JS.trim descriptionText))
                         (tags (videoInfo s)) (Some privacy) (categoryId (videoInfo s))
                         (mimeType (videoInfo s)) (vi_size (videoInfo s))
                         (vi_filePath (videoInfo s)))
            (filePath s) None (now E3) (isAdmin s))
  /\ trace w' = trace w /\ files w' = files w /\ tokenStore w' = tokenStore w.
Proof.
  intros Hs Hstep Hauth. cbv zeta.
  rewrite !run_events_cons. unfold run_events. cbn [fold_left d_env d_auth d_event d_user].
  rewrite (title_delivery E1 A1 titleText userId w s Hs Hstep Hauth).
  erewrite description_delivery;
    [| cbn [sessions]; apply lookup_insert_eq | reflexivity | reflexivity].
  erewrite privacy_delivery; [| cbn [sessions]; apply lookup_insert_eq].
  cbn [sessions files tokenStore trace]. rewrite lookup_insert_eq.
  split; [|auto]. f_equal. cbn [videoInfo filePath authStep isAdmin].
  destruct (String.eqb (JS.toLowerCase (JS.trim descriptionText)) "skip"); reflexivity.
Qed.

Lemma metadata_is_collected_witness :
  let E := demo_env (fun _ => GetRejected "unused") in
  let w := demo_world awaiting_title (Some "temp/url_1.mp4") None {[ "temp/url_1.mp4" := 1000 ]} in
  let w' := run_events [mkDelivery E demo_auth (Ev (Text "  Holiday ")) 7;
                        mkDelivery E demo_auth (Ev (Text "Skip")) 7;
                        mkDelivery E demo_auth (Ev (ActionPrivacy "unlisted")) 7] w in
  sessions w' !! 7
  = Some (mkSession awaiting_tags
            (mkVideoInfo (Some "Holiday") None None (Some "unlisted") None
                         (Some "video/mp4") (Some 1000) None)
            (Some "temp/url_1.mp4") None 1767222000000 true).
Proof.
  intros E w w'.
  destruct (metadata_is_collected E E E demo_auth demo_auth demo_auth
              "  Holiday " "Skip" "unlisted" 7 w
              (demo_session awaiting_title (Some "temp/url_1.mp4") None))
    as [H _]; [reflexivity | reflexivity | reflexivity |].
  exact H.
Defined.

(** X12: with no path in [videoInfo], as in every session the bot creates,
    the text sent while the session waits for tags and for no authorization
    code ends the attempt: the user is told that the upload failed and the
    session is back to idle.  The file recorded in the session is deleted,
    and that clean-up is the only call; when no file is recorded there is
    no call at all and the scratch files are as before. *)
Theorem tags_text_ends_in_failure (E : Env) (AE : AuthEnv) (message_text : string)
    (userId : Z) (w : World) (s : Session) :
  sessions w !! userId = Some s ->
  step s = awaiting_tags ->
  authStep s = None ->
  vi_filePath (videoInfo s) = None ->
  let w' := final (dispatch E AE (Ev (Text message_text)) userId) w in
  sessions w' !! userId = Some (mkSession idle emptyVideoInfo None None (now E) (isAdmin s))
  /\ (exists error,
        outbox w' = outbox w ++ [Reply "🚀 Starting upload to YouTube...";
                                 Reply ("❌ Upload failed: " +:+ error)])
  /\ match filePath s with
     | Some p =>
         if String.eqb p "" then files w' = files w /\ trace w' = trace w
         else files w' = delete p (files w) /\ files w' !! p = None
              /\ trace w' = trace w ++ [Cleanup (Some p)]
     | None => files w' = files w /\ trace w' = trace w
     end
  /\ tokenStore w' = tokenStore w.
Proof.
  intros Hs Hstep Hauth Hpath. cbv zeta. unfold final. rewrite dispatch_run.
  pose proof (entered_lookup E userId w) as H0. rewrite Hs in H0. cbn [default id] in H0.
  unfold on_text.
  rewrite (on_text_awaiting_tags E _ _ userId _ _ H0)
    by (destruct s; cbn in *; congruence).
  fold (handleTags E (JS.trim message_text) userId).
  rewrite (handleTags_without_path E _ userId _ _ H0) by (destruct s; exact Hpath).
  cbn [snd sessions files tokenStore outbox trace entered].
  rewrite lookup_insert_eq.
  split; [destruct s; cbn in *; now subst|].
  split; [eauto|]. split; [|reflexivity].
  destruct s as [st vi [p|] au la ad]; cbn [filePath with_lastActivity truthy_path];
    [|now split].
  destruct p as [|c p]; cbn [JS.truthy String.eqb]; [now split|].
  split; [reflexivity|]. split; [apply lookup_delete_eq | reflexivity].
Qed.

Lemma tags_text_ends_in_failure_witness :
  let E := demo_env (fun _ => GetRejected "unused") in
  let w := demo_world awaiting_tags (Some "temp/url_1.mp4") None {[ "temp/url_1.mp4" := 1000 ]} in
  let w' := final (dispatch E demo_auth (Ev (Text "a, b")) 7) w in
  files w' !! "temp/url_1.mp4" = None
  /\ trace w' = [Cleanup (Some "temp/url_1.mp4")].
Proof.
  intros E w w'.
  destruct (tags_text_ends_in_failure E demo_auth "a, b" 7 w
              (demo_session awaiting_tags (Some "temp/url_1.mp4") None))
    as (_ & _ & H & _); [reflexivity | reflexivity | reflexivity | reflexivity |].
  cbn in H. destruct H as (_ & Hfile & Htrace). split; [exact Hfile | exact Htrace].
Defined.

Lemma logout_delivery E AE userId w :
  final (dispatch E AE (Ev CommandLogout) userId) w
  = mkWorld (delete userId (sessions w)) (files w) (delete userId (tokenStore w))
            (outbox w ++ [Reply "✅ Successfully logged out. Use /auth to authenticate again."])
            (trace w).
Proof.
  unfold final. rewrite dispatch_run, command_logout_run.
  cbn [snd sessions files tokenStore outbox trace entered].
  now rewrite delete_insert_eq.
Qed.

Lemma upload_without_credential E AE userId w :
  tokenStore w !! userId = None ->
  final (dispatch E AE (Ev CommandUpload) userId) w
  = mkWorld (sessions (entered E userId w)) (files w) (tokenStore w)
            (outbox w ++ [Reply authRequiredMsg]) (trace w).
Proof.
  intros Htok. unfold final. rewrite dispatch_run.
  unfold command_upload. unfold bind at 1. rewrite checkAuth_run.
  cbn [tokenStore entered]. rewrite Htok. mrun. reflexivity.
Qed.

(** X13: the logout command forgets the session and the credential of the
    user and deletes no file, so a download recorded in the session stays in
    scratch storage; an upload command that follows starts from a new idle
    session and is refused without any request. *)
Theorem logout_then_upload_is_refused (E1 E2 : Env) (A1 A2 : AuthEnv) (userId : Z)
    (w : World) :
  let w1 := final (dispatch E1 A1 (Ev CommandLogout) userId) w in
  let w2 := final (dispatch E2 A2 (Ev CommandUpload) userId) w1 in
  (sessions w1 !! userId = None /\ tokenStore w1 !! userId = None /\ files w1 = files w)
  /\ sessions w2 !! userId = Some (fresh_session E2 userId)
  /\ tokenStore w2 !! userId = None
  /\ files w2 = files w
  /\ trace w2 = trace w
  /\ outbox w2 = outbox w ++ [Reply "✅ Successfully logged out. Use /auth to authenticate again.";
                              Reply authRequiredMsg].
Proof.
  cbv zeta. rewrite logout_delivery.
  rewrite upload_without_credential by (cbn [tokenStore]; apply lookup_delete_eq).
  cbn [sessions files tokenStore outbox trace entered].
  rewrite !lookup_delete_eq, lookup_insert_eq, <- app_assoc. cbn [default].
  repeat split.
Qed.

Lemma auth_delivery E AE userId w :
  tokenStore w !! userId = None ->
  final (dispatch E AE CommandAuth userId) w
  = mkWorld (<[userId := with_authStep (Some awaiting_code)
                           (with_lastActivity (now E)
                              (default (fresh_session E userId) (sessions w !! userId)))]>
               (sessions w))
            (files w) (tokenStore w)
            (outbox w ++ [Reply authMsg;
                          Reply "After authorizing, please send me the authorization code you receive:"])
            (trace w).
Proof.
  intros Htok. unfold final. rewrite dispatch_run.
  unfold command_auth. unfold bind at 1. rewrite checkAuth_run.
  cbn [tokenStore entered]. rewrite Htok. unfold getAuthUrl. mrun.
  rewrite entered_lookup. mrun. cbn [entered sessions files tokenStore outbox trace].
  now rewrite insert_insert_eq, <- app_assoc.
Qed.

Lemma code_delivery E AE message_text userId w s :
  sessions w !! userId = Some s ->
  authStep s = Some awaiting_code ->
  let code := JS.trim message_text in
  let s' := mkSession (step s) (videoInfo s) (filePath s) None (now E) (isAdmin s) in
  let said answer := outbox w ++ [Reply "🔐 Processing authorization code..."; Reply answer] in
  let failed error :=
    "❌ Authentication failed: " +:+ error +:+ nl +:+ nl +:+ "Try /auth again." in
  final (dispatch E AE (Ev (Text message_text)) userId) w
  = match oauth_getToken E code with
    | Exn e =>
        mkWorld (<[userId := s']> (sessions w)) (files w) (tokenStore w) (said (failed e))
                (trace w ++ [OAuthGetToken code])
    | Val tokens =>
        match oauth_userinfo E tokens with
        | Exn e =>
            mkWorld (<[userId := s']> (sessions w)) (files w) (tokenStore w) (said (failed e))
                    (trace w ++ [OAuthGetToken code; OAuthUserinfo tokens])
        | Val info =>
            mkWorld (<[userId := s']> (sessions w)) (files w)
                    (<[userId := mkStoredTokens tokens (now E) (JS.string_of_Z userId)]>
                       (tokenStore w))
                    (said (authSuccessMsg (ui_name info) (ui_email info)))
                    (trace w ++ [OAuthGetToken code; OAuthUserinfo tokens])
        end
    end.
Proof.
  intros Hs Hauth. cbv zeta. unfold final. rewrite dispatch_run.
  pose proof (entered_lookup E userId w) as H0. rewrite Hs in H0. cbn [default id] in H0.
  rewrite (on_text_awaiting_code E _ userId _ _ H0) by exact Hauth.
  unfold handleAuthCode. unfold bind at 1, reply at 1. cbn [fst snd].
  unfold bind at 1. rewrite handleAuthCallback_run.
  destruct (oauth_getToken E (JS.trim message_text)) as [tokens|e];
    [destruct (oauth_userinfo E tokens) as [info|e]|];
    mrun; cbn [entered sessions files tokenStore outbox trace];
    rewrite ?lookup_insert_eq; mrun; rewrite ?lookup_insert_eq; mrun;
    rewrite !insert_insert_eq, <- !app_assoc, ?Hs; reflexivity.
Qed.

(** X14: the auth command of a user without a credential followed by a
    text message: the text, trimmed, is exchanged as an authorization code
    whatever the step of the session, which is left as it was; afterwards no
    code is awaited, and a credential is stored exactly when both the
    exchange and the profile request succeed. *)
Theorem auth_then_code (E1 E2 : Env) (A1 A2 : AuthEnv) (message_text : string)
    (userId : Z) (w : World) :
  tokenStore w !! userId = None ->
  let code := JS.trim message_text in
  let w' := run_events [mkDelivery E1 A1 CommandAuth userId;
                        mkDelivery E2 A2 (Ev (Text message_text)) userId] w in
  authStep <$> sessions w' !! userId = Some None
  /\ step <$> sessions w' !! userId = Some (step_of w userId)
  /\ match oauth_getToken E2 code with
     | Exn _ => tokenStore w' !! userId = None /\ trace w' = trace w ++ [OAuthGetToken code]
     | Val tokens =>
         trace w' = trace w ++ [OAuthGetToken code; OAuthUserinfo tokens]
         /\ tokenStore w' !! userId
            = match oauth_userinfo E2 tokens with
              | Exn _ => None
              | Val _ => Some (mkStoredTokens tokens (now E2) (JS.string_of_Z userId))
              end
     end.
Proof.
  intros Htok. cbv zeta.
  rewrite !run_events_cons. unfold run_events. cbn [fold_left d_env d_auth d_event d_user].
  rewrite (auth_delivery E1 A1 userId w Htok).
  erewrite code_delivery; [| cbn [sessions]; apply lookup_insert_eq | reflexivity].
  assert (Hstep : step (default (fresh_session E1 userId) (sessions w !! userId))
                  = step_of w userId)
    by (unfold step_of; now destruct (sessions w !! userId)).
  cbn [step with_authStep with_lastActivity].
  destruct (oauth_getToken E2 (JS.trim message_text)) as [tokens|e];
    [destruct (oauth_userinfo E2 tokens) as [info|e]|];
    cbn [sessions tokenStore trace]; rewrite ?lookup_insert_eq;
    cbn [fmap option_fmap option_map authStep step]; rewrite Hstep; auto.
Qed.

Lemma auth_then_code_witness :
  let E := demo_env (fun _ => GetRejected "unused") in
  let w := mkWorld ∅ ∅ ∅ [] [] in
  let w' := run_events [mkDelivery E demo_auth CommandAuth 7;
                        mkDelivery E demo_auth (Ev (Text " 4/good ")) 7] w in
  tokenStore w' !! 7 = Some (mkStoredTokens demo_tokens 1767222000000 "7").
Proof.
  intros E w w'.
  destruct (auth_then_code E E demo_auth demo_auth " 4/good " 7 w) as (_ & _ & H);
    [reflexivity|].
  apply H.
Defined.

Lemma on_text_awaiting_video E message_text userId w s :
  sessions w !! userId = Some s ->
  step s = awaiting_video ->
  authStep s = None ->
  url_parses E (JS.trim message_text) = true ->
  on_text E message_text userId w = handleUrl E (JS.trim message_text) userId w.
Proof.
  intros Hs Hstep Hauth Hurl. unfold on_text, on_text_with, is_awaiting_code, isValidUrl. mrun.
  rewrite Hs, Hauth. cbn. now rewrite Hstep, Hurl.
Qed.

Lemma or_default_named (name fallback : string) :
  name <> "" -> JS.or_default (Some name) fallback = name.
Proof. intros Hn. unfold JS.or_default. destruct name; [congruence | reflexivity]. Qed.

Lemma link_delivery E1 E2 message_text userId w s creds content_type n :
  let url := JS.trim message_text in
  let p := path_join E2 tempDir ("url_" +:+ JS.string_of_Z (now E2) +:+ ".mp4") in
  sessions w !! userId = Some s ->
  step s = awaiting_video ->
  authStep s = None ->
  url_parses E2 url = true ->
  JS.startsWith "http" url = true ->
  JS.includes "drive.google.com" url = false ->
  tokenStore w !! userId = Some creds ->
  channels_probe E2 creds = None ->
  http_get E2 url = GetResponse content_type n None ->
  n <= maxSize (config E2) ->
  final (middleware E1 userId (on_text E2 message_text userId)) w
  = mkWorld (<[userId := mkSession awaiting_title
                           (mkVideoInfo None None None None None
                              (Some (JS.or_default content_type "video/mp4")) (Some n) None)
                           (Some p) None (now E1) (isAdmin s)]> (sessions w))
            (<[p := n]> (files w)) (tokenStore w)
            (outbox w ++ [Reply "🔗 Processing link..."; Reply "📥 Downloading from URL...";
                          Reply (downloadedMsg n)])
            (trace w ++ [ChannelsList creds; HttpHead url; HttpGet url]).
Proof.
  intros url p Hs Hstep Hauth Hparse Hhttp Hdrive Htok Hprobe Hget Hn.
  unfold final. rewrite middleware_run.
  pose proof (entered_lookup E1 userId w) as H0. rewrite Hs in H0. cbn [default id] in H0.
  rewrite (on_text_awaiting_video E2 _ userId _ _ H0 Hstep Hauth Hparse).
  fold url. unfold handleUrl. mrun. rewrite H0.
  cbn [step with_lastActivity]. rewrite Hstep. cbn [negb].
  rewrite checkAuth_run. cbn [tokenStore entered]. rewrite Htok, Hprobe. mrun.
  rewrite Hdrive. mrun. rewrite H0. mrun.
  rewrite (downloadDirectUrl_run E2 url _ _ Hhttp). cbv zeta. rewrite Hget.
  assert (Hle : (n >? maxSize (config E2)) = false) by lia. rewrite Hle.
  rewrite or_default_named by (rewrite append_cons; discriminate).
  unfold record_download, after_transfer. mrun.
  cbn [entered sessions files outbox trace]. rewrite !insert_insert_eq, <- !app_assoc.
  cbn [app]. subst p url. destruct s as [st vi fp au la ad]. cbn in Hauth. subst au. reflexivity.
Qed.

(** X15: the conditions for a download are sufficient.  A link that is no
    Drive link, sent
    while the session waits for a video and for no authorization code by a
    user whose credential passes the probe, is fetched; when the transfer
    completes within the size limit the file is in scratch storage under a
    name made of the time at which the handler asks for it, the session
    records its path, size and MIME type and waits for the title.  The path
    is recorded in the session, not in [videoInfo].  The middleware and the
    handler read the clock one after the other: [E1] is the environment of
    the first reading, which stamps the session, [E2] that of the handler. *)
Theorem link_is_downloaded (E1 E2 : Env) (message_text : string) (userId : Z)
    (w : World) (s : Session) (creds : StoredTokens) (content_type : option string) (n : Z) :
  let url := JS.trim message_text in
  let p := path_join E2 tempDir ("url_" +:+ JS.string_of_Z (now E2) +:+ ".mp4") in
  sessions w !! userId = Some s ->
  step s = awaiting_video ->
  authStep s = None ->
  url_parses E2 url = true ->
  JS.startsWith "http" url = true ->
  JS.includes "drive.google.com" url = false ->
  tokenStore w !! userId = Some creds ->
  channels_probe E2 creds = None ->
  http_get E2 url = GetResponse content_type n None ->
  n <= maxSize (config E2) ->
  let w' := final (middleware E1 userId (on_text E2 message_text userId)) w in
  sessions w' !! userId
  = Some (mkSession awaiting_title
            (mkVideoInfo None None None None None
                         (Some (JS.or_default content_type "video/mp4")) (Some n) None)
            (Some p) None (now E1) (isAdmin s))
  /\ files w' !! p = Some n
  /\ trace w' = trace w ++ [ChannelsList creds; HttpHead url; HttpGet url].
Proof.
  intros url p Hs Hstep Hauth Hparse Hhttp Hdrive Htok Hprobe Hget Hn. cbv zeta.
  rewrite (link_delivery E1 E2 message_text userId w s creds content_type n
             Hs Hstep Hauth Hparse Hhttp Hdrive Htok Hprobe Hget Hn).
  cbn [sessions files trace]. rewrite !lookup_insert_eq. auto.
Qed.

Lemma link_is_downloaded_witness :
  let E1 := demo_env (fun _ => GetResponse None 1000 None) in
  let E2 := at_time 1767222004321 E1 in
  let w := demo_world awaiting_video None None ∅ in
  let w' := final (middleware E1 7 (on_text E2 " https://example.com/clip.mp4" 7)) w in
  filePath <$> sessions w' !! 7 = Some (Some "temp/url_1767222004321.mp4")
  /\ lastActivity <$> sessions w' !! 7 = Some 1767222000000
  /\ files w' !! "temp/url_1767222004321.mp4" = Some 1000.
Proof.
  intros E1 E2 w w'.
  destruct (link_is_downloaded E1 E2 " https://example.com/clip.mp4" 7 w
              (demo_session awaiting_video None None) demo_creds None 1000)
    as (Hsess & Hfiles & _);
    try reflexivity; [vm_compute; discriminate |].
  split; [subst w'; rewrite Hsess; reflexivity|].
  split; [subst w'; rewrite Hsess; reflexivity | exact Hfiles].
Defined.

(** X16: a privacy button is not tied to a step.  Whatever the session of
    the user waits for, and also when there is none yet, pressing one leaves
    a session that waits for tags with the privacy of the button, and every
    other field of the session as the middleware left it. *)
Theorem privacy_button_ignores_step (E : Env) (AE : AuthEnv) (privacy : string) (userId : Z)
    (w : World) :
  let s := default (fresh_session E userId) (sessions w !! userId) in
  sessions (final (dispatch E AE (Ev (ActionPrivacy privacy)) userId) w) !! userId
  = Some (mkSession awaiting_tags (with_privacyStatus privacy (videoInfo s))
                    (filePath s) (authStep s) (now E) (isAdmin s)).
Proof.
  cbv zeta. unfold final. rewrite dispatch_run.
  unfold bind at 1, answerCbQuery. cbn [fst snd].
  erewrite setPrivacy_run by (cbn [sessions]; apply entered_lookup).
  cbn [snd sessions]. now rewrite lookup_insert_eq.
Qed.
